(** * CV-Translator-BOT: the section parser and the page renderer

    A shallow embedding of [parse_cv_content] and [create_cv_pdf] of
    [CVtranslatorFINAL.py], and the properties of the text-to-structure
    parser and of the structure-to-layout renderer.

    Python values are modelled as follows.
    - [str] is a list of Unicode code points ([N]).
    - A [dict] is an association list in insertion order: assigning to an
      existing key keeps its position, assigning to a new key appends it,
      [pop] removes the entry.
    - Operations that can raise ([d[k]], [d.pop(k)], [l[0]]) return
      [option]; [None] stands for the exception.
    - The [re] patterns are written as lists of items and run by a small
      backtracking matcher with Python's greedy semantics.
    - The FPDF object is a log of the calls made on it. *)

From Stdlib Require Import String Ascii.
From Stdlib Require Import List NArith ZArith Bool Arith Lia.
Import ListNotations.

Set Implicit Arguments.

(** ** Python strings *)

Module Py.

Definition char := N.
Definition str := list char.

(** A string literal of the source, as code points. *)
Definition py (s : string) : str := map N_of_ascii (list_ascii_of_string s).
Arguments py s%_string : simpl never.

Definition NL : char := 10%N.
Definition STAR : char := 42%N.
Definition DASH : char := 45%N.
Definition SPACE : char := 32%N.
(** U+2022, the bullet character of the source. *)
Definition BULLET : char := 8226%N.

Local Open Scope N_scope.

(** [str.isspace] on one code point: the set used by [str.strip()] and by
    the [\s] class of [re] on [str] patterns. *)
Definition isspace (c : char) : bool :=
  ((9 <=? c) && (c <=? 13)) || ((28 <=? c) && (c <=? 32))
  || (c =? 133) || (c =? 160) || (c =? 5760)
  || ((8192 <=? c) && (c <=? 8202))
  || (c =? 8232) || (c =? 8233) || (c =? 8239) || (c =? 8287) || (c =? 12288).

(** The class [A-Z]. *)
Definition is_AZ (c : char) : bool := (65 <=? c) && (c <=? 90).

Definition is_ascii (c : char) : bool := c <? 128.

Definition ascii_lower (c : char) : char := if is_AZ c then c + 32 else c.
Definition ascii_upper (c : char) : char :=
  if (97 <=? c) && (c <=? 122) then c - 32 else c.

Local Close Scope N_scope.

Fixpoint str_eqb (a b : str) : bool :=
  match a, b with
  | [], [] => true
  | x :: a', y :: b' => N.eqb x y && str_eqb a' b'
  | _, _ => false
  end.

(** [s.startswith(p)] *)
Fixpoint startswith (p s : str) : bool :=
  match p, s with
  | [], _ => true
  | x :: p', y :: s' => N.eqb x y && startswith p' s'
  | _ :: _, [] => false
  end.

(** [s.endswith(p)] *)
Definition endswith (p s : str) : bool := startswith (rev p) (rev s).

(** [needle in hay] *)
Fixpoint contains (needle hay : str) : bool :=
  startswith needle hay ||
  match hay with
  | [] => false
  | _ :: hay' => contains needle hay'
  end.

Fixpoint dropwhile (p : char -> bool) (s : str) : str :=
  match s with
  | [] => []
  | c :: s' => if p c then dropwhile p s' else s
  end.

Fixpoint takewhile (p : char -> bool) (s : str) : str :=
  match s with
  | [] => []
  | c :: s' => if p c then c :: takewhile p s' else []
  end.

(** [s.strip(chars)] with the set of characters given as a predicate. *)
Definition strip_by (p : char -> bool) (s : str) : str :=
  rev (dropwhile p (rev (dropwhile p s))).

(** [s.strip()] *)
Definition strip (s : str) : str := strip_by isspace s.

(** [s.strip(chars)] *)
Definition strip_chars (chars : str) (s : str) : str :=
  strip_by (fun c => existsb (N.eqb c) chars) s.

(** [s.split("\n")] *)
Fixpoint split_nl (s : str) : list str :=
  match s with
  | [] => [[]]
  | c :: s' =>
      if N.eqb c NL then [] :: split_nl s'
      else match split_nl s' with
           | l :: ls => (c :: l) :: ls
           | [] => [[c]]
           end
  end.

(** [sep.join(ls)] *)
Fixpoint join (sep : str) (ls : list str) : str :=
  match ls with
  | [] => []
  | [l] => l
  | l :: ls' => l ++ sep ++ join sep ls'
  end.

Definition join_nl (ls : list str) : str := join [NL] ls.

(** Truthiness of a string: [if s]. *)
Definition nonempty (s : str) : bool :=
  match s with [] => false | _ => true end.

(** The case mappings [str.lower] and [str.upper] come from the Unicode
    tables of the interpreter.  They are an interface here: what the
    parser relies on is their behaviour on ASCII text and that lowering
    never erases a non-empty string. *)
Class CaseTables := {
  lower : str -> str;
  upper : str -> str;
  lower_ascii : forall s, forallb is_ascii s = true -> lower s = map ascii_lower s;
  lower_nonempty : forall s, lower s = [] -> s = []
}.

End Py.
Export Py.

(** ** Insertion-ordered dictionaries *)

Module Dict.

Section Ops.
Variable V : Type.

Definition dict := list (str * V).

Definition keys (d : dict) : list str := map fst d.

(** [d[k]]; [None] is [KeyError]. *)
Fixpoint get (k : str) (d : dict) : option V :=
  match d with
  | [] => None
  | (k', v) :: d' => if str_eqb k' k then Some v else get k d'
  end.

(** [k in d] *)
Definition mem (k : str) (d : dict) : bool :=
  existsb (fun e => str_eqb (fst e) k) d.

(** [d[k] = v]: in place for an existing key, at the end for a new one. *)
Fixpoint set (k : str) (v : V) (d : dict) : dict :=
  match d with
  | [] => [(k, v)]
  | (k', v') :: d' =>
      if str_eqb k' k then (k', v) :: d' else (k', v') :: set k v d'
  end.

(** [del d[k]], the dictionary left by [d.pop(k)]. *)
Fixpoint remove (k : str) (d : dict) : dict :=
  match d with
  | [] => []
  | (k', v') :: d' =>
      if str_eqb k' k then d' else (k', v') :: remove k d'
  end.

(** [d.pop(k)]: the value and the remaining dictionary; [None] is
    [KeyError]. *)
Definition pop (k : str) (d : dict) : option (V * dict) :=
  match get k d with
  | Some v => Some (v, remove k d)
  | None => None
  end.

End Ops.

End Dict.

(** ** Regular expressions *)

Module Re.

(** The fragment of [re] syntax the source uses: single characters of a
    class, greedy bounded-below repetitions of a class, one capture
    group, and the anchors.  Without [re.MULTILINE], [^] matches at the
    start of the string, and [$] at its end and before a newline that
    ends it. *)
Inductive item :=
| One (p : char -> bool)               (* one character of the class *)
| Many (p : char -> bool) (lo : nat)   (* class{lo,}, greedy *)
| GOpen                                (* ( *)
| GClose                               (* ) *)
| Bos                                  (* ^ *)
| Eos.                                 (* $ *)

Definition regex := list item.

(** Greedy choice of a repetition count: the largest [k <= hi] with
    [lo <= k] for which the rest of the pattern matches. *)
Fixpoint greedy (A : Type) (f : nat -> option A) (lo k : nat) : option A :=
  match (if lo <=? k then f k else None) with
  | Some r => Some r
  | None => match k with
            | 0 => None
            | S k' => greedy f lo k'
            end
  end.

(** [run r whole s opened caps] matches [r] against the suffix [s] of
    [whole].  It returns the unmatched rest and the captured groups. *)
Fixpoint run (r : regex) (whole s : str) (opened : option str)
         (caps : list str) : option (str * list str) :=
  match r with
  | [] => Some (s, caps)
  | One p :: r' =>
      match s with
      | c :: s' => if p c then run r' whole s' opened caps else None
      | [] => None
      end
  | Many p lo :: r' =>
      greedy (fun k => run r' whole (skipn k s) opened caps) lo
             (length (takewhile p s))
  | GOpen :: r' => run r' whole s (Some s) caps
  | GClose :: r' =>
      match opened with
      | Some s0 =>
          run r' whole s None (caps ++ [firstn (length s0 - length s) s0])
      | None => None
      end
  | Bos :: r' =>
      if length s =? length whole then run r' whole s opened caps else None
  | Eos :: r' =>
      match s with
      | [] => run r' whole s opened caps
      | [c] => if N.eqb c NL then run r' whole s opened caps else None
      | _ => None
      end
  end.

(** [pattern.match(s)]: the groups of the match, or [None]. *)
Definition re_match (r : regex) (s : str) : option (list str) :=
  match run r s s None [] with
  | Some (_, caps) => Some caps
  | None => None
  end.

(** [m.group(1)]; [None] is [IndexError: no such group]. *)
Definition group1 (m : list str) : option str := nth_error m 0.

(** Length of the match of [r] at the start of [s]. *)
Definition match_len (r : regex) (s : str) : option nat :=
  match run r s s None [] with
  | Some (rest, _) => Some (length s - length rest)
  | None => None
  end.

(** [re.split(r, s)] for a pattern without groups whose matches are not
    empty: [skip] counts the characters of the current match still to be
    passed, [cur] is the piece being collected, reversed. *)
Fixpoint split_go (r : regex) (s : str) (skip : nat) (cur : str) : list str :=
  match s with
  | [] => [rev cur]
  | c :: s' =>
      match skip with
      | S k => split_go r s' k cur
      | 0 =>
          match match_len r s with
          | Some (S n) => rev cur :: split_go r s' n []
          | _ => split_go r s' 0 (c :: cur)
          end
      end
  end.

Definition re_split (r : regex) (s : str) : list str := split_go r s 0 [].

End Re.

(** ** Exceptions as [option] *)

Definition bind (A B : Type) (m : option A) (f : A -> option B) : option B :=
  match m with
  | Some a => f a
  | None => None
  end.

Notation "x <- m ;; k" := (bind m (fun x => k))
  (at level 61, m at next level, right associativity).

(** A loop whose body can raise. *)
Fixpoint foldM (A B : Type) (f : A -> B -> option A) (l : list B) (a : A)
  : option A :=
  match l with
  | [] => Some a
  | b :: l' => a' <- f a b ;; foldM f l' a'
  end.

(** ** The section parser: [parse_cv_content] *)

Module Parser.
Import Dict Re.

Definition is_star (c : char) : bool := N.eqb c STAR.
Definition not_star (c : char) : bool := negb (N.eqb c STAR).
Definition is_dash (c : char) : bool := N.eqb c DASH.
Definition not_dash (c : char) : bool := negb (N.eqb c DASH).
Definition AZ_or_space (c : char) : bool := is_AZ c || isspace c.

(** [^\s*\*{2}([^*]+)\*{2}\s*$] *)
Definition bold_pattern : regex :=
  [Bos; Many isspace 0; One is_star; One is_star;
   GOpen; Many not_star 1; GClose;
   One is_star; One is_star; Many isspace 0; Eos].

(** [^\s*[A-Z\s]{5,}\s*$] *)
Definition shout_pattern : regex :=
  [Bos; Many isspace 0; Many AZ_or_space 5; Many isspace 0; Eos].

(** [^\s*-{3,}\s*([^-]+)\s*-{3,}\s*$] *)
Definition rule_pattern : regex :=
  [Bos; Many isspace 0; Many is_dash 3; Many isspace 0;
   GOpen; Many not_dash 1; GClose;
   Many isspace 0; Many is_dash 3; Many isspace 0; Eos].

Definition section_patterns : list regex :=
  [bold_pattern; shout_pattern; rule_pattern].

Definition common_sections : list str :=
  [py "header"; py "profile"; py "experience"; py "education"; py "skills";
   py "languages"].

Section WithTables.
Context {T : CaseTables}.

(** The loop over the patterns: the pair is
    [(is_section_header, section_name)].  A pattern without a group makes
    [match.group(1)] raise, and the handler takes the whole line. *)
Fixpoint test_patterns (ps : list regex) (line : str) : bool * option str :=
  match ps with
  | [] => (false, None)
  | pattern :: ps' =>
      match re_match pattern line with
      | Some m =>
          match group1 m with
          | Some g => (true, Some (lower (strip g)))
          | None => (true, Some (lower (strip (strip_chars (py "* -") line))))
          end
      | None => test_patterns ps' line
      end
  end.

(** The patterns, then the [**...**] test, which overrides them. *)
Definition detect (line : str) : bool * option str :=
  let '(is_section_header, section_name) := test_patterns section_patterns line in
  if startswith (py "**") line && endswith (py "**") line
  then (true, Some (lower (strip (strip_chars (py "*") line))))
  else (is_section_header, section_name).

(** [if is_section_header and section_name]: the name of the section the
    line opens, if it opens one. *)
Definition heading (line : str) : option str :=
  match detect line with
  | (true, Some section_name) =>
      if nonempty section_name then Some section_name else None
  | _ => None
  end.

(** One turn of the loop over the lines; the state is
    [(current_section, sections)]. *)
Definition scan_line (st : str * dict (list str)) (raw : str)
  : option (str * dict (list str)) :=
  let '(current_section, sections) := st in
  let line := strip raw in
  if negb (nonempty line) then Some st
  else
    match heading line with
    | Some section_name =>
        Some (section_name,
              if mem section_name sections then sections
              else set section_name [] sections)
    | None =>
        body <- get current_section sections ;;
        Some (current_section, set current_section (body ++ [line]) sections)
    end.

Definition scan (content : str) : option (dict (list str)) :=
  st <- foldM scan_line (split_nl content) (py "header", [(py "header", [])]) ;;
  Some (snd st).

(** The lists of lines become strings. *)
Definition join_sections (sections : dict (list str)) : dict str :=
  map (fun e => (fst e, join_nl (snd e))) sections.

(** The loop that looks for the first section with a non-blank body and
    moves its first five lines to the header; [todo] holds the keys not
    yet visited. *)
Fixpoint take_header (todo : list str) (sections : dict str)
  : option (dict str) :=
  match todo with
  | [] => Some sections
  | section :: todo' =>
      body <- get section sections ;;
      if nonempty (strip body) then
        let first_lines := firstn 5 (split_nl body) in
        let sections1 := set (py "header") (join_nl first_lines) sections in
        body1 <- get section sections1 ;;
        Some (set section (join_nl (skipn 5 (split_nl body1))) sections1)
      else take_header todo' sections
  end.

Definition header_fallback (sections : dict str) : option (dict str) :=
  if mem (py "header") sections then
    h <- get (py "header") sections ;;
    if negb (nonempty (strip h)) then take_header (keys sections) sections
    else Some sections
  else Some sections.

(** The comprehension that drops the sections with a blank body. *)
Definition cleanup (sections : dict str) : dict str :=
  filter (fun e => nonempty (strip (snd e))) sections.

(** [section in existing_section.lower() or existing_section in section] *)
Definition variant (section existing_section : str) : bool :=
  contains section (lower existing_section) || contains existing_section section.

(** One turn of the loop over [common_sections]. *)
Definition ensure_section (sections : dict str) (section : str)
  : option (dict str) :=
  match find (variant section) (keys sections) with
  | Some existing_section =>
      if negb (str_eqb existing_section section) then
        popped <- pop existing_section sections ;;
        Some (set section (fst popped) (snd popped))
      else Some sections
  | None =>
      if negb (mem section sections) then Some (set section [] sections)
      else Some sections
  end.

Definition canonicalize (sections : dict str) : option (dict str) :=
  foldM ensure_section common_sections sections.

Definition parse_cv_content (content : str) : option (dict str) :=
  sections <- scan content ;;
  sections <- header_fallback (join_sections sections) ;;
  canonicalize (cleanup sections).

End WithTables.

End Parser.

(** The case tables restricted to ASCII: code points from 128 on are left
    as they are.  On ASCII text this is [str.lower] and [str.upper]. *)
#[export] Instance ascii_tables : CaseTables.
Proof.
  refine {| lower := map ascii_lower; upper := map ascii_upper |}.
  - intros s _. reflexivity.
  - intros [|c r] H; [reflexivity | discriminate H].
Defined.

(** ** The page renderer: [create_cv_pdf] *)

Module Render.
Import Dict Re Parser.

(** The calls the renderer makes on the FPDF object.  [GetXY] stands for
    [current_x = pdf.get_x(); current_y = pdf.get_y()], and [SetXY dx]
    for [pdf.set_xy(current_x + dx, current_y)].  Page breaks and the
    footer are driven by the library and are not calls of the renderer. *)
Inductive call :=
| AddPage
| SetMargins (left top right : Z)
| SetAutoPageBreak (auto : bool) (margin : Z)
| SetFont (family style : str) (size : Z)
| SetTextColor (r g b : Z)
| SetFillColor (r g b : Z)
| Cell (w h : Z) (txt : str) (ln : bool) (align : str) (fill : bool)
| MultiCell (w h : Z) (txt : str) (align : str)
| Ln (h : Z)
| GetXY
| SetXY (dx : Z)
| Output.

Definition pdf := list call.

Local Open Scope Z_scope.

Definition default_font_size : Z := 9.
Definition header_color : list call := [SetTextColor 50 50 50].
Definition section_color : list call := [SetFillColor 0 102 204].
Definition text_color : list call := [SetTextColor 0 0 0].
Definition subheader_color : list call := [SetTextColor 80 80 80].

Local Close Scope Z_scope.

Definition max_line_length : nat := 120.

(** [\n\s*\n] *)
Definition blank_run : regex :=
  [One (N.eqb NL); Many isspace 0; One (N.eqb NL)].

(** [line.startswith("-") or line.startswith("•")] *)
Definition is_bullet (line : str) : bool :=
  startswith (py "-") line || startswith [BULLET] line.

(** [s.encode('latin-1')]; [None] is [UnicodeEncodeError]. *)
Definition latin1_encode (s : str) : option (list N) :=
  if forallb (fun c => N.ltb c 256) s then Some s else None.

Section WithTables.
Context {T : CaseTables}.

(** One turn of the loop over the lines left in a block. *)
Definition render_line (doc : pdf) (raw : str) : option pdf :=
  let line := strip raw in
  if negb (nonempty line) then Some doc
  else
    let line :=
      if max_line_length <? length line
      then firstn max_line_length line ++ py "..."
      else line in
    if is_bullet line then
      bullet <- nth_error line 0 ;;
      let bullet_text := strip (skipn 1 line) in
      Some (doc ++ [GetXY; SetXY 0; Cell 3 4 [bullet] false [] false;
                    SetXY 5; MultiCell 0 4 bullet_text (py "J")])
    else Some (doc ++ [MultiCell 0 4 line (py "J")]).

(** One turn of the loop over the blocks of a section. *)
Definition render_item (doc : pdf) (item : str) : option pdf :=
  if negb (nonempty (strip item)) then Some doc
  else
    let lines := split_nl item in
    st <- match lines with
          | [] => Some (doc, lines)
          | _ :: _ =>
              first <- nth_error lines 0 ;;
              let first_line := strip first in
              if negb (startswith (py "-") first_line)
                 && negb (startswith [BULLET] first_line)
              then Some (doc ++ [SetFont (py "Arial") (py "B") 10]
                             ++ subheader_color
                             ++ [MultiCell 0 5 first_line (py "J")]
                             ++ text_color
                             ++ [SetFont (py "Arial") [] default_font_size],
                         skipn 1 lines)
              else Some (doc, lines)
          end ;;
    doc <- foldM render_line (snd st) (fst st) ;;
    Some (doc ++ [Ln 2]).

(** One turn of the loop over the sections. *)
Definition render_section (doc : pdf) (entry : str * str) : option pdf :=
  let section_name := fst entry in
  let section_content := snd entry in
  if str_eqb section_name (py "header") || negb (nonempty (strip section_content))
  then Some doc
  else
    let section_display_name := upper section_name in
    let doc := doc ++ section_color
                   ++ [SetTextColor 255 255 255; SetFont (py "Arial") (py "B") 11;
                       Cell 0 7 (py " " ++ section_display_name) true [] true]
                   ++ text_color ++ [Ln 1] in
    let items := re_split blank_run section_content in
    doc <- foldM render_item items doc ;;
    Some (doc ++ [Ln 3]).

(** The name and the contact lines taken from the header section. *)
Definition header_block (sections : dict str) : option (str * list str) :=
  if mem (py "header") sections then
    h <- get (py "header") sections ;;
    if nonempty h then
      match split_nl h with
      | [] => Some ([], [])
      | header_lines =>
          first <- nth_error header_lines 0 ;;
          Some (strip (strip_chars (py "*") first),
                map strip (filter (fun line => nonempty (strip line))
                                  (skipn 1 header_lines)))
      end
    else Some ([], [])
  else Some ([], []).

(** The calls made on the FPDF object, in order.  The buffer returned to
    the caller is FPDF's serialisation of them, encoded as Latin-1. *)
Definition create_cv_pdf (content : str) : option pdf :=
  sections <- parse_cv_content content ;;
  let doc := [AddPage; SetMargins 10 10 10; SetAutoPageBreak true 15] in
  nc <- header_block sections ;;
  let name := fst nc in
  let contact_info := snd nc in
  let doc := doc ++ [SetFont (py "Arial") (py "B") 16] ++ header_color
                 ++ [Cell 0 10 name true (py "C") false] in
  let doc := doc ++ [SetFont (py "Arial") [] default_font_size] ++ text_color in
  let contact_text := join (py " | ") (filter nonempty contact_info) in
  let doc := doc ++ [MultiCell 0 5 contact_text (py "C"); Ln 5] in
  doc <- foldM render_section sections doc ;;
  Some (doc ++ [Output]).

End WithTables.

(** *** The render items of the specification

    A unit of body content: the title line of a block, a bullet line or
    a plain line. *)
Inductive RenderItem :=
| TitleLine (text : str)
| BulletLine (glyph : char) (text : str)
| PlainLine (text : str).

Definition is_title (i : RenderItem) : bool :=
  match i with TitleLine _ => true | _ => false end.

(** How each kind of item is drawn. *)
Definition draw (i : RenderItem) : list call :=
  match i with
  | TitleLine t =>
      [SetFont (py "Arial") (py "B") 10; SetTextColor 80 80 80;
       MultiCell 0 5 t (py "J"); SetTextColor 0 0 0; SetFont (py "Arial") [] 9]
  | BulletLine g t =>
      [GetXY; SetXY 0; Cell 3 4 [g] false [] false; SetXY 5;
       MultiCell 0 4 t (py "J")]
  | PlainLine t => [MultiCell 0 4 t (py "J")]
  end.

(** A line longer than 120 characters is cut to 120 and marked. *)
Definition truncated (line : str) : str :=
  if 120 <? length line then firstn 120 line ++ py "..." else line.

(** The body items of a list of lines: blank lines give nothing, a line
    with a bullet marker gives a bullet line, any other a plain line. *)
Definition body_item (raw : str) : list RenderItem :=
  match truncated (strip raw) with
  | [] => []
  | c :: rest =>
      if is_bullet (c :: rest) then [BulletLine c (strip rest)]
      else [PlainLine (c :: rest)]
  end.

Definition body_items (lines : list str) : list RenderItem :=
  flat_map body_item lines.

(** The items of a block: the first line is the title unless it starts
    with a bullet marker. *)
Definition block_items (block : str) : list RenderItem :=
  match split_nl block with
  | [] => []
  | first :: rest =>
      if is_bullet (strip first) then body_items (first :: rest)
      else TitleLine (strip first) :: body_items rest
  end.

End Render.

(** * Notions used to state the properties *)

(** [subseq l1 l2]: [l1] is [l2] with some elements left out, the others
    in the same order. *)
Inductive subseq (A : Type) : list A -> list A -> Prop :=
| subseq_nil : subseq [] []
| subseq_skip x l1 l2 : subseq l1 l2 -> subseq l1 (x :: l2)
| subseq_keep x l1 l2 : subseq l1 l2 -> subseq (x :: l1) (x :: l2).

Module Spec.
Import Dict Re Parser Render.

(** Removal of the first occurrence of a key from a list of keys. *)
Fixpoint remove_key (k : str) (l : list str) : list str :=
  match l with
  | [] => []
  | k' :: l' => if str_eqb k' k then l' else k' :: remove_key k l'
  end.

(** Names are recorded in the order they are first seen. *)
Definition see (seen : list str) (name : str) : list str :=
  if existsb (str_eqb name) seen then seen else seen ++ [name].

(** [k] is a key of [d] whose body is not blank: the sections the
    clean-up keeps. *)
Definition nonblank_in (d : dict str) (k : str) : bool :=
  match get k d with
  | Some body => nonempty (strip body)
  | None => false
  end.

(** The invariant of the loop over the common sections, on the keys:
    [l] holds the found keys [found] that are still keys, in their
    order, then the common names already visited that were not found;
    and no found common name has been removed. *)
Definition ordered (found done l : list str) : Prop :=
  l = filter (fun k => existsb (str_eqb k) l) found
      ++ filter (fun c => negb (existsb (str_eqb c) found)) done /\
  (forall c, In c common_sections -> In c found -> In c l).

(** The keys of the sections that are not empty. *)
Definition nonempty_keys (d : dict str) : list str :=
  keys (filter (fun e => nonempty (snd e)) d).

(** The mapping with one section under [header] and the other common
    sections empty. *)
Definition header_only (v : str) : dict str :=
  (py "header", v) :: map (fun c => (c, [])) (tl common_sections).

(** Every newline is followed by a character that is not white space. *)
Fixpoint tight (s : str) : bool :=
  match s with
  | [] => true
  | c :: s' =>
      (negb (N.eqb c NL)
       || match s' with
          | [] => true
          | c' :: _ => negb (isspace c')
          end)
      && tight s'
  end.

(** The text of a call that draws a body line (line height 4). *)
Definition body_text (c : call) : option str :=
  match c with
  | MultiCell _ h t _ => if Z.eqb h 4 then Some t else None
  | _ => None
  end.

(** A call that draws a sub-heading (line height 5). *)
Definition is_subheading (c : call) : bool :=
  match c with
  | MultiCell _ h _ _ => Z.eqb h 5
  | _ => false
  end.

Definition count_subheadings (calls : list call) : nat :=
  length (filter is_subheading calls).

(** No body line is drawn with more than 120 characters and the mark. *)
Definition bounded (c : call) : Prop :=
  forall t, body_text c = Some t -> length t <= 123.

(** The texts drawn by the calls, in order. *)
Definition drawn_texts (doc : pdf) : list str :=
  flat_map (fun c => match c with
                     | Cell _ _ t _ _ _ => [t]
                     | MultiCell _ _ t _ => [t]
                     | _ => []
                     end) doc.

(** *** Texts used as instances *)

(** A text whose second section has a heading that is a variant of a
    common section name. *)
Definition cv_renamed : str :=
  join_nl [py "Jane"; py "**Work Experience**"; py "Acme";
           py "**Education**"; py "MIT"].

(** A text whose first line is a heading: the header is empty after the
    scan. *)
Definition cv_no_header : str :=
  join_nl [py "EXPERIENCE"; py "a"; py "b"; py "c"; py "d"; py "e"; py "f"].

(** A text with a header and one section. *)
Definition cv_two_sections : str :=
  join_nl [py "Jane"; py "EXPERIENCE"; py "Acme"].

Section WithTables.
Context {T : CaseTables}.

(** What every line stored in a section body satisfies: it is not empty,
    it is trimmed, it holds no newline and it is not a heading. *)
Definition line_ok (l : str) : Prop :=
  l <> [] /\ strip l = l /\ ~ In NL l /\ heading l = None.

Definition lines_ok (d : dict (list str)) : Prop :=
  Forall (fun e => Forall line_ok (snd e)) d.

(** The invariant of the loop over the lines. *)
Definition scan_inv (st : str * dict (list str)) : Prop :=
  In (fst st) (keys (snd st)) /\ NoDup (keys (snd st)) /\
  lines_ok (snd st) /\ In (py "header") (keys (snd st)).

(** One turn of the loop over the common sections, on the keys: the
    first key that is a variant of the section, when it is another key,
    is removed (renamed); then the section is added at the end unless it
    is a key. *)
Definition key_turn (l : list str) (s : str) : list str :=
  let l' := match find (variant s) l with
            | Some e => if str_eqb e s then l else remove_key e l
            | None => l
            end in
  l' ++ if existsb (str_eqb s) l' then [] else [s].

(** The section names opened by the lines of a text, in order. *)
Definition headings_of (lines : list str) : list str :=
  flat_map (fun raw => match heading (strip raw) with
                       | Some name => [name]
                       | None => []
                       end) lines.

(** The order in which the sections of a text are first encountered:
    [header], which is open from the start, then each heading. *)
Definition first_seen (content : str) : list str :=
  fold_left see (headings_of (split_nl content)) [py "header"].

(** A section body is the join of stored lines. *)
Definition body_ok (v : str) : Prop :=
  exists ls, v = join_nl ls /\ Forall line_ok ls.

Definition bodies_ok (d : dict str) : Prop :=
  Forall (fun e => body_ok (snd e)) d.

End WithTables.

End Spec.
Export Spec.

(** * The helpers of the interface script *)

Module Helpers.
Import Dict.

Definition QUOTE : char := 34%N.
Definition BACKSLASH : char := 92%N.

(** [mapping.get(key, default)] *)
Definition get_default (V : Type) (k : str) (default : V) (d : dict V) : V :=
  match get k d with
  | Some v => v
  | None => default
  end.

(** The dictionary literal of [get_language_code]. *)
Definition language_codes : dict str :=
  [(py "en", py "en-US"); (py "fr", py "fr-FR"); (py "es", py "es-ES");
   (py "ar", py "ar-SA"); (py "de", py "de-DE"); (py "pt", py "pt-PT");
   (py "it", py "it-IT"); (py "ru", py "ru-RU")].

Definition get_language_code (lang : str) : str :=
  get_default lang (py "en-US") language_codes.

(** The dictionary literal of [get_language_name]. *)
Definition language_names : dict str :=
  [(py "en", py "English"); (py "fr", py "French"); (py "es", py "Spanish");
   (py "ar", py "Arabic"); (py "de", py "German"); (py "pt", py "Portuguese");
   (py "it", py "Italian"); (py "ru", py "Russian")].

Definition get_language_name (lang_code : str) : str :=
  get_default lang_code (py "Unknown") language_names.

(** The language code stored for the choice made with the radio buttons. *)
Definition target_language (choice : str) : str :=
  if str_eqb choice (py "English") then py "en" else py "fr".

(** ["English" if target_language == "en" else "French"] *)
Definition target_language_name (target : str) : str :=
  if str_eqb target (py "en") then py "English" else py "French".

(** [s.replace(old, new)] for an [old] of one character. *)
Definition replace_char (old : char) (new : str) (s : str) : str :=
  flat_map (fun c => if N.eqb c old then new else [c]) s.

(** The text put between double quotes in the speech script:
    [translated_cv.replace("\n", " ").replace('"', '\\"')]. *)
Definition clean_text (translated_cv : str) : str :=
  replace_char QUOTE [BACKSLASH; QUOTE] (replace_char NL [SPACE] translated_cv).

End Helpers.

(** * Notions used to state the layout *)

Module Layout.
Import Dict Re Parser Render.

(** The calls made before the sections: page set-up, the name, the
    contact line and a gap. *)
Definition preamble (name contact_text : str) : list call :=
  [AddPage; SetMargins 10 10 10; SetAutoPageBreak true 15;
   SetFont (py "Arial") (py "B") 16; SetTextColor 50 50 50;
   Cell 0 10 name true (py "C") false;
   SetFont (py "Arial") [] 9; SetTextColor 0 0 0;
   MultiCell 0 5 contact_text (py "C"); Ln 5].

(** The texts of the section banners (cells of height 7), in order. *)
Definition banner_texts (doc : pdf) : list str :=
  flat_map (fun c => match c with
                     | Cell _ h t _ _ _ => if Z.eqb h 7 then [t] else []
                     | _ => []
                     end) doc.

(** The lines of a text that are not blank, trimmed. *)
Definition nonblank_lines (lines : list str) : list str :=
  map strip (filter (fun raw => nonempty (strip raw)) lines).

(** The mapping whose six common sections are all empty. *)
Definition empty_sections : dict str :=
  map (fun c => (c, [])) common_sections.

(** A heading line, the section name it gives, and the lines that follow
    it up to the next heading. *)
Record group := {
  g_heading : str;
  g_name : str;
  g_body : list str
}.

Definition group_lines (g : group) : list str := g_heading g :: g_body g.

(** What the scan makes of a group: the name with the lines that are not
    blank, trimmed. *)
Definition group_entry (g : group) : str * list str :=
  (g_name g, nonblank_lines (g_body g)).

(** What a block of a section body adds to the document: nothing if it
    is blank, otherwise its items and a gap. *)
Definition block_calls (block : str) : list call :=
  if nonempty (strip block)
  then flat_map draw (block_items block) ++ [Ln 2]
  else [].

(** A string with no character of the class at its start. *)
Definition stops (p : char -> bool) (s : str) : Prop :=
  match s with
  | [] => True
  | c :: _ => p c = false
  end.

(** Every double quote comes right after a backslash. *)
Definition quotes_escaped (t : str) : Prop :=
  forall pre post, t = pre ++ Helpers.QUOTE :: post ->
                   exists pre', pre = pre' ++ [Helpers.BACKSLASH].

(** A body that is empty or whose lines all satisfy [Q]. *)
Definition made_of (Q : str -> Prop) (v : str) : Prop :=
  v = [] \/ Forall Q (split_nl v).

Definition all_made_of (Q : str -> Prop) (d : dict str) : Prop :=
  Forall (fun e => made_of Q (snd e)) d.

(** An entry of the result: its body is not blank, or it is empty and
    its key is a common section. *)
Definition filled_or_common (e : str * str) : Prop :=
  strip (snd e) <> [] \/ (snd e = [] /\ In (fst e) common_sections).

Section WithTables.
Context {T : CaseTables}.

(** The banner of a section. *)
Definition banner (section_name : str) : list call :=
  [SetFillColor 0 102 204; SetTextColor 255 255 255;
   SetFont (py "Arial") (py "B") 11;
   Cell 0 7 (py " " ++ upper section_name) true [] true;
   SetTextColor 0 0 0; Ln 1].

(** A section is drawn if it is not the header and its body is not
    blank. *)
Definition drawn_section (entry : str * str) : bool :=
  negb (str_eqb (fst entry) (py "header")) && nonempty (strip (snd entry)).

(** What a section whose body is one block adds to the document: the
    banner, the items of the block, the gap after the block and the gap
    after the section. *)
Definition section_layout (entry : str * str) : list call :=
  if drawn_section entry
  then banner (fst entry) ++ flat_map draw (block_items (snd entry))
              ++ [Ln 2; Ln 3]
  else [].

(** What a section adds to the document, whatever its body: nothing if
    it is the header or blank, otherwise the banner, what each block of
    the body adds, in order, and the gap after the section. *)
Definition section_calls (entry : str * str) : list call :=
  if drawn_section entry
  then banner (fst entry)
       ++ flat_map block_calls (re_split blank_run (snd entry))
       ++ [Ln 3]
  else [].

(** A line that the scan stores: not blank and not a heading. *)
Definition is_stored (raw : str) : bool :=
  nonempty (strip raw)
  && match heading (strip raw) with
     | None => true
     | Some _ => false
     end.

(** The heading line of a group gives its name and no line of its body
    is a heading. *)
Definition group_ok (g : group) : Prop :=
  heading (strip (g_heading g)) = Some (g_name g) /\
  Forall (fun raw => heading (strip raw) = None) (g_body g).

(** [l] is a stored line of the text: a line of the text, trimmed, that
    is not empty and not a heading. *)
Definition stored_line_of (content l : str) : Prop :=
  exists raw, In raw (split_nl content) /\ l = strip raw /\
              l <> [] /\ heading l = None.

End WithTables.

End Layout.
Export Layout.

(** * Properties *)

(** ** Strings *)

Module StrFacts.

Lemma str_eqb_eq (a b : str) : str_eqb a b = true <-> a = b.
Proof.
  revert b; induction a as [|x a IH]; intros [|y b]; simpl; split;
    try discriminate; try reflexivity.
  - intros H. apply andb_true_iff in H as [Hx Hr].
    apply N.eqb_eq in Hx. apply IH in Hr. congruence.
  - intros H. injection H as -> ->. rewrite N.eqb_refl. simpl.
    apply IH. reflexivity.
Qed.

Lemma str_eqb_refl (a : str) : str_eqb a a = true.
Proof. apply str_eqb_eq. reflexivity. Qed.

Lemma str_eqb_neq (a b : str) : str_eqb a b = false <-> a <> b.
Proof.
  split.
  - intros H E. apply str_eqb_eq in E. congruence.
  - intros H. destruct (str_eqb a b) eqn:E; [|reflexivity].
    apply str_eqb_eq in E. contradiction.
Qed.

Lemma str_eqb_sym (a b : str) : str_eqb a b = str_eqb b a.
Proof.
  destruct (str_eqb a b) eqn:E.
  - apply str_eqb_eq in E. subst. symmetry. apply str_eqb_refl.
  - apply str_eqb_neq in E. symmetry. apply str_eqb_neq. congruence.
Qed.

Section Strip.
Variable p : char -> bool.

Lemma dropwhile_head (s : str) (c : char) (r : str) :
  dropwhile p s = c :: r -> p c = false.
Proof.
  induction s as [|x s IH]; simpl; [discriminate|].
  destruct (p x) eqn:E; [exact IH|].
  intros H. injection H as -> _. exact E.
Qed.

Lemma dropwhile_incl (s : str) (x : char) :
  In x (dropwhile p s) -> In x s.
Proof.
  induction s as [|y s IH]; simpl; [tauto|].
  destruct (p y); simpl; tauto.
Qed.

Lemma dropwhile_stop (a b : str) (c : char) :
  p c = false -> dropwhile p (a ++ c :: b) = dropwhile p a ++ c :: b.
Proof.
  intros Hc. induction a as [|x a IH]; simpl.
  - rewrite Hc. reflexivity.
  - destruct (p x); [exact IH | reflexivity].
Qed.

Lemma rev_last (s : str) (d : char) :
  s <> [] -> rev s = last s d :: rev (removelast s).
Proof.
  intros H. rewrite (app_removelast_last d H) at 1.
  rewrite rev_app_distr. reflexivity.
Qed.

(** A string that neither starts nor ends in the class is left alone. *)
Lemma strip_by_fixed (c : char) (r : str) :
  p c = false -> p (last (c :: r) c) = false ->
  strip_by p (c :: r) = c :: r.
Proof.
  intros Hc Hl. unfold strip_by.
  assert (E1 : dropwhile p (c :: r) = c :: r) by (simpl; rewrite Hc; reflexivity).
  rewrite E1.
  assert (E2 : rev (c :: r) = last (c :: r) c :: rev (removelast (c :: r)))
    by (apply rev_last; discriminate).
  remember (last (c :: r) c) as z. remember (rev (removelast (c :: r))) as u.
  rewrite E2. simpl. rewrite Hl. rewrite <- E2. apply rev_involutive.
Qed.

(** The result of a strip is empty, or starts and ends outside the class. *)
Lemma strip_by_cases (s : str) :
  strip_by p s = [] \/
  exists c r, strip_by p s = c :: r /\ p c = false /\ p (last (c :: r) c) = false.
Proof.
  unfold strip_by. destruct (dropwhile p s) as [|c r] eqn:E1.
  - left. reflexivity.
  - right. pose proof (dropwhile_head _ E1) as Hc.
    change (rev (c :: r)) with (rev r ++ [c]).
    rewrite dropwhile_stop by exact Hc.
    rewrite rev_app_distr. simpl rev at 1. simpl app.
    exists c, (rev (dropwhile p (rev r))). split; [reflexivity|]. split; [exact Hc|].
    destruct (dropwhile p (rev r)) as [|c' r'] eqn:E2.
    + simpl. exact Hc.
    + pose proof (dropwhile_head _ E2) as Hc'.
      change (c :: rev (c' :: r')) with ((c :: rev r') ++ [c']).
      rewrite last_last. exact Hc'.
Qed.

Lemma strip_by_idem (s : str) : strip_by p (strip_by p s) = strip_by p s.
Proof.
  destruct (strip_by_cases s) as [E | (c & r & E & Hc & Hl)]; rewrite E.
  - reflexivity.
  - apply strip_by_fixed; assumption.
Qed.

Lemma strip_by_incl (s : str) (x : char) : In x (strip_by p s) -> In x s.
Proof.
  unfold strip_by. intros H. apply in_rev in H.
  apply dropwhile_incl in H. apply in_rev in H.
  apply dropwhile_incl in H. exact H.
Qed.

Lemma strip_by_head (c : char) (r : str) :
  p c = false -> strip_by p (c :: r) <> [].
Proof.
  intros Hc. unfold strip_by. simpl dropwhile at 2. rewrite Hc.
  change (rev (c :: r)) with (rev r ++ [c]).
  rewrite dropwhile_stop by exact Hc.
  rewrite rev_app_distr. discriminate.
Qed.

End Strip.

Lemma strip_idem (s : str) : strip (strip s) = strip s.
Proof. apply strip_by_idem. Qed.

Lemma nonempty_true (s : str) : nonempty s = true <-> s <> [].
Proof. destruct s; simpl; split; congruence. Qed.

Lemma nonempty_false (s : str) : nonempty s = false <-> s = [].
Proof. destruct s; simpl; split; congruence. Qed.

(** *** [split] and [join] on newlines *)

Lemma split_nl_nonnil (s : str) : split_nl s <> [].
Proof.
  induction s as [|c s IH]; simpl; [discriminate|].
  destruct (N.eqb c NL); [discriminate|].
  destruct (split_nl s); [contradiction | discriminate].
Qed.

Lemma split_nl_no_nl (s : str) : Forall (fun l => ~ In NL l) (split_nl s).
Proof.
  induction s as [|c s IH]; simpl.
  - constructor; [tauto | constructor].
  - destruct (N.eqb c NL) eqn:E.
    + constructor; [simpl; tauto | exact IH].
    + destruct (split_nl s) as [|l ls]; [constructor; [|constructor]|].
      * simpl. intros [H|[]]. apply N.eqb_neq in E. congruence.
      * inversion IH as [|? ? Hl Hls]; subst. constructor; [|exact Hls].
        simpl. intros [H|H]; [|tauto]. apply N.eqb_neq in E. congruence.
Qed.

Lemma join_split_nl (s : str) : join_nl (split_nl s) = s.
Proof.
  unfold join_nl. induction s as [|c s IH]; simpl; [reflexivity|].
  destruct (N.eqb c NL) eqn:E.
  - apply N.eqb_eq in E. subst c.
    pose proof (@split_nl_nonnil s) as Hn.
    destruct (split_nl s) as [|l ls]; [contradiction|].
    simpl in *. rewrite IH. reflexivity.
  - pose proof (@split_nl_nonnil s) as Hn.
    destruct (split_nl s) as [|l ls]; [contradiction|].
    destruct ls; simpl in *; rewrite <- IH; reflexivity.
Qed.

Lemma split_nl_line (l : str) (rest : str) :
  ~ In NL l ->
  split_nl (l ++ NL :: rest) = l :: split_nl rest.
Proof.
  intros H. induction l as [|c l IH]; simpl.
  - reflexivity.
  - destruct (N.eqb c NL) eqn:E.
    + apply N.eqb_eq in E. exfalso. apply H. left. exact E.
    + rewrite IH; [reflexivity|]. intros Hin. apply H. right. exact Hin.
Qed.

Lemma split_nl_single (l : str) : ~ In NL l -> split_nl l = [l].
Proof.
  intros H. induction l as [|c l IH]; simpl; [reflexivity|].
  destruct (N.eqb c NL) eqn:E.
  - apply N.eqb_eq in E. exfalso. apply H. left. exact E.
  - rewrite IH; [reflexivity|]. intros Hin. apply H. right. exact Hin.
Qed.

Lemma split_join_nl (ls : list str) :
  ls <> [] -> Forall (fun l => ~ In NL l) ls ->
  split_nl (join_nl ls) = ls.
Proof.
  unfold join_nl. induction ls as [|l ls IH]; [congruence|].
  intros _ H. inversion H as [|? ? Hl Hls]; subst.
  destruct ls as [|l' ls'].
  - simpl. apply split_nl_single. exact Hl.
  - change (join [NL] (l :: l' :: ls')) with (l ++ NL :: join [NL] (l' :: ls')).
    rewrite split_nl_line by exact Hl.
    rewrite IH; [reflexivity | discriminate | exact Hls].
Qed.

End StrFacts.

(** ** Dictionaries *)

Module DictFacts.
Import Dict StrFacts.

Section Facts.
Variable V : Type.
Implicit Types (d : dict V) (k : str) (v : V).

Lemma mem_in_keys k d : mem k d = true <-> In k (keys d).
Proof.
  unfold mem, keys. rewrite existsb_exists. split.
  - intros (e & He & Hk). apply str_eqb_eq in Hk. subst k.
    apply in_map. exact He.
  - intros H. apply in_map_iff in H as (e & Hk & He).
    exists e. split; [exact He|]. subst k. apply str_eqb_refl.
Qed.

Lemma mem_false_keys k d : mem k d = false <-> ~ In k (keys d).
Proof.
  rewrite <- mem_in_keys. destruct (mem k d); split; congruence.
Qed.

Lemma get_some_keys k d v : get k d = Some v -> In k (keys d).
Proof.
  induction d as [|[k' v'] d IH]; simpl; [discriminate|].
  destruct (str_eqb k' k) eqn:E.
  - apply str_eqb_eq in E. left. exact E.
  - intros H. right. apply IH. exact H.
Qed.

Lemma get_some_in k d v : get k d = Some v -> In (k, v) d.
Proof.
  induction d as [|[k' v'] d IH]; simpl; [discriminate|].
  destruct (str_eqb k' k) eqn:E.
  - apply str_eqb_eq in E. intros H. injection H as ->. left. congruence.
  - intros H. right. apply IH. exact H.
Qed.

Lemma keys_get k d : In k (keys d) -> exists v, get k d = Some v.
Proof.
  induction d as [|[k' v'] d IH]; simpl; [tauto|].
  destruct (str_eqb k' k) eqn:E.
  - intros _. exists v'. reflexivity.
  - intros [H|H]; [|exact (IH H)]. apply str_eqb_neq in E. contradiction.
Qed.

Lemma in_get_nodup k v d :
  NoDup (keys d) -> In (k, v) d -> get k d = Some v.
Proof.
  induction d as [|[k' v'] d IH]; simpl; [tauto|].
  intros Hnd [H|H].
  - injection H as -> ->. rewrite str_eqb_refl. reflexivity.
  - inversion Hnd as [|? ? Hnotin Hnd']; subst.
    destruct (str_eqb k' k) eqn:E.
    + apply str_eqb_eq in E. subst k'. exfalso. apply Hnotin.
      change k with (fst (k, v)). apply in_map. exact H.
    + apply IH; assumption.
Qed.

Lemma keys_set k v d :
  keys (set k v d) = if mem k d then keys d else keys d ++ [k].
Proof.
  induction d as [|[k' v'] d IH]; simpl; [reflexivity|].
  destruct (str_eqb k' k) eqn:E; simpl; [reflexivity|].
  fold (mem k d). rewrite IH. destruct (mem k d); reflexivity.
Qed.

Lemma keys_set_mem k v d : In k (keys d) -> keys (set k v d) = keys d.
Proof.
  intros H. rewrite keys_set. apply mem_in_keys in H. rewrite H. reflexivity.
Qed.

Lemma keys_set_new k v d : ~ In k (keys d) -> keys (set k v d) = keys d ++ [k].
Proof.
  intros H. rewrite keys_set. apply mem_false_keys in H. rewrite H. reflexivity.
Qed.

Lemma set_new k v d : ~ In k (keys d) -> set k v d = d ++ [(k, v)].
Proof.
  induction d as [|[k' v'] d IH]; simpl; [reflexivity|].
  intros H. destruct (str_eqb k' k) eqn:E.
  - apply str_eqb_eq in E. tauto.
  - rewrite IH by tauto. reflexivity.
Qed.

Lemma get_set_same k v d : get k (set k v d) = Some v.
Proof.
  induction d as [|[k' v'] d IH]; simpl.
  - rewrite str_eqb_refl. reflexivity.
  - destruct (str_eqb k' k) eqn:E; simpl; rewrite E; [reflexivity | exact IH].
Qed.

Lemma get_set_other k k' v d : k <> k' -> get k' (set k v d) = get k' d.
Proof.
  intros Hne. induction d as [|[k0 v0] d IH]; simpl.
  - apply str_eqb_neq in Hne. rewrite Hne. reflexivity.
  - destruct (str_eqb k0 k) eqn:E; simpl.
    + apply str_eqb_eq in E. subst k0.
      apply str_eqb_neq in Hne. rewrite Hne. reflexivity.
    + rewrite IH. reflexivity.
Qed.

Lemma in_set k v d e : In e (set k v d) -> e = (k, v) \/ In e d.
Proof.
  induction d as [|[k' v'] d IH]; simpl.
  - intros [H|[]]. left. congruence.
  - destruct (str_eqb k' k) eqn:E; simpl.
    + apply str_eqb_eq in E. subst k'. intros [H|H]; [left; congruence | tauto].
    + intros [H|H]; [tauto|]. apply IH in H. tauto.
Qed.

Lemma Forall_set (Q : str * V -> Prop) k v d :
  Forall Q d -> Q (k, v) -> Forall Q (set k v d).
Proof.
  intros Hd Hq. apply Forall_forall. intros e He.
  apply in_set in He as [->|He]; [exact Hq|].
  rewrite Forall_forall in Hd. apply Hd. exact He.
Qed.

Lemma in_remove k d e : In e (remove k d) -> In e d.
Proof.
  induction d as [|[k' v'] d IH]; simpl; [tauto|].
  destruct (str_eqb k' k); simpl; tauto.
Qed.

Lemma Forall_remove (Q : str * V -> Prop) k d :
  Forall Q d -> Forall Q (remove k d).
Proof.
  intros Hd. apply Forall_forall. intros e He.
  rewrite Forall_forall in Hd. apply Hd. eapply in_remove. exact He.
Qed.

Lemma keys_remove_other k k' d :
  k <> k' -> In k' (keys d) -> In k' (keys (remove k d)).
Proof.
  intros Hne. induction d as [|[k0 v0] d IH]; simpl; [tauto|].
  destruct (str_eqb k0 k) eqn:E.
  - apply str_eqb_eq in E. subst k0. intros [H|H]; [contradiction | exact H].
  - simpl. intros [H|H]; [left; exact H | right; exact (IH H)].
Qed.

Lemma pop_some k d : In k (keys d) -> exists v, pop k d = Some (v, remove k d).
Proof.
  intros H. apply keys_get in H as (v & Hv). exists v.
  unfold pop. rewrite Hv. reflexivity.
Qed.

Lemma pop_inv k d v d' :
  pop k d = Some (v, d') -> get k d = Some v /\ d' = remove k d.
Proof.
  unfold pop. destruct (get k d); [|discriminate].
  intros H. injection H as -> <-. split; reflexivity.
Qed.

End Facts.

End DictFacts.

(** ** The matcher *)

Module ReFacts.
Import Re.

Section Greedy.
Variable A : Type.
Variable f : nat -> option A.

Lemma greedy_some (lo hi : nat) (r : A) :
  greedy f lo hi = Some r -> exists k, lo <= k <= hi /\ f k = Some r.
Proof.
  induction hi as [|hi IH]; simpl.
  - destruct (lo <=? 0) eqn:E.
    + apply Nat.leb_le in E. destruct (f 0) eqn:F; [|discriminate].
      intros H. injection H as ->. exists 0. split; [lia | exact F].
    + discriminate.
  - destruct (lo <=? S hi) eqn:E.
    + apply Nat.leb_le in E. destruct (f (S hi)) eqn:F.
      * intros H. injection H as ->. exists (S hi). split; [lia | exact F].
      * intros H. apply IH in H as (k & Hk & Fk). exists k. split; [lia | exact Fk].
    + intros H. apply IH in H as (k & Hk & Fk). exists k. split; [lia | exact Fk].
Qed.

Lemma greedy_found (lo hi k : nat) (r : A) :
  lo <= k <= hi -> f k = Some r -> exists r', greedy f lo hi = Some r'.
Proof.
  induction hi as [|hi IH]; intros Hk Fk; simpl.
  - assert (k = 0) by lia. subst k.
    replace (lo <=? 0) with true by (symmetry; apply Nat.leb_le; lia).
    rewrite Fk. eauto.
  - destruct (lo <=? S hi) eqn:E; [destruct (f (S hi)) eqn:F; [eauto|]|].
    + destruct (Nat.eq_dec k (S hi)) as [->|Hne]; [congruence|].
      apply IH; [lia | exact Fk].
    + apply Nat.leb_gt in E. lia.
Qed.

End Greedy.

Lemma takewhile_all (p : char -> bool) (s : str) :
  forallb p s = true -> takewhile p s = s.
Proof.
  induction s as [|c s IH]; simpl; [reflexivity|].
  intros H. apply andb_true_iff in H as [Hc Hs]. rewrite Hc, IH by exact Hs.
  reflexivity.
Qed.

Lemma takewhile_firstn (p : char -> bool) (s : str) (k : nat) :
  k <= length (takewhile p s) -> forallb p (firstn k s) = true.
Proof.
  revert k. induction s as [|c s IH]; intros k; simpl.
  - destruct k; reflexivity.
  - destruct k as [|k]; [reflexivity|]. destruct (p c) eqn:E; simpl.
    + intros H. rewrite E. simpl. apply IH. lia.
    + lia.
Qed.

Lemma forallb_weaken (p q : char -> bool) (s : str) :
  (forall c, p c = true -> q c = true) ->
  forallb p s = true -> forallb q s = true.
Proof.
  intros Hpq. induction s as [|c s IH]; simpl; [reflexivity|].
  intros H. apply andb_true_iff in H as [Hc Hs].
  rewrite (Hpq _ Hc), IH by exact Hs. reflexivity.
Qed.

End ReFacts.

(** ** Loops that can raise *)

Lemma foldM_inv (A B : Type) (f : A -> B -> option A)
      (I : A -> Prop) (Q : B -> Prop) :
  (forall a b, I a -> Q b -> exists a', f a b = Some a' /\ I a') ->
  forall l a, Forall Q l -> I a -> exists a', foldM f l a = Some a' /\ I a'.
Proof.
  intros Hstep. induction l as [|b l IH]; intros a Hl Ha; simpl.
  - exists a. split; [reflexivity | exact Ha].
  - inversion Hl as [|? ? Hb Hl']; subst.
    destruct (Hstep a b Ha Hb) as (a1 & E1 & I1). rewrite E1. simpl.
    apply IH; assumption.
Qed.

(** ** The scan over the lines *)

Module ScanFacts.
Import Dict Re Parser StrFacts DictFacts.

Section WithTables.
Context {T : CaseTables}.

Lemma heading_nil : heading [] = None.
Proof. reflexivity. Qed.

Lemma scan_line_inv (st : str * dict (list str)) (raw : str) :
  scan_inv st -> ~ In NL raw ->
  exists st', scan_line st raw = Some st' /\ scan_inv st'.
Proof.
  destruct st as [cur d]. intros (Hcur & Hnd & Hok & Hh) Hraw.
  unfold scan_line. simpl in Hcur, Hnd, Hok, Hh.
  destruct (nonempty (strip raw)) eqn:En; simpl.
  2:{ eexists. split; [reflexivity|]. repeat split; assumption. }
  destruct (heading (strip raw)) as [name|] eqn:Eh.
  - eexists. split; [reflexivity|]. unfold scan_inv. simpl.
    destruct (mem name d) eqn:Em.
    + apply mem_in_keys in Em. repeat split; assumption.
    + apply mem_false_keys in Em.
      rewrite keys_set_new by exact Em. repeat split.
      * apply in_or_app. right. left. reflexivity.
      * apply NoDup_app; [exact Hnd | constructor; [simpl; tauto | constructor] |].
        intros x Hx [Hx'|[]]. subst x. contradiction.
      * apply Forall_set; [exact Hok | constructor].
      * apply in_or_app. left. exact Hh.
  - destruct (keys_get _ _ Hcur) as (body & Hbody). rewrite Hbody. simpl.
    eexists. split; [reflexivity|]. unfold scan_inv. simpl.
    rewrite keys_set_mem by exact Hcur. repeat split; try assumption.
    apply Forall_set; [exact Hok|]. simpl.
    apply Forall_app. split.
    + unfold lines_ok in Hok. rewrite Forall_forall in Hok.
      apply (Hok (cur, body)). apply get_some_in. exact Hbody.
    + constructor; [|constructor]. repeat split.
      * apply nonempty_true. exact En.
      * apply strip_idem.
      * intros Hin. apply strip_by_incl in Hin. contradiction.
      * exact Eh.
Qed.

Lemma scan_inv_init : scan_inv (py "header", [(py "header", [])]).
Proof.
  unfold scan_inv. simpl. repeat split.
  - left. reflexivity.
  - constructor; [simpl; tauto | constructor].
  - constructor; [constructor | constructor].
  - left. reflexivity.
Qed.

(** The scan returns, with unique keys, [header] among them, and only
    trimmed non-heading lines in the bodies. *)
Lemma scan_total (content : str) :
  exists d, scan content = Some d /\ NoDup (keys d) /\ lines_ok d /\
            In (py "header") (keys d).
Proof.
  unfold scan.
  destruct (@foldM_inv _ _ scan_line scan_inv (fun l => ~ In NL l))
    with (l := split_nl content) (a := (py "header", [(py "header", @nil str)]))
    as (st & E & Hst).
  - intros a b Ha Hb. apply scan_line_inv; assumption.
  - apply split_nl_no_nl.
  - apply scan_inv_init.
  - rewrite E. simpl. exists (snd st). split; [reflexivity|].
    destruct Hst as (_ & H1 & H2 & H3). repeat split; assumption.
Qed.

(** *** The order of the keys *)

Lemma existsb_keys_mem (V : Type) (k : str) (d : dict V) :
  existsb (str_eqb k) (keys d) = mem k d.
Proof.
  unfold mem, keys. induction d as [|[k' v] d IH]; simpl; [reflexivity|].
  rewrite IH, (str_eqb_sym k k'). reflexivity.
Qed.

Lemma headings_of_cons (raw : str) (lines : list str) :
  headings_of (raw :: lines) =
  match heading (strip raw) with Some name => [name] | None => [] end
  ++ headings_of lines.
Proof. reflexivity. Qed.

Lemma scan_keys_order (lines : list str) (st st' : str * dict (list str)) :
  foldM scan_line lines st = Some st' ->
  keys (snd st') = fold_left see (headings_of lines) (keys (snd st)).
Proof.
  revert st. induction lines as [|raw lines IH]; intros [cur d] H.
  - simpl in H. injection H as <-. reflexivity.
  - cbn [foldM] in H.
    destruct (scan_line (cur, d) raw) as [st1|] eqn:E1; cbn [bind] in H;
      [|discriminate].
    rewrite headings_of_cons, fold_left_app. rewrite (IH _ H). f_equal.
    unfold scan_line in E1. cbn [snd].
    destruct (nonempty (strip raw)) eqn:En; simpl in E1.
    + destruct (heading (strip raw)) as [name|] eqn:Eh.
      * injection E1 as <-. cbn [snd fold_left]. unfold see.
        rewrite existsb_keys_mem.
        destruct (mem name d) eqn:Em; [reflexivity|].
        rewrite keys_set, Em. reflexivity.
      * destruct (get cur d) as [body|] eqn:Eg; simpl in E1; [|discriminate].
        injection E1 as <-. simpl. apply keys_set_mem.
        eapply get_some_keys. exact Eg.
    + injection E1 as <-. apply nonempty_false in En. rewrite En.
      rewrite heading_nil. reflexivity.
Qed.

Lemma scan_first_seen (content : str) (d : dict (list str)) :
  scan content = Some d -> keys d = first_seen content.
Proof.
  unfold scan, first_seen.
  destruct (foldM scan_line (split_nl content) _) as [st|] eqn:E; simpl;
    [|discriminate].
  intros H. injection H as <-. apply (scan_keys_order _ _ E).
Qed.

End WithTables.

End ScanFacts.

(** ** Subsequences *)

Module SubseqFacts.

Section Facts.
Variable A : Type.
Implicit Types (l : list A).

Lemma subseq_refl l : subseq l l.
Proof. induction l; constructor; assumption. Qed.

Lemma subseq_in l1 l2 x : subseq l1 l2 -> In x l1 -> In x l2.
Proof.
  induction 1 as [|y l1 l2 _ IH|y l1 l2 _ IH]; simpl; [tauto | tauto |].
  intros [H|H]; [left; exact H | right; exact (IH H)].
Qed.

Lemma subseq_nodup l1 l2 : subseq l1 l2 -> NoDup l2 -> NoDup l1.
Proof.
  induction 1 as [|x l1 l2 Hs IH|x l1 l2 Hs IH]; intros Hnd.
  - constructor.
  - inversion Hnd; subst. apply IH. assumption.
  - inversion Hnd as [|? ? Hx Hnd']; subst. constructor; [|apply IH; exact Hnd'].
    intros Hin. apply Hx. eapply subseq_in; eassumption.
Qed.

Lemma subseq_trans l1 l2 l3 : subseq l1 l2 -> subseq l2 l3 -> subseq l1 l3.
Proof.
  intros H12 H23. revert l1 H12.
  induction H23 as [|x l2 l3 _ IH|x l2 l3 _ IH]; intros l1 H12.
  - exact H12.
  - constructor. apply IH. exact H12.
  - inversion H12; subst.
    + constructor. apply IH. assumption.
    + apply subseq_keep. apply IH. assumption.
Qed.

Lemma subseq_snoc l1 l2 x : subseq l1 l2 -> subseq (l1 ++ [x]) (l2 ++ [x]).
Proof.
  induction 1; simpl.
  - apply subseq_keep. constructor.
  - apply subseq_skip. assumption.
  - apply subseq_keep. assumption.
Qed.

Lemma subseq_snoc_r l1 l2 x : subseq l1 l2 -> subseq l1 (l2 ++ [x]).
Proof.
  induction 1; simpl.
  - apply subseq_skip. constructor.
  - apply subseq_skip. assumption.
  - apply subseq_keep. assumption.
Qed.

End Facts.

End SubseqFacts.

(** ** From the scan to the result *)

Module PipelineFacts.
Import Dict Re Parser StrFacts DictFacts ScanFacts SubseqFacts.

Section WithTables.
Context {T : CaseTables}.

Lemma body_ok_nil : body_ok [].
Proof. exists []. split; [reflexivity | constructor]. Qed.

Lemma lines_no_nl (ls : list str) :
  Forall line_ok ls -> Forall (fun l => ~ In NL l) ls.
Proof. apply Forall_impl. intros l (_ & _ & H & _). exact H. Qed.

(** A non-empty body splits back into its lines. *)
Lemma body_ok_split (v : str) :
  body_ok v -> v <> [] ->
  exists ls, ls <> [] /\ v = join_nl ls /\ split_nl v = ls /\ Forall line_ok ls.
Proof.
  intros (ls & E & Hls) Hv. exists ls.
  assert (Hne : ls <> []) by (intros ->; apply Hv; exact E).
  repeat split; try assumption.
  rewrite E. apply split_join_nl; [exact Hne | apply lines_no_nl; exact Hls].
Qed.

Lemma body_ok_slices (n : nat) (v : str) :
  body_ok v ->
  body_ok (join_nl (firstn n (split_nl v))) /\
  body_ok (join_nl (skipn n (split_nl v))).
Proof.
  intros Hv. destruct v as [|c v'].
  - simpl split_nl. destruct n; simpl; rewrite ?firstn_nil, ?skipn_nil;
      split; apply body_ok_nil.
  - destruct (body_ok_split Hv) as (ls & _ & _ & Es & Hls); [discriminate|].
    rewrite Es. rewrite <- (firstn_skipn n ls) in Hls.
    apply Forall_app in Hls as [H1 H2].
    split; eexists; split; try reflexivity; assumption.
Qed.

Lemma body_ok_head (v : str) (c : char) (r : str) :
  body_ok v -> v = c :: r -> isspace c = false.
Proof.
  intros (ls & E & Hls) Ev. destruct ls as [|l ls]; [rewrite E in Ev; discriminate|].
  inversion Hls as [|? ? (Hne & Hs & _) _]; subst.
  destruct l as [|c' l']; [contradiction|].
  assert (c' = c).
  { unfold join_nl in Ev. destruct ls; simpl in Ev; congruence. }
  subst c'. destruct (strip_by_cases isspace (c :: l')) as [E0 | (c0 & r0 & E0 & Hc0 & _)];
    fold (strip (c :: l')) in E0; rewrite Hs in E0; [discriminate|].
  injection E0 as -> _. exact Hc0.
Qed.

(** A non-empty body is not blank. *)
Lemma body_ok_nonblank (v : str) :
  body_ok v -> v <> [] -> nonempty (strip v) = true.
Proof.
  intros Hv Hne. destruct v as [|c r]; [contradiction|].
  apply nonempty_true. apply strip_by_head.
  eapply body_ok_head; [exact Hv | reflexivity].
Qed.

Lemma keys_join_sections (d : dict (list str)) :
  keys (join_sections d) = keys d.
Proof.
  unfold keys, join_sections. rewrite map_map. reflexivity.
Qed.

Lemma join_sections_ok (d : dict (list str)) :
  lines_ok d -> bodies_ok (join_sections d).
Proof.
  unfold lines_ok, bodies_ok, join_sections. intros H.
  apply Forall_map. revert H. apply Forall_impl.
  intros [k ls] Hls. simpl in *. exists ls. split; [reflexivity | exact Hls].
Qed.

Lemma bodies_ok_get (d : dict str) (k v : str) :
  bodies_ok d -> get k d = Some v -> body_ok v.
Proof.
  intros Hd Hg. apply get_some_in in Hg.
  unfold bodies_ok in Hd. rewrite Forall_forall in Hd.
  exact (Hd _ Hg).
Qed.

(** *** The header fallback *)

Ltac unchanged d H :=
  exists d; split; [reflexivity | split; [reflexivity | exact H]].

Lemma take_header_inv (todo : list str) (d : dict str) :
  (forall k, In k todo -> In k (keys d)) ->
  In (py "header") (keys d) -> bodies_ok d ->
  exists d', take_header todo d = Some d' /\ keys d' = keys d /\ bodies_ok d'.
Proof.
  intros Htodo Hh Hok. induction todo as [|section todo IH]; cbn [take_header].
  - unchanged d Hok.
  - destruct (keys_get _ _ (Htodo section (or_introl eq_refl))) as (body & Eb).
    rewrite Eb. cbn [bind].
    destruct (nonempty (strip body)) eqn:En.
    2:{ apply IH. intros k Hk. apply Htodo. right. exact Hk. }
    pose proof (bodies_ok_get _ Hok Eb) as Hbody.
    set (d1 := set (py "header") (join_nl (firstn 5 (split_nl body))) d).
    assert (K1 : keys d1 = keys d) by (apply keys_set_mem; exact Hh).
    assert (O1 : bodies_ok d1).
    { apply Forall_set; [exact Hok|]. simpl.
      apply (body_ok_slices 5 Hbody). }
    assert (Hin : In section (keys d1))
      by (rewrite K1; apply Htodo; left; reflexivity).
    destruct (keys_get _ _ Hin) as (body1 & Eb1). fold d1. rewrite Eb1.
    cbn [bind]. eexists. split; [reflexivity|]. split.
    + rewrite keys_set_mem by exact Hin. exact K1.
    + apply Forall_set; [exact O1|]. simpl.
      apply (body_ok_slices 5 (bodies_ok_get _ O1 Eb1)).
Qed.

Lemma header_fallback_inv (d : dict str) :
  In (py "header") (keys d) -> bodies_ok d ->
  exists d', header_fallback d = Some d' /\ keys d' = keys d /\ bodies_ok d'.
Proof.
  intros Hh Hok. unfold header_fallback.
  destruct (mem (py "header") d); [|unchanged d Hok].
  destruct (keys_get _ _ Hh) as (h & Eh). rewrite Eh. simpl.
  destruct (nonempty (strip h)); simpl.
  - unchanged d Hok.
  - apply take_header_inv; [tauto | exact Hh | exact Hok].
Qed.

(** *** Dropping the blank sections *)

Lemma cleanup_ok (d : dict str) : bodies_ok d -> bodies_ok (cleanup d).
Proof.
  unfold bodies_ok, cleanup. intros H. apply Forall_forall. intros e He.
  apply filter_In in He as [He _]. rewrite Forall_forall in H. exact (H _ He).
Qed.

Lemma cleanup_keys (d : dict str) : subseq (keys (cleanup d)) (keys d).
Proof.
  unfold keys, cleanup. induction d as [|e d IH]; simpl; [constructor|].
  destruct (nonempty (strip (snd e))); simpl; constructor; exact IH.
Qed.

End WithTables.

End PipelineFacts.

(** ** The loop over the common sections *)

Module CanonFacts.
Import Dict Re Parser StrFacts DictFacts ScanFacts SubseqFacts PipelineFacts.

Lemma keys_remove (V : Type) (k : str) (d : dict V) :
  keys (remove k d) = remove_key k (keys d).
Proof.
  induction d as [|[k' v'] d IH]; simpl; [reflexivity|].
  destruct (str_eqb k' k); simpl; [reflexivity|]. rewrite IH. reflexivity.
Qed.

Lemma remove_key_app (k : str) (l1 l2 : list str) :
  In k l1 -> remove_key k (l1 ++ l2) = remove_key k l1 ++ l2.
Proof.
  induction l1 as [|k' l1 IH]; simpl; [tauto|].
  destruct (str_eqb k' k) eqn:E; [reflexivity|].
  intros [H|H]; [apply str_eqb_neq in E; contradiction|].
  rewrite IH by exact H. reflexivity.
Qed.

Lemma remove_key_subseq (k : str) (l : list str) : subseq (remove_key k l) l.
Proof.
  induction l as [|k' l IH]; simpl; [constructor|].
  destruct (str_eqb k' k); [constructor; apply subseq_refl | constructor; exact IH].
Qed.

Lemma common_nodup : NoDup common_sections.
Proof.
  unfold common_sections.
  repeat (constructor; [simpl; intros H; decompose [or] H; discriminate || contradiction|]).
  constructor.
Qed.

Section WithTables.
Context {T : CaseTables}.

Lemma lower_common (c : str) : In c common_sections -> lower c = c.
Proof.
  intros H. unfold common_sections in H. simpl in H.
  repeat (destruct H as [<-|H]; [rewrite lower_ascii by reflexivity; reflexivity|]).
  contradiction.
Qed.

(** No common section name is a variant of another one. *)
Lemma variant_common (s c : str) :
  In s common_sections -> In c common_sections -> s <> c -> variant s c = false.
Proof.
  intros Hs Hc Hne. unfold variant. rewrite lower_common by exact Hc.
  unfold common_sections in Hs, Hc. simpl in Hs, Hc.
  repeat (destruct Hs as [<-|Hs];
          [repeat (destruct Hc as [<-|Hc];
                   [first [reflexivity | exfalso; apply Hne; reflexivity]|]);
           contradiction|]).
  contradiction.
Qed.

Lemma variant_self (s : str) : variant s s = true.
Proof.
  unfold variant. apply orb_true_iff. right.
  destruct s; simpl; [reflexivity|].
  rewrite N.eqb_refl. simpl.
  assert (H : forall a : str, startswith a a = true).
  { induction a as [|x a IH]; simpl; [reflexivity|].
    rewrite N.eqb_refl. exact IH. }
  rewrite H. reflexivity.
Qed.

(** One turn of the loop returns; the section is then a key, the bodies
    stay joins of stored lines, and a key that is not a variant of the
    section stays. *)
Lemma ensure_section_spec (d : dict str) (s : str) :
  exists d', ensure_section d s = Some d' /\ In s (keys d') /\
             (bodies_ok d -> bodies_ok d') /\
             (forall c, In c (keys d) -> variant s c = false -> In c (keys d')).
Proof.
  unfold ensure_section.
  destruct (find (variant s) (keys d)) as [e|] eqn:Ef.
  - apply find_some in Ef as [He Hv].
    destruct (str_eqb e s) eqn:Ee; cbn [negb].
    + apply str_eqb_eq in Ee. subst e. exists d.
      split; [reflexivity|]. split; [exact He|]. split; tauto.
    + apply str_eqb_neq in Ee.
      destruct (pop_some _ _ He) as (v & Ep). rewrite Ep. cbn [bind fst snd].
      eexists. split; [reflexivity|]. split; [|split].
      * eapply get_some_keys. apply get_set_same.
      * intros Hok. apply pop_inv in Ep as [Hg _].
        apply Forall_set; [apply Forall_remove; exact Hok|].
        simpl. exact (bodies_ok_get _ Hok Hg).
      * intros c Hc Hvc. assert (e <> c) by congruence.
        pose proof (keys_remove_other _ H Hc) as Hc'.
        rewrite keys_set. destruct (mem s (remove e d)); [exact Hc'|].
        apply in_or_app. left. exact Hc'.
  - destruct (mem s d) eqn:Em; cbn [negb].
    + exists d. split; [reflexivity|]. split; [apply mem_in_keys; exact Em|].
      split; tauto.
    + eexists. split; [reflexivity|]. split; [|split].
      * eapply get_some_keys. apply get_set_same.
      * intros Hok. apply Forall_set; [exact Hok | apply body_ok_nil].
      * intros c Hc _. rewrite keys_set_new by (apply mem_false_keys; exact Em).
        apply in_or_app. left. exact Hc.
Qed.

(** The loop returns, and every common section it has passed is a key. *)
Lemma canonicalize_aux (todo done : list str) (d : dict str) :
  done ++ todo = common_sections ->
  (forall c, In c done -> In c (keys d)) ->
  exists d', foldM ensure_section todo d = Some d' /\
             (forall c, In c common_sections -> In c (keys d')) /\
             (bodies_ok d -> bodies_ok d').
Proof.
  revert done d. induction todo as [|s todo IH]; intros done d Hsplit Hdone.
  - rewrite app_nil_r in Hsplit. subst done. exists d.
    split; [reflexivity|]. split; [exact Hdone | tauto].
  - cbn [foldM].
    destruct (ensure_section_spec d s) as (d1 & E1 & Hs & Hok & Hkeep).
    rewrite E1. cbn [bind].
    destruct (IH (done ++ [s]) d1) as (d' & E' & Hall & Hok').
    + rewrite <- app_assoc. exact Hsplit.
    + intros c Hc. apply in_app_or in Hc as [Hc|[<-|[]]]; [|exact Hs].
      apply Hkeep; [apply Hdone; exact Hc|].
      pose proof common_nodup as Hnd. rewrite <- Hsplit in Hnd.
      apply variant_common.
      * rewrite <- Hsplit. apply in_or_app. right. left. reflexivity.
      * rewrite <- Hsplit. apply in_or_app. left. exact Hc.
      * intros <-. apply NoDup_remove_2 in Hnd. apply Hnd.
        apply in_or_app. left. exact Hc.
    + exists d'. split; [exact E'|]. split; [exact Hall | tauto].
Qed.

Lemma nodup_snoc (l : list str) (x : str) :
  NoDup l -> ~ In x l -> NoDup (l ++ [x]).
Proof.
  intros Hl Hx. apply NoDup_app; [exact Hl | constructor; [simpl; tauto | constructor] |].
  intros y Hy [<-|[]]. contradiction.
Qed.

(** The keys stay unique through the loop. *)
Lemma ensure_section_nodup (d d' : dict str) (s : str) :
  NoDup (keys d) -> ensure_section d s = Some d' -> NoDup (keys d').
Proof.
  intros Hnd E. unfold ensure_section in E.
  destruct (find (variant s) (keys d)) as [e|] eqn:Ef.
  - apply find_some in Ef as [He _].
    destruct (str_eqb e s); cbn [negb] in E; [injection E as <-; exact Hnd|].
    destruct (pop_some _ _ He) as (v & Ep). rewrite Ep in E.
    cbn [bind fst snd] in E. injection E as <-.
    assert (Hr : NoDup (keys (remove e d))).
    { rewrite keys_remove. eapply subseq_nodup; [apply remove_key_subseq | exact Hnd]. }
    rewrite keys_set. destruct (mem s (remove e d)) eqn:Em; [exact Hr|].
    apply nodup_snoc; [exact Hr | apply mem_false_keys; exact Em].
  - destruct (mem s d) eqn:Em; cbn [negb] in E; injection E as <-; [exact Hnd|].
    rewrite (@keys_set_new str) by (apply mem_false_keys; exact Em).
    apply nodup_snoc; [exact Hnd | apply mem_false_keys; exact Em].
Qed.

Lemma canonicalize_nodup (todo : list str) (d d' : dict str) :
  NoDup (keys d) -> foldM ensure_section todo d = Some d' -> NoDup (keys d').
Proof.
  revert d. induction todo as [|s todo IH]; intros d Hnd E.
  - simpl in E. injection E as <-. exact Hnd.
  - cbn [foldM] in E.
    destruct (ensure_section d s) as [d1|] eqn:E1; cbn [bind] in E; [|discriminate].
    apply (IH d1); [|exact E]. eapply ensure_section_nodup; eassumption.
Qed.

Lemma canonicalize_total (d : dict str) :
  exists d', canonicalize d = Some d' /\
             (forall c, In c common_sections -> In c (keys d')) /\
             (bodies_ok d -> bodies_ok d').
Proof.
  apply (@canonicalize_aux common_sections [] d); [reflexivity | simpl; tauto].
Qed.

End WithTables.

End CanonFacts.

(** ** The order of the keys after the loop over the common sections *)

Module OrderFacts.
Import Dict Re Parser StrFacts DictFacts ScanFacts SubseqFacts PipelineFacts
       CanonFacts.

Section WithTables.
Context {T : CaseTables}.

(** One turn of the loop, on the keys: the keys are split into those the
    scan found ([kept]) and those the loop added at the end ([app]).  A
    turn may remove one of the first and may add the section to the
    second. *)
Lemma ensure_section_keys (d d' : dict str) (s : str) (kept app : list str) :
  ensure_section d s = Some d' ->
  keys d = kept ++ app ->
  (forall c, In c app -> variant s c = false) ->
  exists kept' app',
    keys d' = kept' ++ app' /\ subseq kept' kept /\
    (app' = app \/ app' = app ++ [s]).
Proof.
  intros E Hk Happ. unfold ensure_section in E.
  destruct (find (variant s) (keys d)) as [e|] eqn:Ef.
  - apply find_some in Ef as [He Hv].
    destruct (str_eqb e s) eqn:Ee; cbn [negb] in E.
    + injection E as <-. exists kept, app.
      split; [exact Hk|]. split; [apply subseq_refl | left; reflexivity].
    + destruct (pop_some _ _ He) as (v & Ep). rewrite Ep in E.
      cbn [bind fst snd] in E. injection E as <-.
      assert (Hek : In e kept).
      { rewrite Hk in He. apply in_app_or in He as [H|H]; [exact H|].
        apply Happ in H. congruence. }
      assert (Kr : keys (remove e d) = remove_key e kept ++ app).
      { rewrite keys_remove, Hk. apply remove_key_app. exact Hek. }
      exists (remove_key e kept). rewrite keys_set.
      destruct (mem s (remove e d)).
      * exists app. split; [exact Kr|].
        split; [apply remove_key_subseq | left; reflexivity].
      * exists (app ++ [s]). split; [rewrite Kr, app_assoc; reflexivity|].
        split; [apply remove_key_subseq | right; reflexivity].
  - destruct (mem s d) eqn:Em; cbn [negb] in E; injection E as <-.
    + exists kept, app.
      split; [exact Hk|]. split; [apply subseq_refl | left; reflexivity].
    + exists kept, (app ++ [s]).
      rewrite (@keys_set_new str) by (apply mem_false_keys; exact Em).
      split; [rewrite Hk, app_assoc; reflexivity|].
      split; [apply subseq_refl | right; reflexivity].
Qed.

Lemma canonicalize_keys_aux (todo done : list str) (d d' : dict str)
      (kept app : list str) :
  done ++ todo = common_sections ->
  keys d = kept ++ app -> subseq app done ->
  foldM ensure_section todo d = Some d' ->
  exists kept' app',
    keys d' = kept' ++ app' /\ subseq kept' kept /\
    subseq app' common_sections.
Proof.
  revert done d kept app.
  induction todo as [|s todo IH]; intros done d kept app Hsplit Hk Happ E.
  - simpl in E. injection E as <-. rewrite app_nil_r in Hsplit. subst done.
    exists kept, app. split; [exact Hk|]. split; [apply subseq_refl | exact Happ].
  - cbn [foldM] in E.
    destruct (ensure_section d s) as [d1|] eqn:E1; cbn [bind] in E; [|discriminate].
    pose proof common_nodup as Hnd. rewrite <- Hsplit in Hnd.
    assert (Hs : In s common_sections)
      by (rewrite <- Hsplit; apply in_or_app; right; left; reflexivity).
    destruct (@ensure_section_keys d d1 s kept app E1 Hk) as (kept1 & app1 & Hk1 & Hsub1 & Happ1).
    { intros c Hc. assert (Hcd : In c done) by (eapply subseq_in; eassumption).
      apply variant_common; [exact Hs | |].
      - rewrite <- Hsplit. apply in_or_app. left. exact Hcd.
      - intros <-. apply NoDup_remove_2 in Hnd. apply Hnd.
        apply in_or_app. left. exact Hcd. }
    destruct (IH (done ++ [s]) d1 kept1 app1) as (kept2 & app2 & Hk2 & Hsub2 & Happ2).
    + rewrite <- app_assoc. exact Hsplit.
    + exact Hk1.
    + destruct Happ1 as [->| ->]; [apply subseq_snoc_r | apply subseq_snoc]; exact Happ.
    + exact E.
    + exists kept2, app2. split; [exact Hk2|]. split; [|exact Happ2].
      eapply subseq_trans; eassumption.
Qed.

End WithTables.

End OrderFacts.

(** ** The stages of [parse_cv_content] *)

Module ParseFacts.
Import Dict Re Parser StrFacts DictFacts ScanFacts SubseqFacts PipelineFacts
       CanonFacts OrderFacts.

Section WithTables.
Context {T : CaseTables}.

(** The parser returns on every text, and so does each of its stages. *)
Lemma parse_stages (content : str) :
  exists raw d1 d2,
    scan content = Some raw /\
    header_fallback (join_sections raw) = Some d1 /\
    canonicalize (cleanup d1) = Some d2 /\
    parse_cv_content content = Some d2 /\
    NoDup (keys raw) /\ In (py "header") (keys raw) /\
    keys d1 = keys raw /\ bodies_ok (join_sections raw) /\
    bodies_ok d1 /\ bodies_ok d2 /\
    (forall c, In c common_sections -> In c (keys d2)).
Proof.
  destruct (scan_total content) as (raw & Es & Hnd & Hok & Hh).
  pose proof (join_sections_ok Hok) as Hj.
  destruct (@header_fallback_inv T (join_sections raw)) as (d1 & E1 & K1 & O1).
  { rewrite keys_join_sections. exact Hh. }
  { exact Hj. }
  destruct (canonicalize_total (cleanup d1)) as (d2 & E2 & Hall & O2).
  exists raw, d1, d2. unfold parse_cv_content.
  rewrite Es. cbn [bind]. rewrite E1. cbn [bind].
  rewrite keys_join_sections in K1.
  repeat (split; [first [reflexivity | assumption]|]).
  split; [apply O2; apply cleanup_ok; exact O1 | exact Hall].
Qed.

End WithTables.

End ParseFacts.

(** * The parser: results *)

Module HeaderFacts.
Import Dict Re Parser StrFacts DictFacts ScanFacts SubseqFacts PipelineFacts.

Section WithTables.
Context {T : CaseTables}.

(** The keys with a blank body are passed over. *)
Lemma take_header_skip (todo rest : list str) (d : dict str) :
  (forall k, In k todo ->
             exists b, get k d = Some b /\ nonempty (strip b) = false) ->
  take_header (todo ++ rest) d = take_header rest d.
Proof.
  induction todo as [|k todo IH]; intros H; [reflexivity|].
  cbn [app take_header].
  destruct (H k (or_introl eq_refl)) as (b & Eb & Hb).
  rewrite Eb. cbn [bind]. rewrite Hb. apply IH.
  intros k' Hk'. apply H. right. exact Hk'.
Qed.

Lemma blank_entries_skip (pre d : dict str) :
  NoDup (keys d) -> incl pre d ->
  Forall (fun e => strip (snd e) = []) pre ->
  forall k, In k (keys pre) ->
            exists b, get k d = Some b /\ nonempty (strip b) = false.
Proof.
  intros Hnd Hincl Hblank k Hk.
  apply in_map_iff in Hk as ([k' b] & <- & Hin). exists b. split.
  - apply in_get_nodup; [exact Hnd | apply Hincl; exact Hin].
  - rewrite Forall_forall in Hblank. apply nonempty_false.
    exact (Hblank _ Hin).
Qed.

End WithTables.

End HeaderFacts.

Section ParserClaims.
Import Dict Re Parser StrFacts DictFacts ScanFacts SubseqFacts PipelineFacts
       CanonFacts OrderFacts ParseFacts HeaderFacts.
Context {T : CaseTables}.

(** C1. For every input text [parse_cv_content] returns a mapping in
    which each of the six common keys (header, profile, experience,
    education, skills, languages) is bound to a string, possibly the
    empty one, so a lookup of any of them succeeds. *)
Theorem parse_has_common_sections (content : str) :
  exists d, parse_cv_content content = Some d /\
            forall k, In k common_sections -> exists v : str, get k d = Some v.
Proof.
  destruct (parse_stages content)
    as (raw & d1 & d2 & _ & _ & _ & E & _ & _ & _ & _ & _ & _ & Hall).
  exists d2. split; [exact E|].
  intros k Hk. apply keys_get. apply Hall. exact Hk.
Qed.

End ParserClaims.

(** ** Parsing a section body again *)

Module ReparseFacts.
Import Dict Re Parser StrFacts DictFacts ScanFacts SubseqFacts PipelineFacts
       CanonFacts ParseFacts.

Section WithTables.
Context {T : CaseTables}.

(** Stored lines are put under [header] by a new scan. *)
Lemma scan_stored_lines (ls acc : list str) :
  Forall line_ok ls ->
  foldM scan_line ls (py "header", [(py "header", acc)]) =
  Some (py "header", [(py "header", acc ++ ls)]).
Proof.
  revert acc. induction ls as [|l ls IH]; intros acc H.
  - rewrite app_nil_r. reflexivity.
  - inversion H as [|? ? (Hne & Hs & _ & Hh) Hls]; subst.
    cbn [foldM]. unfold scan_line at 1. rewrite Hs.
    apply nonempty_true in Hne. rewrite Hne, Hh. cbn [negb get].
    rewrite str_eqb_refl. cbn [bind set]. rewrite str_eqb_refl.
    rewrite IH by exact Hls. rewrite <- app_assoc. reflexivity.
Qed.

Lemma find_none (f : str -> bool) (l : list str) :
  (forall x, In x l -> f x = false) -> find f l = None.
Proof.
  induction l as [|x l IH]; intros H; simpl; [reflexivity|].
  rewrite (H x (or_introl eq_refl)). apply IH.
  intros y Hy. apply H. right. exact Hy.
Qed.

Lemma ensure_section_new (d : dict str) (s : str) :
  ~ In s (keys d) -> (forall c, In c (keys d) -> variant s c = false) ->
  ensure_section d s = Some (d ++ [(s, [])]).
Proof.
  intros Hnotin Hv. unfold ensure_section. rewrite find_none by exact Hv.
  apply mem_false_keys in Hnotin as Hm. rewrite Hm. cbn [negb].
  rewrite (@set_new str) by exact Hnotin. reflexivity.
Qed.

(** With only [header] found, the loop adds the other common sections,
    empty, in order. *)
Lemma canonicalize_header_only_aux (v : str) (todo done : list str) :
  (py "header" :: done) ++ todo = common_sections ->
  foldM ensure_section todo ((py "header", v) :: map (fun c => (c, [])) done)
  = Some (header_only v).
Proof.
  revert done. induction todo as [|s todo IH]; intros done Hsplit.
  - rewrite app_nil_r in Hsplit. unfold header_only. rewrite <- Hsplit.
    reflexivity.
  - cbn [foldM]. set (d := (py "header", v) :: map (fun c => (c, [])) done).
    assert (Hkeys : keys d = py "header" :: done).
    { unfold d, keys. cbn [map fst]. rewrite map_map. cbn [fst].
      rewrite map_id. reflexivity. }
    pose proof common_nodup as Hnd. rewrite <- Hsplit in Hnd.
    assert (Hs : In s common_sections)
      by (rewrite <- Hsplit; apply in_or_app; right; left; reflexivity).
    assert (Hnotin : ~ In s (keys d)).
    { rewrite Hkeys. apply NoDup_remove_2 in Hnd. intros Hin. apply Hnd.
      apply in_or_app. left. exact Hin. }
    rewrite ensure_section_new; [|exact Hnotin|].
    2:{ intros c Hc. rewrite Hkeys in Hc. apply variant_common; [exact Hs| |].
        - rewrite <- Hsplit. apply in_or_app. left. exact Hc.
        - intros <-. apply Hnotin. rewrite Hkeys. exact Hc. }
    cbn [bind].
    replace (d ++ [(s, [])])
      with ((py "header", v) :: map (fun c => (c, @nil char)) (done ++ [s]))
      by (unfold d; rewrite map_app; reflexivity).
    apply IH. cbn [app]. rewrite <- app_assoc. exact Hsplit.
Qed.

(** A non-empty stored body, parsed again, comes back whole under
    [header]. *)
Lemma reparse_body (v : str) :
  body_ok v -> v <> [] -> parse_cv_content v = Some (header_only v).
Proof.
  intros Hv Hne.
  destruct (body_ok_split Hv Hne) as (ls & _ & Ej & Es & Hls).
  pose proof (body_ok_nonblank Hv Hne) as Hnb.
  unfold parse_cv_content, scan. rewrite Es.
  rewrite scan_stored_lines by exact Hls. cbn [bind snd app].
  unfold join_sections. cbn [map fst snd]. rewrite <- Ej.
  unfold header_fallback. cbn [mem existsb fst get].
  rewrite str_eqb_refl. cbn [orb bind]. rewrite Hnb. cbn [negb bind].
  unfold cleanup. cbn [filter snd]. rewrite Hnb.
  unfold canonicalize. unfold common_sections at 1. cbn [foldM].
  unfold ensure_section at 1. cbn [keys map fst find].
  rewrite variant_self, str_eqb_refl. cbn [negb bind].
  apply (@canonicalize_header_only_aux v (tl common_sections) []).
  reflexivity.
Qed.

End WithTables.

End ReparseFacts.

(** ** The heading detectors *)

Module DetectFacts.
Import Dict Re Parser StrFacts DictFacts ReFacts.

Lemma isspace_AZ_or_space (c : char) : isspace c = true -> AZ_or_space c = true.
Proof. unfold AZ_or_space. intros ->. apply orb_true_r. Qed.

Lemma firstn_skipn_forallb (p : char -> bool) (k : nat) (s : str) :
  forallb p (firstn k s) = true -> forallb p (skipn k s) = true ->
  forallb p s = true.
Proof.
  intros H1 H2. rewrite <- (firstn_skipn k s), forallb_app, H1, H2. reflexivity.
Qed.

Lemma skipn_length_le (k : nat) (s : str) : length (skipn k s) <= length s.
Proof. rewrite length_skipn. lia. Qed.

Lemma takewhile_length (p : char -> bool) (s : str) :
  length (takewhile p s) <= length s.
Proof.
  induction s as [|c s IH]; simpl; [lia|]. destruct (p c); simpl; lia.
Qed.

(** The shout-case pattern has no group, whatever it matches. *)
Lemma shout_run_caps (s rest : str) (caps : list str) :
  run shout_pattern s s None [] = Some (rest, caps) -> caps = [].
Proof.
  unfold shout_pattern. cbn [run]. rewrite Nat.eqb_refl. intros E.
  apply greedy_some in E as (k1 & _ & E).
  apply greedy_some in E as (k2 & _ & E).
  apply greedy_some in E as (k3 & _ & E).
  destruct (skipn k3 (skipn k2 (skipn k1 s))) as [|c [|c' t]];
    [congruence | | discriminate].
  destruct (N.eqb c NL); congruence.
Qed.

Lemma shout_match_groups (s : str) (m : list str) :
  re_match shout_pattern s = Some m -> m = [].
Proof.
  unfold re_match.
  destruct (run shout_pattern s s None []) as [[rest caps]|] eqn:E; [|discriminate].
  intros H. injection H as <-. eapply shout_run_caps. exact E.
Qed.

(** The shout-case pattern matches exactly the strings of five or more
    characters that are all capital letters A to Z or white space. *)
Lemma shout_match_iff (s : str) :
  re_match shout_pattern s = Some [] <->
  (5 <= length s /\ forallb AZ_or_space s = true).
Proof.
  split.
  - unfold re_match, shout_pattern. cbn [run]. rewrite Nat.eqb_refl.
    destruct (greedy _ _ _) as [[rest caps]|] eqn:E; [|discriminate].
    intros _. apply greedy_some in E as (k1 & Hk1 & E).
    apply greedy_some in E as (k2 & Hk2 & E).
    apply greedy_some in E as (k3 & Hk3 & E).
    set (s1 := skipn k1 s) in *. set (s2 := skipn k2 s1) in *.
    set (s3 := skipn k3 s2) in *.
    assert (H3 : forallb AZ_or_space s3 = true).
    { destruct s3 as [|c [|c' r]]; [reflexivity | | discriminate].
      destruct (N.eqb c NL) eqn:Ec; [|discriminate].
      apply N.eqb_eq in Ec. subst c. reflexivity. }
    assert (H2 : forallb AZ_or_space s2 = true).
    { apply (@firstn_skipn_forallb _ k3); [|exact H3].
      apply (forallb_weaken isspace); [exact isspace_AZ_or_space|].
      apply takewhile_firstn. lia. }
    assert (H1 : forallb AZ_or_space s1 = true).
    { apply (@firstn_skipn_forallb _ k2); [|exact H2].
      apply takewhile_firstn. lia. }
    split.
    + pose proof (takewhile_length AZ_or_space s1).
      pose proof (skipn_length_le k1 s). fold s1 in H0. lia.
    + apply (@firstn_skipn_forallb _ k1); [|exact H1].
      apply (forallb_weaken isspace); [exact isspace_AZ_or_space|].
      apply takewhile_firstn. lia.
  - intros [Hlen Hall].
    assert (Hin : exists r, run [Many AZ_or_space 5; Many isspace 0; Eos]
                                s s None [] = Some r).
    { cbn [run]. rewrite (takewhile_all _ _ Hall).
      eapply greedy_found with (k := length s); [lia|].
      rewrite skipn_all. reflexivity. }
    destruct Hin as (r & Er).
    assert (Hrun : exists r, run shout_pattern s s None [] = Some r).
    { unfold shout_pattern. cbn [run]. rewrite Nat.eqb_refl.
      eapply greedy_found with (k := 0) (r := r); [lia|].
      cbn [skipn]. exact Er. }
    clear r Er.
    destruct Hrun as ([rest caps] & Er). unfold re_match. rewrite Er.
    apply shout_run_caps in Er. subst caps. reflexivity.
Qed.

(** The bold pattern needs an asterisk. *)
Lemma bold_match_star (s : str) (m : list str) :
  re_match bold_pattern s = Some m -> In STAR s.
Proof.
  unfold re_match, bold_pattern. cbn [run]. rewrite Nat.eqb_refl.
  destruct (greedy _ _ _) as [[rest caps]|] eqn:E; [|discriminate].
  intros _. apply greedy_some in E as (k1 & _ & E).
  destruct (skipn k1 s) as [|c r] eqn:Es; [discriminate|].
  destruct (is_star c) eqn:Ec; [|discriminate].
  apply N.eqb_eq in Ec. subst c.
  rewrite <- (firstn_skipn k1 s), Es. apply in_or_app. right. left. reflexivity.
Qed.

Lemma AZ_or_space_in (s : str) (c : char) :
  forallb AZ_or_space s = true -> In c s -> AZ_or_space c = true.
Proof. intros H Hin. rewrite forallb_forall in H. exact (H _ Hin). Qed.

Lemma AZ_not_marker (c : char) :
  AZ_or_space c = true -> isspace c = false ->
  existsb (N.eqb c) (py "* -") = false /\ N.eqb STAR c = false.
Proof.
  unfold AZ_or_space. intros H Hs. rewrite Hs, orb_false_r in H.
  unfold is_AZ in H. apply andb_true_iff in H as [H1 H2].
  apply N.leb_le in H1, H2. cbn [py]. unfold py. cbn [list_ascii_of_string map existsb].
  unfold STAR. split.
  - repeat (apply orb_false_iff; split); try reflexivity;
      apply N.eqb_neq; intros ->; vm_compute in H1; contradiction.
  - apply N.eqb_neq. intros <-. vm_compute in H1. contradiction.
Qed.

End DetectFacts.

Module HeadingFacts.
Import Dict Re Parser StrFacts DictFacts ReFacts DetectFacts.

Section WithTables.
Context {T : CaseTables}.

Lemma last_in (c : char) (r : str) : In (last (c :: r) c) (c :: r).
Proof.
  assert (H : c :: r <> []) by discriminate.
  rewrite (app_removelast_last c H) at 2.
  apply in_or_app. right. left. reflexivity.
Qed.

(** A trimmed line of five or more capital letters and white space is a
    heading, and its name is the line in lower case. *)
Lemma shout_heading (line : str) :
  strip line = line -> 5 <= length line -> forallb AZ_or_space line = true ->
  heading line = Some (lower line).
Proof.
  intros Hs Hlen Hall.
  destruct (strip_by_cases isspace line) as [E | (c & r & E & Hc & Hl)];
    fold (strip line) in E; rewrite Hs in E.
  { subst line. simpl in Hlen. lia. }
  assert (Ac : AZ_or_space c = true)
    by (apply (AZ_or_space_in line); [exact Hall | rewrite E; left; reflexivity]).
  assert (Al : AZ_or_space (last (c :: r) c) = true)
    by (apply (AZ_or_space_in line); [exact Hall | rewrite E; apply last_in]).
  destruct (AZ_not_marker _ Ac Hc) as [Mc Sc].
  destruct (AZ_not_marker _ Al Hl) as [Ml _].
  unfold heading, detect, section_patterns. cbn [test_patterns].
  destruct (re_match bold_pattern line) as [m|] eqn:Eb.
  { apply bold_match_star in Eb.
    pose proof (AZ_or_space_in _ _ Hall Eb) as Hstar. discriminate Hstar. }
  rewrite (proj2 (shout_match_iff line) (conj Hlen Hall)). cbn [group1 nth_error].
  assert (Es : startswith (py "**") line = false).
  { rewrite E. change (py "**") with [STAR; STAR]. cbn [startswith].
    rewrite Sc. reflexivity. }
  rewrite Es. cbn [andb].
  assert (Em : strip_chars (py "* -") line = line).
  { rewrite E. unfold strip_chars. apply strip_by_fixed; assumption. }
  rewrite Em, Hs.
  destruct (lower line) as [|x l] eqn:El; [|reflexivity].
  apply lower_nonempty in El. subst line. discriminate.
Qed.

(** What the [**...**] test makes of a line that passes it. *)
Lemma detect_bold_marker (line : str) :
  startswith (py "**") line = true -> endswith (py "**") line = true ->
  detect line = (true, Some (lower (strip (strip_chars (py "*") line)))).
Proof.
  intros H1 H2. unfold detect.
  destruct (test_patterns section_patterns line) as [a b].
  rewrite H1, H2. reflexivity.
Qed.

End WithTables.

End HeadingFacts.

Section DetectorClaims.
Import Dict Re Parser StrFacts DictFacts ReFacts DetectFacts HeadingFacts.
Context {T : CaseTables}.

(** C6, as the code has it.  For a line whose trimmed form starts and
    ends with two asterisks, the heading text is the trimmed line
    without its leading and trailing asterisks, trimmed again and in
    lower case, whatever the three patterns found.  If that text is not
    empty the line opens the section of that name and is stored nowhere;
    if it is empty the line is stored in the current section. *)
Theorem bold_marker_line (raw cur : str) (d : dict (list str)) :
  startswith (py "**") (strip raw) = true ->
  endswith (py "**") (strip raw) = true ->
  let line := strip raw in
  let name := lower (strip (strip_chars (py "*") line)) in
  detect line = (true, Some name) /\
  (name <> [] ->
   scan_line (cur, d) raw =
   Some (name, if mem name d then d else set name [] d)) /\
  (name = [] ->
   scan_line (cur, d) raw =
   (body <- get cur d ;; Some (cur, set cur (body ++ [line]) d))).
Proof.
  intros H1 H2 line name. fold line in H1, H2.
  pose proof (detect_bold_marker _ H1 H2) as Hd. fold name in Hd.
  assert (Hne : nonempty line = true).
  { destruct line; [discriminate H1 | reflexivity]. }
  split; [exact Hd|].
  unfold scan_line. fold line. rewrite Hne. cbn [negb].
  unfold heading. rewrite Hd. split; intros Hn.
  - apply nonempty_true in Hn. rewrite Hn. reflexivity.
  - rewrite Hn. reflexivity.
Qed.

(** C7. The shout-case pattern matches a line exactly when the line has
    five or more characters, all of them capital letters A to Z or white
    space.  Such a line, trimmed, opens the section named by the line in
    lower case.  The line SKILLS opens the section skills; the line
    Skills is not matched and is stored in the current section. *)
Theorem shout_case_detector :
  (forall line,
     re_match shout_pattern line <> None <->
     (5 <= length line /\ forallb AZ_or_space line = true)) /\
  (forall raw cur (d : dict (list str)),
     5 <= length (strip raw) -> forallb AZ_or_space (strip raw) = true ->
     scan_line (cur, d) raw =
     Some (lower (strip raw),
           if mem (lower (strip raw)) d then d
           else set (lower (strip raw)) [] d)) /\
  (forall cur (d : dict (list str)),
     scan_line (cur, d) (py "SKILLS") =
     Some (py "skills",
           if mem (py "skills") d then d else set (py "skills") [] d)) /\
  re_match shout_pattern (py "Skills") = None /\
  (forall cur (d : dict (list str)),
     scan_line (cur, d) (py "Skills") =
     (body <- get cur d ;; Some (cur, set cur (body ++ [py "Skills"]) d))).
Proof.
  assert (Hgen : forall raw cur (d : dict (list str)),
     5 <= length (strip raw) -> forallb AZ_or_space (strip raw) = true ->
     scan_line (cur, d) raw =
     Some (lower (strip raw),
           if mem (lower (strip raw)) d then d
           else set (lower (strip raw)) [] d)).
  { intros raw cur d Hlen Hall. unfold scan_line.
    assert (Hne : nonempty (strip raw) = true)
      by (destruct (strip raw); [simpl in Hlen; lia | reflexivity]).
    rewrite Hne. cbn [negb].
    rewrite (shout_heading (strip_idem raw) Hlen Hall). reflexivity. }
  split; [|split; [exact Hgen | split; [|split]]].
  - intros line. rewrite <- shout_match_iff. split.
    + destruct (re_match shout_pattern line) as [m|] eqn:E; [|congruence].
      intros _. apply shout_match_groups in E as Hm. congruence.
    + intros ->. discriminate.
  - intros cur d.
    assert (El : lower (py "SKILLS") = py "skills")
      by (rewrite lower_ascii by reflexivity; reflexivity).
    rewrite <- El. apply (Hgen (py "SKILLS") cur d); [vm_compute; lia | reflexivity].
  - reflexivity.
  - intros cur d. reflexivity.
Qed.

End DetectorClaims.

(** * The renderer: results *)

Module RenderFacts.
Import Dict Re Parser Render StrFacts DictFacts.

Lemma dropwhile_length (p : char -> bool) (s : str) :
  length (dropwhile p s) <= length s.
Proof.
  induction s as [|c s IH]; simpl; [lia|]. destruct (p c); simpl; lia.
Qed.

Lemma strip_length (s : str) : length (strip s) <= length s.
Proof.
  unfold strip, strip_by. rewrite length_rev.
  etransitivity; [apply dropwhile_length|]. rewrite length_rev.
  apply dropwhile_length.
Qed.

Lemma truncated_length (line : str) : length (truncated line) <= 123.
Proof.
  unfold truncated. destruct (120 <? length line) eqn:E.
  - rewrite length_app, length_firstn. change (length (py "...")) with 3. lia.
  - apply Nat.ltb_ge in E. lia.
Qed.

Lemma truncated_nonempty (line : str) : line <> [] -> truncated line <> [].
Proof.
  unfold truncated. destruct (120 <? length line); [|tauto].
  intros _ H. apply app_eq_nil in H as [_ H]. discriminate.
Qed.

Lemma body_item_no_title (raw : str) :
  Forall (fun i => is_title i = false) (body_item raw).
Proof.
  unfold body_item. destruct (truncated (strip raw)) as [|c rest]; [constructor|].
  destruct (is_bullet (c :: rest)); constructor; try reflexivity; constructor.
Qed.

Lemma body_items_no_title (lines : list str) :
  Forall (fun i => is_title i = false) (body_items lines).
Proof.
  unfold body_items. induction lines as [|raw lines IH]; simpl; [constructor|].
  apply Forall_app. split; [apply body_item_no_title | exact IH].
Qed.

Lemma body_item_bounded (raw : str) :
  Forall bounded (flat_map draw (body_item raw)).
Proof.
  unfold body_item.
  pose proof (truncated_length (strip raw)) as Hlen.
  destruct (truncated (strip raw)) as [|c rest]; [constructor|].
  pose proof (strip_length rest) as Hs. simpl in Hlen.
  destruct (is_bullet (c :: rest)); apply Forall_forall; intros x Hin t Ht;
    simpl in Hin; decompose [or] Hin; subst; try contradiction;
    try discriminate Ht; simpl in Ht; injection Ht as <-; simpl; lia.
Qed.

Lemma body_item_no_subheading (raw : str) :
  filter is_subheading (flat_map draw (body_item raw)) = [].
Proof.
  unfold body_item. destruct (truncated (strip raw)) as [|c rest]; [reflexivity|].
  destruct (is_bullet (c :: rest)); reflexivity.
Qed.

Lemma body_items_no_subheading (lines : list str) :
  filter is_subheading (flat_map draw (body_items lines)) = [].
Proof.
  unfold body_items. induction lines as [|raw lines IH]; [reflexivity|].
  cbn [flat_map]. rewrite flat_map_app, filter_app, IH, body_item_no_subheading.
  reflexivity.
Qed.

Section WithTables.
Context {T : CaseTables}.

(** A turn of the line loop draws the body item of the line. *)
Lemma render_line_spec (doc : pdf) (raw : str) :
  render_line doc raw = Some (doc ++ flat_map draw (body_item raw)).
Proof.
  unfold render_line, body_item.
  change (if max_line_length <? length (strip raw)
          then firstn max_line_length (strip raw) ++ py "..."
          else strip raw) with (truncated (strip raw)).
  destruct (strip raw) as [|c0 r0] eqn:Es.
  - cbn. rewrite app_nil_r. reflexivity.
  - cbn [nonempty negb].
    pose proof (@truncated_nonempty (c0 :: r0)) as Hne.
    destruct (truncated (c0 :: r0)) as [|c rest]; [exfalso; apply Hne; [discriminate | reflexivity]|].
    destruct (is_bullet (c :: rest)); reflexivity.
Qed.

Lemma render_lines_spec (lines : list str) (doc : pdf) :
  foldM render_line lines doc = Some (doc ++ flat_map draw (body_items lines)).
Proof.
  revert doc. induction lines as [|raw lines IH]; intros doc.
  - cbn. rewrite app_nil_r. reflexivity.
  - cbn [foldM]. rewrite render_line_spec. cbn [bind]. rewrite IH.
    unfold body_items. cbn [flat_map]. rewrite flat_map_app, app_assoc.
    reflexivity.
Qed.

(** A turn of the block loop draws the items of the block and a gap. *)
Lemma render_item_spec (doc : pdf) (item : str) :
  strip item <> [] ->
  render_item doc item =
  Some (doc ++ flat_map draw (block_items item) ++ [Ln 2]).
Proof.
  intros Hne. apply nonempty_true in Hne. unfold render_item, block_items.
  rewrite Hne. cbn [negb].
  pose proof (@split_nl_nonnil item) as Hsp.
  destruct (split_nl item) as [|first rest]; [contradiction|].
  cbn [nth_error bind].
  rewrite <- negb_orb. fold (is_bullet (strip first)).
  destruct (is_bullet (strip first)); cbn [negb bind fst snd skipn].
  - rewrite render_lines_spec. cbn [bind]. rewrite <- app_assoc. reflexivity.
  - rewrite render_lines_spec. cbn [bind flat_map].
    rewrite <- !app_assoc. reflexivity.
Qed.

Lemma render_item_blank (doc : pdf) (item : str) :
  strip item = [] -> render_item doc item = Some doc.
Proof.
  intros H. unfold render_item. rewrite H. reflexivity.
Qed.

End WithTables.

End RenderFacts.

(** ** Blocks of a stored body *)

Module BlockFacts.
Import Dict Re Parser Render StrFacts DictFacts ReFacts ScanFacts PipelineFacts
       RenderFacts.

Lemma tight_tail (c : char) (s : str) : tight (c :: s) = true -> tight s = true.
Proof. cbn [tight]. intros H. apply andb_true_iff in H as [_ H]. exact H. Qed.

(** No run of blank lines starts a tight string. *)
Lemma tight_no_blank_run (s : str) :
  tight s = true -> match_len blank_run s = None.
Proof.
  unfold match_len, blank_run. destruct s as [|c s']; [reflexivity|].
  cbn [run tight]. intros H. apply andb_true_iff in H as [H _].
  destruct (N.eqb NL c) eqn:Ec; [|reflexivity].
  apply N.eqb_eq in Ec. subst c. rewrite N.eqb_refl in H. cbn [negb orb] in H.
  destruct s' as [|c' s'']; [reflexivity|].
  apply negb_true_iff in H. cbn [takewhile]. rewrite H. cbn [length greedy Nat.leb skipn run].
  destruct (N.eqb NL c') eqn:Ec'; [|reflexivity].
  apply N.eqb_eq in Ec'. subst c'. discriminate H.
Qed.

Lemma split_go_tight (s cur : str) :
  tight s = true -> split_go blank_run s 0 cur = [rev cur ++ s].
Proof.
  revert cur. induction s as [|c s IH]; intros cur H.
  - cbn. rewrite app_nil_r. reflexivity.
  - cbn [split_go]. rewrite (tight_no_blank_run _ H).
    rewrite IH by (eapply tight_tail; exact H).
    cbn [rev]. rewrite <- app_assoc. reflexivity.
Qed.

(** A tight string is a single block. *)
Lemma re_split_tight (s : str) : tight s = true -> re_split blank_run s = [s].
Proof. intros H. unfold re_split. rewrite split_go_tight by exact H. reflexivity. Qed.

Lemma tight_no_nl (l : str) : ~ In NL l -> tight l = true.
Proof.
  induction l as [|c l IH]; intros H; [reflexivity|].
  cbn [tight]. rewrite IH by (intros Hin; apply H; right; exact Hin).
  destruct (N.eqb c NL) eqn:E; [|reflexivity].
  apply N.eqb_eq in E. exfalso. apply H. left. exact E.
Qed.

Lemma tight_line_app (l rest : str) :
  ~ In NL l -> tight (NL :: rest) = true -> tight (l ++ NL :: rest) = true.
Proof.
  induction l as [|c l IH]; intros H Hr; [exact Hr|].
  cbn [app tight]. rewrite IH; [|intros Hin; apply H; right; exact Hin | exact Hr].
  destruct (N.eqb c NL) eqn:E; [|reflexivity].
  apply N.eqb_eq in E. exfalso. apply H. left. exact E.
Qed.

Section WithTables.
Context {T : CaseTables}.

Lemma line_ok_head (l : str) :
  line_ok l -> exists c r, l = c :: r /\ isspace c = false.
Proof.
  intros (Hne & Hs & _).
  destruct (strip_by_cases isspace l) as [E | (c & r & E & Hc & _)];
    fold (strip l) in E; rewrite Hs in E; [contradiction|].
  exists c, r. split; assumption.
Qed.

Lemma tight_join (ls : list str) :
  Forall line_ok ls -> tight (join_nl ls) = true.
Proof.
  unfold join_nl. induction ls as [|l ls IH]; intros H; [reflexivity|].
  inversion H as [|? ? Hl Hls]; subst.
  destruct ls as [|l' ls'].
  - cbn [join]. apply tight_no_nl. destruct Hl as (_ & _ & Hn & _). exact Hn.
  - change (join [NL] (l :: l' :: ls')) with (l ++ NL :: join [NL] (l' :: ls')).
    apply tight_line_app; [destruct Hl as (_ & _ & Hn & _); exact Hn|].
    cbn [tight]. rewrite IH by exact Hls.
    inversion Hls as [|? ? Hl' _]; subst.
    destruct (line_ok_head Hl') as (c & r & -> & Hc).
    rewrite N.eqb_refl. cbn [negb orb].
    destruct ls'; cbn [join app]; rewrite Hc; reflexivity.
Qed.

(** The body of a section is one block. *)
Lemma body_ok_one_block (v : str) : body_ok v -> re_split blank_run v = [v].
Proof.
  intros (ls & -> & Hls). apply re_split_tight. apply tight_join. exact Hls.
Qed.

(** The lines of a section body are trimmed and not empty. *)
Lemma body_ok_lines (v : str) :
  body_ok v ->
  v = [] \/ Forall (fun l => l <> [] /\ strip l = l) (split_nl v).
Proof.
  intros Hv. destruct v as [|c r]; [left; reflexivity | right].
  destruct (body_ok_split Hv) as (ls & _ & _ & -> & Hls); [discriminate|].
  revert Hls. apply Forall_impl. intros l (H1 & H2 & _). split; assumption.
Qed.

End WithTables.

End BlockFacts.

(** ** The calls of the renderer *)

Module DocFacts.
Import Dict Re Parser Render StrFacts DictFacts ReFacts ScanFacts PipelineFacts
       RenderFacts BlockFacts.

(** A loop whose turns only add calls satisfying [R] only adds such calls. *)
Lemma foldM_adds (B : Type) (f : pdf -> B -> option pdf) (R : call -> Prop) :
  (forall doc b, exists calls, f doc b = Some (doc ++ calls) /\ Forall R calls) ->
  forall l doc, exists calls,
    foldM f l doc = Some (doc ++ calls) /\ Forall R calls.
Proof.
  intros Hstep. induction l as [|b l IH]; intros doc.
  - exists []. split; [cbn; rewrite app_nil_r; reflexivity | constructor].
  - destruct (Hstep doc b) as (c1 & E1 & R1).
    destruct (IH (doc ++ c1)) as (c2 & E2 & R2).
    exists (c1 ++ c2). cbn [foldM]. rewrite E1. cbn [bind]. rewrite E2.
    split; [rewrite app_assoc; reflexivity | apply Forall_app; split; assumption].
Qed.

Lemma body_items_bounded (lines : list str) :
  Forall bounded (flat_map draw (body_items lines)).
Proof.
  unfold body_items. induction lines as [|raw lines IH]; [constructor|].
  cbn [flat_map]. rewrite flat_map_app. apply Forall_app.
  split; [apply body_item_bounded | exact IH].
Qed.

Lemma bounded_other (c : call) : body_text c = None -> bounded c.
Proof. intros H t Ht. congruence. Qed.

Lemma block_items_bounded (block : str) :
  Forall bounded (flat_map draw (block_items block)).
Proof.
  unfold block_items. destruct (split_nl block) as [|first rest]; [constructor|].
  destruct (is_bullet (strip first)); [apply body_items_bounded|].
  cbn [flat_map]. apply Forall_app. split; [|apply body_items_bounded].
  repeat (constructor; [apply bounded_other; reflexivity|]). constructor.
Qed.

Section WithTables.
Context {T : CaseTables}.

Lemma render_item_adds (doc : pdf) (item : str) :
  exists calls, render_item doc item = Some (doc ++ calls) /\ Forall bounded calls.
Proof.
  destruct (strip item) as [|c r] eqn:E.
  - exists []. rewrite render_item_blank by exact E.
    split; [rewrite app_nil_r; reflexivity | constructor].
  - eexists. rewrite render_item_spec by (rewrite E; discriminate).
    split; [reflexivity|]. apply Forall_app. split; [apply block_items_bounded|].
    constructor; [apply bounded_other; reflexivity | constructor].
Qed.

Lemma render_section_adds (doc : pdf) (entry : str * str) :
  exists calls,
    render_section doc entry = Some (doc ++ calls) /\ Forall bounded calls.
Proof.
  unfold render_section.
  destruct (str_eqb (fst entry) (py "header")
            || negb (nonempty (strip (snd entry)))).
  - exists []. split; [rewrite app_nil_r; reflexivity | constructor].
  - match goal with
    | |- context [foldM render_item ?items ?doc0] =>
        destruct (@foldM_adds _ render_item bounded render_item_adds items doc0)
          as (calls & E & Hb)
    end.
    rewrite E. cbn [bind]. eexists. split.
    + rewrite <- !app_assoc. reflexivity.
    + repeat (apply Forall_app; split);
        repeat (constructor; [apply bounded_other; reflexivity|]);
        try constructor; try exact Hb.
Qed.

Lemma header_block_total (sections : dict str) :
  exists nc, header_block sections = Some nc.
Proof.
  unfold header_block. destruct (mem (py "header") sections) eqn:Em; [|eauto].
  apply mem_in_keys in Em. destruct (keys_get _ _ Em) as (h & Eh).
  rewrite Eh. cbn [bind]. destruct (nonempty h); [|eauto].
  pose proof (@split_nl_nonnil h) as Hsp.
  destruct (split_nl h) as [|first rest]; [contradiction|].
  cbn [nth_error bind]. eauto.
Qed.

(** The renderer makes its calls on every text, and draws no body line
    longer than 120 characters and the mark. *)
Lemma create_cv_pdf_total (content : str) :
  exists doc, create_cv_pdf content = Some doc /\ Forall bounded doc.
Proof.
  unfold create_cv_pdf.
  destruct (ParseFacts.parse_stages content)
    as (raw & d1 & d2 & _ & _ & _ & E & _).
  rewrite E. cbn [bind].
  destruct (header_block_total d2) as (nc & En). rewrite En. cbn [bind].
  match goal with
  | |- context [foldM render_section ?l ?doc0] =>
      destruct (@foldM_adds _ render_section bounded render_section_adds l doc0)
        as (calls & Ef & Hb)
  end.
  rewrite Ef. cbn [bind]. eexists. split; [reflexivity|].
  repeat (apply Forall_app; split);
    repeat (constructor; [apply bounded_other; reflexivity|]);
    try constructor; try exact Hb.
Qed.

End WithTables.

End DocFacts.

Module SectionFacts.
Import Dict Re Parser Render StrFacts DictFacts ReFacts ScanFacts PipelineFacts
       RenderFacts BlockFacts DocFacts.

Lemma block_items_subheadings (block : str) :
  count_subheadings (flat_map draw (block_items block)) <= 1.
Proof.
  unfold count_subheadings, block_items.
  destruct (split_nl block) as [|first rest]; [simpl; lia|].
  destruct (is_bullet (strip first)).
  - rewrite body_items_no_subheading. simpl. lia.
  - cbn [flat_map]. rewrite filter_app, body_items_no_subheading.
    simpl. lia.
Qed.

Section WithTables.
Context {T : CaseTables}.

(** A section whose body is one block draws at most one sub-heading. *)
Lemma render_section_one_block (doc : pdf) (k v : str) :
  re_split blank_run v = [v] ->
  exists calls, render_section doc (k, v) = Some (doc ++ calls) /\
                count_subheadings calls <= 1.
Proof.
  intros Hsplit. unfold render_section. cbn [fst snd].
  destruct (str_eqb k (py "header") || negb (nonempty (strip v))) eqn:E.
  - exists []. split; [rewrite app_nil_r; reflexivity | cbv; lia].
  - apply orb_false_iff in E as [_ E]. apply negb_false_iff in E.
    apply nonempty_true in E.
    rewrite Hsplit. cbn [foldM]. rewrite render_item_spec by exact E.
    cbn [bind]. eexists. split; [rewrite <- !app_assoc; reflexivity|].
    pose proof (block_items_subheadings v) as Hc.
    unfold count_subheadings in *.
    rewrite !filter_app, !length_app. simpl. lia.
Qed.

End WithTables.

End SectionFacts.

Section RendererClaims.
Import Dict Re Parser Render StrFacts DictFacts ReFacts ScanFacts PipelineFacts
       ParseFacts ReparseFacts RenderFacts BlockFacts DocFacts SectionFacts.
Context {T : CaseTables}.

(** C5, as the code has it.  A body line (a bullet line or a plain line
    of a block) longer than 120 characters is cut to its first 120
    characters followed by three dots before it is drawn, a shorter one
    is drawn as it is, and so the text of every body line drawn has at
    most 123 characters.  The sub-heading of a block is not a body line
    and is drawn whole. *)
Theorem body_lines_truncated :
  (forall line, 120 < length line ->
                truncated line = firstn 120 line ++ py "...") /\
  (forall line, length line <= 120 -> truncated line = line) /\
  (forall doc raw,
     render_line doc raw = Some (doc ++ flat_map draw (body_item raw))) /\
  (forall content,
     exists doc, create_cv_pdf content = Some doc /\
                 forall c t, In c doc -> body_text c = Some t ->
                             length t <= 123).
Proof.
  split; [|split; [|split]].
  - intros line H. unfold truncated. apply Nat.ltb_lt in H. rewrite H.
    reflexivity.
  - intros line H. unfold truncated. apply Nat.ltb_ge in H. rewrite H.
    reflexivity.
  - apply render_line_spec.
  - intros content. destruct (create_cv_pdf_total content) as (doc & E & Hb).
    exists doc. split; [exact E|]. intros c t Hin Ht.
    rewrite Forall_forall in Hb. exact (Hb c Hin t Ht).
Qed.

(** C10. Every section body returned by the parser is empty or made of
    lines that are trimmed and not empty; split on runs of blank lines it
    is a single block; and the calls that draw the section hold at most
    one sub-heading. *)
Theorem section_body_single_block (content : str) :
  exists d,
    parse_cv_content content = Some d /\
    forall k v, In (k, v) d ->
      (v = [] \/ Forall (fun l => l <> [] /\ strip l = l) (split_nl v)) /\
      re_split blank_run v = [v] /\
      forall doc, exists calls,
        render_section doc (k, v) = Some (doc ++ calls) /\
        count_subheadings calls <= 1.
Proof.
  destruct (parse_stages content)
    as (raw & d1 & d2 & _ & _ & _ & E & _ & _ & _ & _ & _ & Hok & _).
  exists d2. split; [exact E|]. intros k v Hin.
  assert (Hv : body_ok v).
  { unfold bodies_ok in Hok. rewrite Forall_forall in Hok. exact (Hok _ Hin). }
  split; [apply body_ok_lines; exact Hv|].
  pose proof (body_ok_one_block Hv) as Hone.
  split; [exact Hone|]. intros doc. apply render_section_one_block. exact Hone.
Qed.

(** C9, as the code has it.  The body of a section of a parsed text, if
    it is not empty, parses to a mapping in which it stands whole under
    [header] and the five other common sections are empty. *)
Theorem reparse_section_body (content : str) (d : dict str) (k v : str) :
  parse_cv_content content = Some d -> In (k, v) d -> v <> [] ->
  parse_cv_content v =
  Some [(py "header", v); (py "profile", []); (py "experience", []);
        (py "education", []); (py "skills", []); (py "languages", [])].
Proof.
  intros E Hin Hne.
  destruct (parse_stages content)
    as (raw & d1 & d2 & _ & _ & _ & E2 & _ & _ & _ & _ & _ & Hok & _).
  rewrite E in E2. injection E2 as <-.
  unfold bodies_ok in Hok. rewrite Forall_forall in Hok.
  apply (reparse_body (Hok _ Hin) Hne).
Qed.

End RendererClaims.

(** * Concrete texts *)

Section Examples.
Import Dict Re Parser Render.

(** C3, counterexample.  The section found second, after renaming to
    [experience], is listed after the section found third and after the
    empty entry [profile]. *)
Lemma rename_moves_section :
  first_seen cv_renamed =
    [py "header"; py "work experience"; py "education"] /\
  parse_cv_content cv_renamed =
    Some [(py "header", py "Jane"); (py "education", py "MIT");
          (py "profile", []); (py "experience", py "Acme");
          (py "skills", []); (py "languages", [])].
Proof. split; vm_compute; reflexivity. Qed.

(** C6, counterexample.  The line of two asterisks starts and ends with
    two asterisks and is not a heading: it is stored in the current
    section.  And the inner asterisk of a heading line is kept. *)
Lemma bold_marker_counterexample :
  startswith (py "**") (py "**") = true /\
  endswith (py "**") (py "**") = true /\
  heading (py "**") = None /\
  parse_cv_content (join_nl [py "Jane"; py "**"; py "x"]) =
    Some [(py "header", join_nl [py "Jane"; py "**"; py "x"]);
          (py "profile", []); (py "experience", []); (py "education", []);
          (py "skills", []); (py "languages", [])] /\
  heading (py "**a*b**") = Some (py "a*b").
Proof. repeat split; vm_compute; reflexivity. Qed.

(** C6, an instance. *)
Lemma bold_marker_line_witness :
  startswith (py "**") (strip (py "**Skills**")) = true /\
  endswith (py "**") (strip (py "**Skills**")) = true /\
  scan_line (py "header", [(py "header", [])]) (py "**Skills**") =
    Some (py "skills", [(py "header", []); (py "skills", [])]).
Proof.
  split; [reflexivity | split; [reflexivity|]].
  apply (proj1 (proj2 (@bold_marker_line ascii_tables (py "**Skills**")
                         (py "header") [(py "header", [])]
                         eq_refl eq_refl))).
  vm_compute. discriminate.
Defined.

(** A block whose first line is a bullet line has no title. *)
Example bullet_block_has_no_title :
  block_items (join_nl [py "- built things"; py "- led people"]) =
  [BulletLine DASH (py "built things"); BulletLine DASH (py "led people")].
Proof. reflexivity. Qed.

(** C9, counterexample.  The text has two sections that are not empty,
    [header] and [experience]; the body of [experience], parsed again,
    has one, [header]. *)
Lemma reparse_loses_keys :
  parse_cv_content cv_two_sections =
    Some [(py "header", py "Jane"); (py "experience", py "Acme");
          (py "profile", []); (py "education", []); (py "skills", []);
          (py "languages", [])] /\
  option_map nonempty_keys (parse_cv_content cv_two_sections) =
    Some [py "header"; py "experience"] /\
  option_map nonempty_keys (parse_cv_content (py "Acme")) =
    Some [py "header"].
Proof. repeat split; vm_compute; reflexivity. Qed.

(** C9, an instance. *)
Lemma reparse_section_body_witness :
  parse_cv_content (py "Acme") =
  Some [(py "header", py "Acme"); (py "profile", []); (py "experience", []);
        (py "education", []); (py "skills", []); (py "languages", [])].
Proof.
  apply (@reparse_section_body ascii_tables cv_two_sections
           [(py "header", py "Jane"); (py "experience", py "Acme");
            (py "profile", []); (py "education", []); (py "skills", []);
            (py "languages", [])]
           (py "experience") (py "Acme")).
  - vm_compute. reflexivity.
  - simpl. right. left. reflexivity.
  - vm_compute. discriminate.
Defined.

(** C5, counterexample.  A section whose body is one line of 200
    characters: the line is the sub-heading of its block and all its 200
    characters are drawn. *)
Lemma subheading_not_truncated :
  option_map drawn_texts
    (create_cv_pdf (join_nl [py "Jane"; py "SKILLS"; repeat 97%N 200])) =
  Some [py "Jane"; []; py " SKILLS"; repeat 97%N 200].
Proof. vm_compute. reflexivity. Qed.

(** A body line of 200 characters after a sub-heading is cut. *)
Example body_line_truncated :
  option_map drawn_texts
    (create_cv_pdf (join_nl [py "Jane"; py "SKILLS"; py "Tools";
                             repeat 97%N 200])) =
  Some [py "Jane"; []; py " SKILLS"; py "Tools"; repeat 97%N 120 ++ py "..."].
Proof. vm_compute. reflexivity. Qed.

(** C2, the failing text.  A bullet line with the bullet character
    U+2022 makes the renderer draw that character with the core font
    Arial, and the character has no Latin-1 encoding. *)
Lemma create_cv_pdf_bullet_not_latin1 :
  option_map drawn_texts
    (create_cv_pdf (join_nl [py "Jane"; py "SKILLS"; py "Tools";
                             BULLET :: py " Python"])) =
  Some [py "Jane"; []; py " SKILLS"; py "Tools"; [BULLET]; py "Python"] /\
  latin1_encode [BULLET] = None.
Proof. split; vm_compute; reflexivity. Qed.

End Examples.

(** * Further properties of the parser *)

Lemma foldM_preserves (A B : Type) (f : A -> B -> option A)
      (I : A -> Prop) (Q : B -> Prop) :
  (forall a b a', I a -> Q b -> f a b = Some a' -> I a') ->
  forall l a a', Forall Q l -> I a -> foldM f l a = Some a' -> I a'.
Proof.
  intros Hstep. induction l as [|b l IH]; intros a a' Hl Ha E.
  - simpl in E. injection E as <-. exact Ha.
  - inversion Hl as [|? ? Hb Hl']; subst. cbn [foldM] in E.
    destruct (f a b) as [a1|] eqn:E1; cbn [bind] in E; [|discriminate].
    apply (IH a1 a' Hl'); [|exact E]. eapply Hstep; eassumption.
Qed.

Module EmptyFacts.
Import Dict Re Parser StrFacts DictFacts ScanFacts SubseqFacts PipelineFacts
       CanonFacts ParseFacts HeaderFacts ReparseFacts.

Section WithTables.
Context {T : CaseTables}.

(** A line that is not stored leaves every body as it is; if all bodies
    are empty they stay empty. *)
Lemma scan_line_unstored (st st' : str * dict (list str)) (raw : str) :
  is_stored raw = false -> scan_line st raw = Some st' ->
  Forall (fun e => snd e = []) (snd st) ->
  Forall (fun e => snd e = []) (snd st').
Proof.
  destruct st as [cur d]. unfold is_stored, scan_line. intros Hs E Hd.
  destruct (nonempty (strip raw)); cbn [negb andb] in *.
  - destruct (heading (strip raw)) as [name|]; [|discriminate Hs].
    injection E as <-. cbn [snd] in *.
    destruct (mem name d); [exact Hd|].
    apply Forall_set; [exact Hd | reflexivity].
  - injection E as <-. exact Hd.
Qed.

Lemma scan_unstored (content : str) (d : dict (list str)) :
  (forall raw, In raw (split_nl content) -> is_stored raw = false) ->
  scan content = Some d -> Forall (fun e => snd e = []) d.
Proof.
  intros Hall E. unfold scan in E.
  destruct (foldM scan_line (split_nl content) _) as [st|] eqn:Ef;
    cbn [bind] in E; [|discriminate].
  injection E as <-.
  apply (@foldM_preserves _ _ scan_line
           (fun st => Forall (fun e => snd e = []) (snd st))
           (fun raw => is_stored raw = false))
    with (l := split_nl content) (a := (py "header", [(py "header", @nil str)])).
  - intros a b a' Ha Hb Eab. eapply scan_line_unstored; eassumption.
  - apply Forall_forall. exact Hall.
  - constructor; [reflexivity | constructor].
  - exact Ef.
Qed.

Lemma join_sections_empty (d : dict (list str)) :
  Forall (fun e => snd e = []) d ->
  Forall (fun e => strip (snd e) = []) (join_sections d).
Proof.
  intros H. unfold join_sections. apply Forall_map. revert H.
  apply Forall_impl. intros [k ls] E. cbn [snd] in *. subst ls. reflexivity.
Qed.

Lemma cleanup_blank (d : dict str) :
  Forall (fun e => strip (snd e) = []) d -> cleanup d = [].
Proof.
  unfold cleanup. induction d as [|e d IH]; intros H; [reflexivity|].
  inversion H as [|? ? He Hd]; subst. cbn [filter]. rewrite He. cbn [nonempty].
  apply IH. exact Hd.
Qed.

(** With nothing found, the loop adds the six common sections, empty,
    in order. *)
Lemma canonicalize_empty_aux (todo done : list str) :
  done ++ todo = common_sections ->
  foldM ensure_section todo (map (fun c => (c, [])) done) = Some empty_sections.
Proof.
  revert done. induction todo as [|s todo IH]; intros done Hsplit.
  - rewrite app_nil_r in Hsplit. subst done. reflexivity.
  - cbn [foldM].
    set (d := (map (fun c : str => (c, @nil char)) done : dict str)).
    assert (Hkeys : @keys str d = done).
    { unfold d, keys. rewrite map_map. cbn [fst]. apply map_id. }
    pose proof common_nodup as Hnd. rewrite <- Hsplit in Hnd.
    assert (Hs : In s common_sections)
      by (rewrite <- Hsplit; apply in_or_app; right; left; reflexivity).
    assert (Hnotin : ~ In s (keys d)).
    { rewrite Hkeys. apply NoDup_remove_2 in Hnd. intros Hin. apply Hnd.
      apply in_or_app. left. exact Hin. }
    rewrite ensure_section_new; [|exact Hnotin|].
    2:{ intros c Hc. rewrite Hkeys in Hc. apply variant_common; [exact Hs| |].
        - rewrite <- Hsplit. apply in_or_app. left. exact Hc.
        - intros <-. apply Hnotin. rewrite Hkeys. exact Hc. }
    cbn [bind].
    replace (d ++ [(s, [])]) with (map (fun c => (c, @nil char)) (done ++ [s]))
      by (unfold d; rewrite map_app; reflexivity).
    apply IH. rewrite <- app_assoc. exact Hsplit.
Qed.

Lemma canonicalize_empty : canonicalize [] = Some empty_sections.
Proof. apply (@canonicalize_empty_aux common_sections []). reflexivity. Qed.

(** A text without a stored line parses to the six empty sections. *)
Lemma parse_unstored (content : str) :
  (forall raw, In raw (split_nl content) -> is_stored raw = false) ->
  parse_cv_content content = Some empty_sections.
Proof.
  intros Hall.
  destruct (parse_stages content)
    as (raw & d1 & d2 & Es & E1 & Ec & E & Hnd & Hh & _).
  pose proof (join_sections_empty (scan_unstored _ Hall Es)) as Hblank.
  rewrite <- (keys_join_sections raw) in Hnd, Hh.
  assert (Hd1 : d1 = join_sections raw).
  { unfold header_fallback in E1.
    apply mem_in_keys in Hh as Hm. rewrite Hm in E1.
    destruct (keys_get _ _ Hh) as (h & Eh). rewrite Eh in E1. cbn [bind] in E1.
    assert (Hb : strip h = []).
    { rewrite Forall_forall in Hblank. apply (Hblank (py "header", h)).
      apply get_some_in. exact Eh. }
    rewrite Hb in E1. cbn [nonempty negb] in E1.
    rewrite <- (app_nil_r (keys (join_sections raw))) in E1.
    rewrite take_header_skip in E1; [cbn in E1; congruence|].
    apply blank_entries_skip; [exact Hnd | apply incl_refl | exact Hblank]. }
  subst d1. rewrite (cleanup_blank Hblank), canonicalize_empty in Ec.
  rewrite E. symmetry. exact Ec.
Qed.

End WithTables.

End EmptyFacts.

Module PlainFacts.
Import Dict Re Parser StrFacts DictFacts ScanFacts SubseqFacts PipelineFacts
       CanonFacts ParseFacts HeaderFacts ReparseFacts.

Section WithTables.
Context {T : CaseTables}.

(** Lines that are not headings are put under [header], the blank ones
    apart. *)
Lemma scan_plain_lines (lines acc : list str) :
  Forall (fun raw => heading (strip raw) = None) lines ->
  foldM scan_line lines (py "header", [(py "header", acc)]) =
  Some (py "header", [(py "header", acc ++ nonblank_lines lines)]).
Proof.
  revert acc. induction lines as [|raw lines IH]; intros acc H.
  - cbn. rewrite app_nil_r. reflexivity.
  - inversion H as [|? ? Hh Hl]; subst. cbn [foldM].
    unfold scan_line at 1. unfold nonblank_lines. cbn [filter].
    destruct (nonempty (strip raw)) eqn:En; cbn [negb bind map].
    + rewrite Hh. cbn [get]. rewrite str_eqb_refl. cbn [bind set].
      rewrite str_eqb_refl. rewrite (IH _ Hl). unfold nonblank_lines.
      rewrite <- app_assoc. reflexivity.
    + apply (IH _ Hl).
Qed.

Lemma nonblank_lines_ok (lines : list str) :
  Forall (fun raw => ~ In NL raw) lines ->
  Forall (fun raw => heading (strip raw) = None) lines ->
  Forall line_ok (nonblank_lines lines).
Proof.
  unfold nonblank_lines. induction lines as [|raw lines IH]; intros Hn Hh.
  - constructor.
  - inversion Hn as [|? ? Hn1 Hn2]; inversion Hh as [|? ? Hh1 Hh2]; subst.
    cbn [filter]. destruct (nonempty (strip raw)) eqn:En; [|apply IH; assumption].
    cbn [map]. constructor; [|apply IH; assumption].
    repeat split.
    + apply nonempty_true. exact En.
    + apply strip_idem.
    + intros Hin. apply strip_by_incl in Hin. contradiction.
    + exact Hh1.
Qed.

(** The last stages on a mapping with a single section under [header]. *)
Lemma finish_header_only (v : str) :
  body_ok v -> v <> [] ->
  header_fallback [(py "header", v)] = Some [(py "header", v)] /\
  canonicalize (cleanup [(py "header", v)]) = Some (header_only v).
Proof.
  intros Hv Hne. pose proof (body_ok_nonblank Hv Hne) as Hnb. split.
  - unfold header_fallback. cbn [mem existsb fst get].
    rewrite str_eqb_refl. cbn [orb bind]. rewrite Hnb. reflexivity.
  - unfold cleanup. cbn [filter snd]. rewrite Hnb.
    unfold canonicalize. unfold common_sections at 1. cbn [foldM].
    unfold ensure_section at 1. cbn [keys map fst find].
    rewrite variant_self, str_eqb_refl. cbn [negb bind].
    apply (@canonicalize_header_only_aux T v (tl common_sections) []).
    reflexivity.
Qed.

(** *** Which sections can be empty *)

Lemma ensure_section_filled (d d' : dict str) (s : str) :
  In s common_sections -> ensure_section d s = Some d' ->
  Forall filled_or_common d -> Forall filled_or_common d'.
Proof.
  intros Hs E Hd. unfold ensure_section in E.
  destruct (find (variant s) (keys d)) as [e|] eqn:Ef.
  - destruct (str_eqb e s); cbn [negb] in E; [injection E as <-; exact Hd|].
    destruct (pop e d) as [[v d0]|] eqn:Ep; cbn [bind fst snd] in E; [|discriminate].
    injection E as <-. apply pop_inv in Ep as [Hg ->].
    apply Forall_set; [apply Forall_remove; exact Hd|].
    apply get_some_in in Hg. rewrite Forall_forall in Hd.
    destruct (Hd _ Hg) as [Hf | [Hv _]]; cbn [fst snd] in *.
    + left. exact Hf.
    + right. split; [exact Hv | exact Hs].
  - destruct (mem s d); cbn [negb] in E; injection E as <-; [exact Hd|].
    apply Forall_set; [exact Hd|]. right. split; [reflexivity | exact Hs].
Qed.

Lemma canonicalize_filled (todo : list str) (d d' : dict str) :
  incl todo common_sections -> foldM ensure_section todo d = Some d' ->
  Forall filled_or_common d -> Forall filled_or_common d'.
Proof.
  revert d. induction todo as [|s todo IH]; intros d Hincl E Hd.
  - simpl in E. injection E as <-. exact Hd.
  - cbn [foldM] in E.
    destruct (ensure_section d s) as [d1|] eqn:E1; cbn [bind] in E; [|discriminate].
    apply (IH d1); [intros x Hx; apply Hincl; right; exact Hx | exact E |].
    eapply ensure_section_filled; [apply Hincl; left; reflexivity | exact E1 | exact Hd].
Qed.

Lemma cleanup_filled (d : dict str) : Forall filled_or_common (cleanup d).
Proof.
  unfold cleanup. apply Forall_forall. intros e He.
  apply filter_In in He as [_ He]. left. apply nonempty_true. exact He.
Qed.

(** *** Where the keys come from *)

Lemma in_fold_see (names init : list str) (k : str) :
  In k (fold_left see names init) -> In k init \/ In k names.
Proof.
  revert init. induction names as [|n names IH]; intros init H; [left; exact H|].
  cbn [fold_left] in H. apply IH in H as [H|H]; [|right; right; exact H].
  unfold see in H. destruct (existsb (str_eqb n) init); [left; exact H|].
  apply in_app_or in H as [H|[<-|[]]]; [left; exact H | right; left; reflexivity].
Qed.

Lemma in_headings_of (lines : list str) (k : str) :
  In k (headings_of lines) ->
  exists raw, In raw lines /\ heading (strip raw) = Some k.
Proof.
  unfold headings_of. intros H. apply in_flat_map in H as (raw & Hraw & Hk).
  exists raw. split; [exact Hraw|].
  destruct (heading (strip raw)) as [n|]; [|contradiction].
  destruct Hk as [<-|[]]. reflexivity.
Qed.

End WithTables.

End PlainFacts.

(** ** Where the lines of the bodies come from *)

Module OriginFacts.
Import Dict Re Parser StrFacts DictFacts ScanFacts SubseqFacts PipelineFacts
       CanonFacts ParseFacts HeaderFacts.

Section Lines.
Variable Q : str -> Prop.

Lemma made_of_join (ls : list str) :
  Forall Q ls -> Forall (fun l => ~ In NL l) ls -> made_of Q (join_nl ls).
Proof.
  intros HQ Hn. destruct ls as [|l ls']; [left; reflexivity | right].
  rewrite split_join_nl; [exact HQ | discriminate | exact Hn].
Qed.

Lemma Forall_slices (A : Type) (P : A -> Prop) (n : nat) (l : list A) :
  Forall P l -> Forall P (firstn n l) /\ Forall P (skipn n l).
Proof.
  intros H. rewrite <- (firstn_skipn n l) in H. apply Forall_app in H. exact H.
Qed.

Lemma made_of_slices (n : nat) (v : str) :
  made_of Q v ->
  made_of Q (join_nl (firstn n (split_nl v))) /\
  made_of Q (join_nl (skipn n (split_nl v))).
Proof.
  intros [-> | H].
  - cbn [split_nl]. destruct n; cbn; rewrite ?firstn_nil, ?skipn_nil;
      split; left; reflexivity.
  - destruct (Forall_slices n H) as [H1 H2].
    destruct (Forall_slices n (split_nl_no_nl v)) as [N1 N2].
    split; apply made_of_join; assumption.
Qed.

Lemma all_made_of_get (d : dict str) (k v : str) :
  all_made_of Q d -> get k d = Some v -> made_of Q v.
Proof.
  intros Hd Hg. apply get_some_in in Hg.
  unfold all_made_of in Hd. rewrite Forall_forall in Hd. exact (Hd _ Hg).
Qed.

Section WithTables.
Context {T : CaseTables}.

Lemma take_header_made_of (todo : list str) (d d' : dict str) :
  take_header todo d = Some d' -> all_made_of Q d -> all_made_of Q d'.
Proof.
  induction todo as [|section todo IH]; intros E Hd; cbn [take_header] in E.
  - injection E as <-. exact Hd.
  - destruct (get section d) as [body|] eqn:Eb; cbn [bind] in E; [|discriminate].
    destruct (nonempty (strip body)); [|apply IH; assumption].
    pose proof (all_made_of_get _ Hd Eb) as Hbody.
    set (d1 := set (py "header") (join_nl (firstn 5 (split_nl body))) d) in *.
    assert (O1 : all_made_of Q d1).
    { apply Forall_set; [exact Hd|]. apply (made_of_slices 5 Hbody). }
    destruct (get section d1) as [body1|] eqn:Eb1; cbn [bind] in E; [|discriminate].
    injection E as <-. apply Forall_set; [exact O1|].
    apply (made_of_slices 5 (all_made_of_get _ O1 Eb1)).
Qed.

Lemma header_fallback_made_of (d d' : dict str) :
  header_fallback d = Some d' -> all_made_of Q d -> all_made_of Q d'.
Proof.
  unfold header_fallback. intros E Hd.
  destruct (mem (py "header") d); [|injection E as <-; exact Hd].
  destruct (get (py "header") d) as [h|]; cbn [bind] in E; [|discriminate].
  destruct (nonempty (strip h)); cbn [negb] in E.
  - injection E as <-. exact Hd.
  - eapply take_header_made_of; eassumption.
Qed.

Lemma cleanup_made_of (d : dict str) : all_made_of Q d -> all_made_of Q (cleanup d).
Proof.
  unfold all_made_of, cleanup. intros H. apply Forall_forall. intros e He.
  apply filter_In in He as [He _]. rewrite Forall_forall in H. exact (H _ He).
Qed.

Lemma ensure_section_made_of (d d' : dict str) (s : str) :
  ensure_section d s = Some d' -> all_made_of Q d -> all_made_of Q d'.
Proof.
  intros E Hd. unfold ensure_section in E.
  destruct (find (variant s) (keys d)) as [e|].
  - destruct (str_eqb e s); cbn [negb] in E; [injection E as <-; exact Hd|].
    destruct (pop e d) as [[v d0]|] eqn:Ep; cbn [bind fst snd] in E; [|discriminate].
    injection E as <-. apply pop_inv in Ep as [Hg ->].
    apply Forall_set; [apply Forall_remove; exact Hd|].
    exact (all_made_of_get _ Hd Hg).
  - destruct (mem s d); cbn [negb] in E; injection E as <-; [exact Hd|].
    apply Forall_set; [exact Hd | left; reflexivity].
Qed.

Lemma canonicalize_made_of (todo : list str) (d d' : dict str) :
  foldM ensure_section todo d = Some d' -> all_made_of Q d -> all_made_of Q d'.
Proof.
  revert d. induction todo as [|s todo IH]; intros d E Hd.
  - simpl in E. injection E as <-. exact Hd.
  - cbn [foldM] in E.
    destruct (ensure_section d s) as [d1|] eqn:E1; cbn [bind] in E; [|discriminate].
    apply (IH d1 E). eapply ensure_section_made_of; eassumption.
Qed.

End WithTables.

End Lines.

Section WithTables.
Context {T : CaseTables}.

Lemma stored_line_no_nl (content l : str) :
  stored_line_of content l -> ~ In NL l.
Proof.
  intros (raw & Hraw & -> & _) Hin. apply strip_by_incl in Hin.
  pose proof (split_nl_no_nl content) as Hn. rewrite Forall_forall in Hn.
  exact (Hn _ Hraw Hin).
Qed.

(** The scan stores only stored lines of the text. *)
Lemma scan_line_origin (content : str) (st st' : str * dict (list str))
      (raw : str) :
  In raw (split_nl content) -> scan_line st raw = Some st' ->
  Forall (fun e => Forall (stored_line_of content) (snd e)) (snd st) ->
  Forall (fun e => Forall (stored_line_of content) (snd e)) (snd st').
Proof.
  destruct st as [cur d]. unfold scan_line. intros Hraw E Hd. cbn [snd] in *.
  destruct (nonempty (strip raw)) eqn:En; cbn [negb] in E.
  2:{ injection E as <-. exact Hd. }
  destruct (heading (strip raw)) as [name|] eqn:Eh.
  - injection E as <-. cbn [snd]. destruct (mem name d); [exact Hd|].
    apply Forall_set; [exact Hd | constructor].
  - destruct (get cur d) as [body|] eqn:Eg; cbn [bind] in E; [|discriminate].
    injection E as <-. cbn [snd]. apply Forall_set; [exact Hd|]. cbn [snd].
    apply Forall_app. split.
    + rewrite Forall_forall in Hd. apply (Hd (cur, body)).
      apply get_some_in. exact Eg.
    + constructor; [|constructor]. exists raw.
      repeat split; [exact Hraw | apply nonempty_true; exact En | exact Eh].
Qed.

End WithTables.

End OriginFacts.

(** ** The header section comes first *)

Module HeadFacts.
Import Dict Re Parser StrFacts DictFacts ScanFacts SubseqFacts PipelineFacts
       CanonFacts ParseFacts HeaderFacts.

Lemma foldM_app (A B : Type) (f : A -> B -> option A) (l1 l2 : list B) (a : A) :
  foldM f (l1 ++ l2) a = (a' <- foldM f l1 a ;; foldM f l2 a').
Proof.
  revert a. induction l1 as [|b l1 IH]; intros a; cbn [app foldM bind];
    [reflexivity|].
  destruct (f a b); cbn [bind]; [apply IH | reflexivity].
Qed.

Lemma some_eq (A : Type) (a b : A) : Some a = Some b -> a = b.
Proof. intros H. injection H as ->. reflexivity. Qed.

Ltac inj_some E := apply some_eq in E; rewrite <- E; clear E.

Lemma common_header : In (py "header") common_sections.
Proof. left. reflexivity. Qed.

Section WithTables.
Context {T : CaseTables}.

Lemma set_cons_ne (V : Type) (k k' : str) (v v' : V) (d : dict V) :
  k' <> k -> set k v ((k', v') :: d) = (k', v') :: set k v d.
Proof. intros H. apply str_eqb_neq in H. cbn [set]. rewrite H. reflexivity. Qed.

Lemma set_cons_eq (V : Type) (k : str) (v v' : V) (d : dict V) :
  set k v ((k, v') :: d) = (k, v) :: d.
Proof. cbn [set]. rewrite str_eqb_refl. reflexivity. Qed.

Lemma get_cons_ne (V : Type) (k k' : str) (v' : V) (d : dict V) :
  k' <> k -> get k ((k', v') :: d) = get k d.
Proof. intros H. apply str_eqb_neq in H. cbn [get]. rewrite H. reflexivity. Qed.

Lemma get_cons_eq (V : Type) (k : str) (v' : V) (d : dict V) :
  get k ((k, v') :: d) = Some v'.
Proof. cbn [get]. rewrite str_eqb_refl. reflexivity. Qed.

Lemma remove_cons_ne (V : Type) (k k' : str) (v' : V) (d : dict V) :
  k' <> k -> remove k ((k', v') :: d) = (k', v') :: remove k d.
Proof. intros H. apply str_eqb_neq in H. cbn [remove]. rewrite H. reflexivity. Qed.

Lemma mem_cons_ne (V : Type) (k k' : str) (v' : V) (d : dict V) :
  k' <> k -> mem k ((k', v') :: d) = mem k d.
Proof.
  intros H. apply str_eqb_neq in H. unfold mem. cbn [existsb fst].
  rewrite H. reflexivity.
Qed.

Lemma mem_cons_eq (V : Type) (k : str) (v' : V) (d : dict V) :
  mem k ((k, v') :: d) = true.
Proof. unfold mem. cbn [existsb fst]. rewrite str_eqb_refl. reflexivity. Qed.

(** A turn of the loop over the common sections leaves the first entry
    alone when it is the header. *)
Lemma ensure_section_head (h : str) (t d' : dict str) (s : str) :
  In s common_sections ->
  ensure_section ((py "header", h) :: t) s = Some d' ->
  exists t', d' = (py "header", h) :: t'.
Proof.
  intros Hs E. unfold ensure_section in E.
  change (keys ((py "header", h) :: t)) with (py "header" :: keys t) in E.
  cbn [find] in E.
  destruct (str_eqb (py "header") s) eqn:Ehs.
  - apply str_eqb_eq in Ehs. subst s. rewrite variant_self in E.
    rewrite str_eqb_refl in E. cbn [negb] in E. inj_some E. eauto.
  - apply str_eqb_neq in Ehs.
    rewrite (variant_common Hs common_header) in E by congruence.
    destruct (find (variant s) (keys t)) as [e|] eqn:Ef.
    + apply find_some in Ef as [He Hv].
      assert (Hne : py "header" <> e).
      { intros <-. rewrite (variant_common Hs common_header) in Hv by congruence.
        discriminate. }
      destruct (str_eqb e s); cbn [negb] in E; [inj_some E; eauto|].
      unfold pop in E. rewrite get_cons_ne, remove_cons_ne in E by exact Hne.
      destruct (get e t) as [v|]; cbn [bind fst snd] in E; [|discriminate].
      inj_some E. rewrite set_cons_ne by exact Ehs. eauto.
    + rewrite mem_cons_ne in E by exact Ehs.
      destruct (mem s t); cbn [negb] in E; inj_some E; [eauto|].
      rewrite set_cons_ne by exact Ehs. eauto.
Qed.

Lemma canonicalize_head (todo : list str) (h : str) (t d' : dict str) :
  incl todo common_sections ->
  foldM ensure_section todo ((py "header", h) :: t) = Some d' ->
  exists t', d' = (py "header", h) :: t'.
Proof.
  revert t. induction todo as [|s todo IH]; intros t Hincl E.
  - simpl in E. inj_some E. eauto.
  - cbn [foldM] in E.
    destruct (ensure_section ((py "header", h) :: t) s) as [d1|] eqn:E1;
      cbn [bind] in E; [|discriminate].
    destruct (ensure_section_head _ _ (Hincl s (or_introl eq_refl)) E1) as (t1 & ->).
    apply (IH t1); [intros x Hx; apply Hincl; right; exact Hx | exact E].
Qed.

(** The scan keeps the header first, and its list only grows at the
    end. *)
Lemma scan_line_head (P : list str -> Prop) (st st' : str * dict (list str))
      (raw : str) :
  (forall ls x, P ls -> P (ls ++ [x])) ->
  scan_line st raw = Some st' ->
  (exists ls t, snd st = (py "header", ls) :: t /\ P ls) ->
  exists ls t, snd st' = (py "header", ls) :: t /\ P ls.
Proof.
  destruct st as [cur d]. intros HP E (ls & t & Hd & Hls). cbn [snd] in Hd.
  subst d. unfold scan_line in E.
  destruct (nonempty (strip raw)); cbn [negb] in E.
  2:{ inj_some E. cbn [snd]. eauto. }
  destruct (heading (strip raw)) as [name|].
  - inj_some E. cbn [snd].
    destruct (str_eqb (py "header") name) eqn:En.
    + apply str_eqb_eq in En. subst name. rewrite mem_cons_eq. eauto.
    + apply str_eqb_neq in En. rewrite mem_cons_ne by exact En.
      destruct (mem name t); [eauto|]. rewrite set_cons_ne by exact En. eauto.
  - destruct (str_eqb (py "header") cur) eqn:Ec.
    + apply str_eqb_eq in Ec. subst cur. rewrite get_cons_eq in E.
      cbn [bind] in E. inj_some E. cbn [snd]. rewrite set_cons_eq. eauto.
    + apply str_eqb_neq in Ec. rewrite get_cons_ne in E by exact Ec.
      destruct (get cur t) as [body|]; cbn [bind] in E; [|discriminate].
      inj_some E. cbn [snd]. rewrite set_cons_ne by exact Ec. eauto.
Qed.

Lemma scan_head (P : list str -> Prop) (lines : list str)
      (st st' : str * dict (list str)) :
  (forall ls x, P ls -> P (ls ++ [x])) ->
  foldM scan_line lines st = Some st' ->
  (exists ls t, snd st = (py "header", ls) :: t /\ P ls) ->
  exists ls t, snd st' = (py "header", ls) :: t /\ P ls.
Proof.
  intros HP E H.
  apply (@foldM_preserves _ _ scan_line
           (fun st => exists ls t, snd st = (py "header", ls) :: t /\ P ls)
           (fun _ => True)) with (l := lines) (a := st); try assumption.
  - intros a b a' Ha _ Eab. eapply scan_line_head; eassumption.
  - apply Forall_forall. tauto.
Qed.

(** *** A stored line makes a body that is not empty *)

Lemma exists_set (d : dict (list str)) (k : str) (v : list str) :
  v <> [] -> In k (keys d) -> Exists (fun e => snd e <> []) (set k v d).
Proof.
  intros Hv. induction d as [|[k' v'] d IH]; cbn [keys map fst]; [intros []|].
  intros Hin. cbn [set]. destruct (str_eqb k' k) eqn:E.
  - apply Exists_cons_hd. exact Hv.
  - apply Exists_cons_tl. apply IH. destruct Hin as [H|H]; [|exact H].
    apply str_eqb_neq in E. contradiction.
Qed.

Lemma exists_set_keep (d : dict (list str)) (k : str) (v : list str) :
  (In k (keys d) -> v <> []) ->
  Exists (fun e => snd e <> []) d -> Exists (fun e => snd e <> []) (set k v d).
Proof.
  intros Hv H. induction d as [|[k' v'] d IH]; [inversion H|].
  cbn [set]. destruct (str_eqb k' k) eqn:E.
  - apply Exists_cons_hd. apply Hv. left. apply str_eqb_eq in E. exact E.
  - inversion H as [? ? Hh|? ? Ht]; subst.
    + apply Exists_cons_hd. exact Hh.
    + apply Exists_cons_tl. apply IH; [|exact Ht].
      intros Hin. apply Hv. right. exact Hin.
Qed.

Lemma scan_line_keeps (st st' : str * dict (list str)) (raw : str) :
  scan_line st raw = Some st' ->
  Exists (fun e => snd e <> []) (snd st) ->
  Exists (fun e => snd e <> []) (snd st').
Proof.
  destruct st as [cur d]. unfold scan_line. intros E H. cbn [snd] in *.
  destruct (nonempty (strip raw)); cbn [negb] in E.
  2:{ inj_some E. exact H. }
  destruct (heading (strip raw)) as [name|].
  - inj_some E. cbn [snd]. destruct (mem name d) eqn:Em; [exact H|].
    apply exists_set_keep; [|exact H].
    intros Hin. apply mem_in_keys in Hin. congruence.
  - destruct (get cur d) as [body|]; cbn [bind] in E; [|discriminate].
    inj_some E. cbn [snd]. apply exists_set_keep; [|exact H].
    intros _ Hnil. apply app_eq_nil in Hnil as [_ Hnil]. discriminate.
Qed.

Lemma scan_line_stores (st st' : str * dict (list str)) (raw : str) :
  is_stored raw = true -> scan_line st raw = Some st' ->
  Exists (fun e => snd e <> []) (snd st').
Proof.
  destruct st as [cur d]. unfold is_stored, scan_line. intros Hs E.
  apply andb_true_iff in Hs as [Hn Hh]. rewrite Hn in E. cbn [negb] in E.
  destruct (heading (strip raw)); [discriminate Hh|].
  destruct (get cur d) as [body|] eqn:Eg; cbn [bind] in E; [|discriminate].
  inj_some E. cbn [snd]. apply exists_set.
  - intros Hnil. apply app_eq_nil in Hnil as [_ Hnil]. discriminate.
  - eapply get_some_keys. exact Eg.
Qed.

Lemma scan_stores (lines : list str) (st st' : str * dict (list str)) :
  (exists raw, In raw lines /\ is_stored raw = true) ->
  foldM scan_line lines st = Some st' ->
  Exists (fun e => snd e <> []) (snd st').
Proof.
  intros (raw & Hin & Hs) E.
  apply in_split in Hin as (l1 & l2 & ->).
  rewrite foldM_app in E.
  destruct (foldM scan_line l1 st) as [st1|]; cbn [bind foldM] in E; [|discriminate].
  destruct (scan_line st1 raw) as [st2|] eqn:E2; cbn [bind] in E; [|discriminate].
  apply (@foldM_preserves _ _ scan_line
           (fun st => Exists (fun e => snd e <> []) (snd st)) (fun _ => True))
    with (l := l2) (a := st2).
  - intros a b a' Ha _ Eab. eapply scan_line_keeps; eassumption.
  - apply Forall_forall. tauto.
  - eapply scan_line_stores; eassumption.
  - exact E.
Qed.

(** *** The header after the fallback *)

Lemma join_nl_nonnil (ls : list str) :
  Forall line_ok ls -> ls <> [] -> join_nl ls <> [].
Proof.
  intros H Hne. destruct ls as [|l ls']; [contradiction|].
  inversion H as [|? ? (Hl & _) _]; subst.
  unfold join_nl. destruct ls'; cbn [join]; [exact Hl|].
  destruct l; [contradiction | discriminate].
Qed.

Lemma first_lines_nonblank (n : nat) (v : str) :
  body_ok v -> strip v <> [] ->
  strip (join_nl (firstn (S n) (split_nl v))) <> [].
Proof.
  intros Hv Hs.
  assert (Hne : v <> []) by (intros ->; apply Hs; reflexivity).
  destruct (body_ok_split Hv Hne) as (ls & Hls & _ & -> & Hok).
  destruct ls as [|l ls']; [contradiction|].
  assert (Hf : Forall line_ok (firstn (S n) (l :: ls'))).
  { rewrite <- (firstn_skipn (S n) (l :: ls')) in Hok.
    apply Forall_app in Hok as [H _]. exact H. }
  apply nonempty_true. apply body_ok_nonblank.
  - eexists. split; [reflexivity | exact Hf].
  - apply join_nl_nonnil; [exact Hf | discriminate].
Qed.

(** If the header is blank and some section is not, the fallback fills
    the header. *)
Lemma take_header_fills (todo : list str) (d d' : dict str) (h0 : str) :
  bodies_ok d -> get (py "header") d = Some h0 -> strip h0 = [] ->
  (exists k b, In k todo /\ get k d = Some b /\ strip b <> []) ->
  take_header todo d = Some d' ->
  exists h, get (py "header") d' = Some h /\ strip h <> [].
Proof.
  intros Hok Hh Hb. induction todo as [|section todo IH]; intros (k & b & Hk & Hg & Hnb) E.
  - destruct Hk.
  - cbn [take_header] in E.
    destruct (get section d) as [body|] eqn:Eb; cbn [bind] in E; [|discriminate].
    destruct (nonempty (strip body)) eqn:En.
    + apply nonempty_true in En.
      assert (Hne : py "header" <> section).
      { intros <-. rewrite Hh in Eb. injection Eb as <-. contradiction. }
      rewrite get_set_other in E by exact Hne. rewrite Eb in E. cbn [bind] in E.
      inj_some E. eexists. split.
      * rewrite get_set_other by congruence. apply get_set_same.
      * apply first_lines_nonblank; [|exact En].
        eapply bodies_ok_get; eassumption.
    + apply nonempty_false in En. apply IH; [|exact E].
      exists k, b. split; [|split; assumption].
      destruct Hk as [<-|Hk]; [|exact Hk].
      rewrite Hg in Eb. injection Eb as <-. contradiction.
Qed.

Lemma cleanup_head (h : str) (t : dict str) :
  strip h <> [] ->
  cleanup ((py "header", h) :: t) = (py "header", h) :: cleanup t.
Proof.
  intros H. apply nonempty_true in H. unfold cleanup. cbn [filter snd].
  rewrite H. reflexivity.
Qed.

End WithTables.

End HeadFacts.

(** * Further properties of the renderer *)

Module LayoutFacts.
Import Dict Re Parser Render StrFacts DictFacts ReFacts ScanFacts PipelineFacts
       CanonFacts ParseFacts RenderFacts BlockFacts DocFacts HeadFacts.

Lemma banner_texts_app (a b : pdf) :
  banner_texts (a ++ b) = banner_texts a ++ banner_texts b.
Proof. unfold banner_texts. apply flat_map_app. Qed.

Lemma banner_texts_items (items : list RenderItem) :
  banner_texts (flat_map draw items) = [].
Proof.
  induction items as [|i items IH]; [reflexivity|].
  cbn [flat_map]. rewrite banner_texts_app, IH. destruct i; reflexivity.
Qed.

Section WithTables.
Context {T : CaseTables}.

(** A section of the parsed text is drawn as its layout. *)
Lemma render_section_layout (doc : pdf) (k v : str) :
  body_ok v -> render_section doc (k, v) = Some (doc ++ section_layout (k, v)).
Proof.
  intros Hv. unfold render_section, section_layout, drawn_section. cbn [fst snd].
  destruct (str_eqb k (py "header")); cbn [negb orb andb].
  - rewrite app_nil_r. reflexivity.
  - destruct (nonempty (strip v)) eqn:En; cbn [negb].
    + rewrite (body_ok_one_block Hv). cbn [foldM].
      apply nonempty_true in En. rewrite render_item_spec by exact En.
      cbn [bind]. rewrite <- !app_assoc. reflexivity.
    + rewrite app_nil_r. reflexivity.
Qed.

Lemma render_sections_layout (d : dict str) (doc : pdf) :
  bodies_ok d ->
  foldM render_section d doc = Some (doc ++ flat_map section_layout d).
Proof.
  revert doc. induction d as [|[k v] d IH]; intros doc H.
  - cbn. rewrite app_nil_r. reflexivity.
  - inversion H as [|? ? Hv Hd]; subst. cbn [foldM snd] in *.
    rewrite (render_section_layout doc k Hv). cbn [bind].
    rewrite (IH _ Hd). cbn [flat_map]. rewrite <- app_assoc. reflexivity.
Qed.

(** The document of a text: the preamble with the name and the contact
    line, the layouts of the sections of the parsed text, in order, and
    the output. *)
Lemma create_cv_pdf_layout (content : str) :
  exists d name contact,
    parse_cv_content content = Some d /\
    header_block d = Some (name, contact) /\
    create_cv_pdf content =
    Some (preamble name (join (py " | ") (filter nonempty contact))
          ++ flat_map section_layout d ++ [Output]).
Proof.
  destruct (parse_stages content)
    as (raw & d1 & d2 & _ & _ & _ & E & _ & _ & _ & _ & _ & Hok & _).
  destruct (header_block_total d2) as ([name contact] & En).
  exists d2, name, contact. split; [exact E|]. split; [exact En|].
  unfold create_cv_pdf. rewrite E. cbn [bind]. rewrite En. cbn [bind fst snd].
  rewrite (render_sections_layout _ Hok). cbn [bind].
  unfold preamble. rewrite <- !app_assoc. reflexivity.
Qed.

Lemma banner_texts_sections (d : dict str) :
  banner_texts (flat_map section_layout d) =
  map (fun e => py " " ++ upper (fst e)) (filter drawn_section d).
Proof.
  induction d as [|e d IH]; [reflexivity|].
  cbn [flat_map filter]. rewrite banner_texts_app, IH.
  unfold section_layout. destruct (drawn_section e); [|reflexivity].
  rewrite !banner_texts_app, banner_texts_items. reflexivity.
Qed.

(** *** The name *)

Lemma scan_blank_lines (blanks : list str) (st : str * dict (list str)) :
  Forall (fun b => strip b = []) blanks -> foldM scan_line blanks st = Some st.
Proof.
  induction blanks as [|b blanks IH]; intros H; [reflexivity|].
  inversion H as [|? ? Hb Hbs]; subst. cbn [foldM].
  unfold scan_line at 1. destruct st as [cur d]. rewrite Hb. cbn [nonempty negb bind].
  apply IH. exact Hbs.
Qed.

(** If the first line of the text that is not blank is stored, the
    header is the first section and that line is its first line. *)
Lemma parse_first_line (content : str) (blanks : list str) (raw : str)
      (rest : list str) :
  split_nl content = blanks ++ raw :: rest ->
  Forall (fun b => strip b = []) blanks -> is_stored raw = true ->
  exists ls t,
    parse_cv_content content = Some ((py "header", join_nl (strip raw :: ls)) :: t) /\
    split_nl (join_nl (strip raw :: ls)) = strip raw :: ls /\
    join_nl (strip raw :: ls) <> [].
Proof.
  intros Hsplit Hblank Hst.
  destruct (scan_total content) as (d & Es & _ & Hlok & _).
  unfold scan in Es.
  destruct (foldM scan_line (split_nl content) _) as [st|] eqn:Ef;
    cbn [bind] in Es; [|discriminate].
  apply some_eq in Es. subst d.
  assert (Hhead : exists ls t, snd st = (py "header", ls) :: t /\
                               exists r, ls = strip raw :: r).
  { rewrite Hsplit, foldM_app, (scan_blank_lines _ Hblank) in Ef.
    cbn [bind foldM] in Ef. unfold is_stored in Hst.
    apply andb_true_iff in Hst as [Hn Hh].
    unfold scan_line at 1 in Ef. rewrite Hn in Ef. cbn [negb] in Ef.
    destruct (heading (strip raw)); [discriminate Hh|].
    rewrite get_cons_eq in Ef. cbn [bind app] in Ef. rewrite set_cons_eq in Ef.
    apply (@scan_head T (fun ls => exists r, ls = strip raw :: r) rest
             (py "header", [(py "header", [strip raw])]) st); [|exact Ef|].
    - intros ls x (r & ->). exists (r ++ [x]). reflexivity.
    - exists [strip raw], []. split; [reflexivity | exists []; reflexivity]. }
  destruct Hhead as (ls0 & t0 & Hraw & r & ->).
  assert (Hl : Forall line_ok (strip raw :: r)).
  { unfold lines_ok in Hlok. rewrite Forall_forall in Hlok.
    apply (Hlok (py "header", strip raw :: r)). rewrite Hraw. left. reflexivity. }
  set (h := join_nl (strip raw :: r)).
  assert (Hh0 : h <> []) by (apply join_nl_nonnil; [exact Hl | discriminate]).
  assert (Hb : body_ok h) by (exists (strip raw :: r); split; [reflexivity | exact Hl]).
  pose proof (body_ok_nonblank Hb Hh0) as Hnb.
  destruct (canonicalize_total ((py "header", h) :: cleanup (join_sections t0)))
    as (d2 & Ec & _).
  destruct (@canonicalize_head T common_sections h _ d2 (incl_refl _) Ec) as (t2 & ->).
  exists r, t2. fold h. split; [|split; [|exact Hh0]].
  - unfold parse_cv_content, scan. rewrite Ef. cbn [bind]. rewrite Hraw.
    unfold join_sections. cbn [map fst snd]. fold h. fold (join_sections t0).
    unfold header_fallback. rewrite mem_cons_eq, get_cons_eq. cbn [bind].
    rewrite Hnb. cbn [negb bind].
    rewrite cleanup_head by (apply nonempty_true; exact Hnb). exact Ec.
  - unfold h. apply split_join_nl; [discriminate|].
    revert Hl. apply Forall_impl. intros l (_ & _ & Hn & _). exact Hn.
Qed.

Lemma header_block_head (h first : str) (ls : list str) (t : dict str) :
  h <> [] -> split_nl h = first :: ls ->
  header_block ((py "header", h) :: t) =
  Some (strip (strip_chars (py "*") first),
        map strip (filter (fun line => nonempty (strip line)) ls)).
Proof.
  intros Hne Hs. unfold header_block. rewrite mem_cons_eq, get_cons_eq.
  cbn [bind]. apply nonempty_true in Hne. rewrite Hne, Hs. reflexivity.
Qed.

End WithTables.

End LayoutFacts.

(** * Sections with distinct headings *)

Module GroupFacts.
Import Dict Re Parser StrFacts DictFacts ScanFacts PipelineFacts HeadFacts
       PlainFacts.

Lemma get_app_new (V : Type) (k : str) (v : V) (d : dict V) :
  ~ In k (keys d) -> get k (d ++ [(k, v)]) = Some v.
Proof.
  induction d as [|[k' v'] d IH]; intros H.
  - cbn [app]. apply get_cons_eq.
  - cbn [app]. rewrite get_cons_ne; [apply IH|]; intros E; apply H.
    + right. exact E.
    + left. exact E.
Qed.

Lemma set_app_last (V : Type) (k : str) (v v' : V) (d : dict V) :
  ~ In k (keys d) -> set k v' (d ++ [(k, v)]) = d ++ [(k, v')].
Proof.
  induction d as [|[k0 v0] d IH]; intros H.
  - cbn [app]. apply set_cons_eq.
  - cbn [app]. rewrite set_cons_ne; [rewrite IH; [reflexivity|]|];
      intros E; apply H; [right | left]; exact E.
Qed.

Section WithTables.
Context {T : CaseTables}.

(** The lines after a new heading go to its section, the last one of
    the mapping. *)
Lemma scan_body_lines (body acc : list str) (name : str) (d : dict (list str)) :
  ~ In name (keys d) ->
  Forall (fun raw => heading (strip raw) = None) body ->
  foldM scan_line body (name, d ++ [(name, acc)]) =
  Some (name, d ++ [(name, acc ++ nonblank_lines body)]).
Proof.
  intros Hn. revert acc. induction body as [|raw body IH]; intros acc H.
  - cbn. rewrite app_nil_r. reflexivity.
  - inversion H as [|? ? Hh Hb]; subst. cbn [foldM].
    unfold scan_line at 1. unfold nonblank_lines. cbn [filter].
    destruct (nonempty (strip raw)) eqn:En; cbn [negb bind map].
    + rewrite Hh, get_app_new by exact Hn. cbn [bind].
      rewrite set_app_last by exact Hn. rewrite (IH _ Hb).
      unfold nonblank_lines. rewrite <- app_assoc. reflexivity.
    + apply (IH _ Hb).
Qed.

Lemma scan_groups_aux (groups : list group) (cur : str) (d : dict (list str)) :
  Forall group_ok groups ->
  NoDup (keys d ++ map g_name groups) ->
  exists cur',
    foldM scan_line (flat_map group_lines groups) (cur, d) =
    Some (cur', d ++ map group_entry groups).
Proof.
  revert cur d. induction groups as [|g gs IH]; intros cur d Hok Hnd.
  - exists cur. cbn. rewrite app_nil_r. reflexivity.
  - inversion Hok as [|? ? (Hh & Hb) Hgs]; subst.
    cbn [flat_map]. unfold group_lines at 1. cbn [app foldM].
    assert (Hnew : ~ In (g_name g) (keys d)).
    { cbn [map] in Hnd. apply NoDup_remove_2 in Hnd. intros Hin. apply Hnd.
      apply in_or_app. left. exact Hin. }
    unfold scan_line at 1.
    assert (Hne : nonempty (strip (g_heading g)) = true).
    { destruct (strip (g_heading g)); [|reflexivity].
      rewrite heading_nil in Hh. discriminate. }
    rewrite Hne, Hh. cbn [negb bind].
    apply mem_false_keys in Hnew as Hm. rewrite Hm.
    rewrite (@set_new (list str)) by exact Hnew.
    pose proof (@scan_body_lines (g_body g) [] (g_name g) d Hnew Hb) as Hbody.
    cbn [app] in Hbody.
    destruct (IH (g_name g) (d ++ [(g_name g, nonblank_lines (g_body g))]) Hgs)
      as (cur' & E).
    + unfold keys. rewrite map_app. cbn [map fst]. rewrite <- app_assoc.
      exact Hnd.
    + exists cur'. rewrite HeadFacts.foldM_app.
      etransitivity; [apply (f_equal (fun o => bind o _)); exact Hbody|].
      cbn [bind]. etransitivity; [exact E|].
      rewrite <- app_assoc. reflexivity.
Qed.

End WithTables.

End GroupFacts.

(** * Further properties of the heading detectors *)

Module RuleFacts.
Import Dict Re Parser StrFacts DictFacts ReFacts DetectFacts.

Lemma greedy_top (A : Type) (f : nat -> option A) (lo hi : nat) (r : A) :
  lo <= hi -> f hi = Some r -> greedy f lo hi = Some r.
Proof.
  intros Hle E. destruct hi; cbn [greedy];
    (replace (lo <=? _) with true by (symmetry; apply Nat.leb_le; exact Hle));
    rewrite E; reflexivity.
Qed.

Lemma takewhile_prefix (p : char -> bool) (pre post : str) :
  forallb p pre = true -> stops p post -> takewhile p (pre ++ post) = pre.
Proof.
  intros Hpre Hpost. induction pre as [|c pre IH]; cbn [app].
  - destruct post as [|c post]; [reflexivity|]. cbn [stops] in Hpost.
    cbn [takewhile]. rewrite Hpost. reflexivity.
  - cbn [forallb] in Hpre. apply andb_true_iff in Hpre as [Hc Hp].
    cbn [takewhile]. rewrite Hc, IH by exact Hp. reflexivity.
Qed.

Lemma skipn_prefix (pre post : str) : skipn (length pre) (pre ++ post) = post.
Proof. induction pre; [reflexivity | exact IHpre]. Qed.

Lemma firstn_prefix (pre post : str) : firstn (length pre) (pre ++ post) = pre.
Proof. induction pre; cbn; [reflexivity | f_equal; exact IHpre]. Qed.

(** A repetition takes the whole run of the class when the rest of the
    pattern matches what follows the run. *)
Lemma run_many_top (p : char -> bool) (lo : nat) (r' : regex)
      (whole pre post : str) (opened : option str) (caps : list str)
      (res : str * list str) :
  forallb p pre = true -> stops p post -> lo <= length pre ->
  run r' whole post opened caps = Some res ->
  run (Many p lo :: r') whole (pre ++ post) opened caps = Some res.
Proof.
  intros Hpre Hpost Hlo E. cbn [run].
  rewrite (@takewhile_prefix p pre post Hpre Hpost).
  apply greedy_top; [exact Hlo|]. rewrite skipn_prefix. exact E.
Qed.

Lemma run_many_zero (p : char -> bool) (r' : regex)
      (whole post : str) (opened : option str) (caps : list str)
      (res : str * list str) :
  stops p post ->
  run r' whole post opened caps = Some res ->
  run (Many p 0 :: r') whole post opened caps = Some res.
Proof.
  intros Hpost E.
  apply (@run_many_top p 0 r' whole [] post opened caps res);
    [reflexivity | exact Hpost | apply Nat.le_0_l | exact E].
Qed.

Lemma forallb_repeat (p : char -> bool) (c : char) (n : nat) :
  p c = true -> forallb p (repeat c n) = true.
Proof.
  intros H. induction n; cbn; [reflexivity|]. rewrite H. exact IHn.
Qed.

Lemma takewhile_dropwhile (p : char -> bool) (s : str) :
  s = takewhile p s ++ dropwhile p s.
Proof.
  induction s as [|c s IH]; [reflexivity|]. cbn.
  destruct (p c); cbn; [f_equal; exact IH | reflexivity].
Qed.

Lemma takewhile_forallb (p : char -> bool) (s : str) :
  forallb p (takewhile p s) = true.
Proof.
  induction s as [|c s IH]; [reflexivity|]. cbn.
  destruct (p c) eqn:E; [cbn; rewrite E; exact IH | reflexivity].
Qed.

Lemma dropwhile_stops (p : char -> bool) (s : str) : stops p (dropwhile p s).
Proof.
  destruct (dropwhile p s) as [|c r] eqn:E; [exact I|].
  cbn [stops]. eapply dropwhile_head. exact E.
Qed.

Lemma dropwhile_idem (p : char -> bool) (s : str) :
  dropwhile p (dropwhile p s) = dropwhile p s.
Proof.
  pose proof (dropwhile_stops p s) as H.
  destruct (dropwhile p s) as [|c r]; [reflexivity|].
  cbn [stops] in H. cbn [dropwhile]. rewrite H. reflexivity.
Qed.

Lemma strip_dropwhile (s : str) : strip (dropwhile isspace s) = strip s.
Proof. unfold strip, strip_by. rewrite dropwhile_idem. reflexivity. Qed.

Lemma not_dash_all (m : str) : ~ In DASH m -> forallb not_dash m = true.
Proof.
  intros H. apply forallb_forall. intros c Hc. unfold not_dash.
  apply negb_true_iff. apply N.eqb_neq. intros ->. contradiction.
Qed.

Lemma run_gclose (r' : regex) (whole s s0 : str) (caps : list str) :
  run (GClose :: r') whole s (Some s0) caps =
  run r' whole s None (caps ++ [firstn (length s0 - length s) s0]).
Proof. reflexivity. Qed.

(** The dashed-rule pattern on a line made of three or more dashes, a
    middle part without a dash that is not blank, and three or more
    dashes: the group is the middle part without its leading white
    space. *)
Lemma rule_run (a b : nat) (m : str) :
  3 <= a -> 3 <= b -> ~ In DASH m -> dropwhile isspace m <> [] ->
  let s := repeat DASH a ++ m ++ repeat DASH b in
  run rule_pattern s s None [] = Some ([], [dropwhile isspace m]).
Proof.
  intros Ha Hb Hm Hne.
  set (Da := repeat DASH a). set (Db := repeat DASH b).
  assert (Hsplit : m = takewhile isspace m ++ dropwhile isspace m)
    by apply takewhile_dropwhile.
  pose proof (dropwhile_stops isspace m) as Hstop.
  remember (dropwhile isspace m) as m' eqn:Em'.
  assert (Hm' : ~ In DASH m').
  { intros Hin. apply Hm. rewrite Hsplit. apply in_or_app. right. exact Hin. }
  assert (SDb : forall p, p DASH = false -> stops p Db).
  { intros p Hp. unfold Db. destruct b; [lia|]. exact Hp. }
  assert (Sm : stops is_dash (m ++ Db)).
  { destruct m as [|c r]; [contradiction Hne; reflexivity|]. cbn [app stops].
    apply N.eqb_neq. intros ->. apply Hm. left. reflexivity. }
  assert (Sw : stops isspace (m' ++ Db)).
  { destruct m'; [contradiction Hne; reflexivity | exact Hstop]. }
  assert (S0 : stops isspace (Da ++ m ++ Db)).
  { unfold Da. destruct a; [lia|]. reflexivity. }
  intros s. subst s. unfold rule_pattern. cbn [run]. rewrite Nat.eqb_refl.
  change (run (Many isspace 0 :: Many is_dash 3 :: Many isspace 0 :: GOpen ::
               Many not_dash 1 :: GClose :: Many isspace 0 :: Many is_dash 3 ::
               Many isspace 0 :: [Eos])
              (Da ++ m ++ Db) (Da ++ m ++ Db) None [] = Some ([], [m'])).
  apply run_many_zero; [exact S0|].
  apply run_many_top;
    [apply forallb_repeat; reflexivity | exact Sm
     | unfold Da; rewrite repeat_length; exact Ha |].
  rewrite Hsplit at 2. rewrite <- app_assoc.
  apply run_many_top;
    [apply takewhile_forallb | exact Sw | apply Nat.le_0_l |].
  change (run (Many not_dash 1 :: GClose :: Many isspace 0 :: Many is_dash 3 ::
               Many isspace 0 :: [Eos])
              (Da ++ m ++ Db) (m' ++ Db) (Some (m' ++ Db)) [] =
          Some ([], [m'])).
  apply run_many_top;
    [apply not_dash_all; exact Hm' | apply SDb; reflexivity
     | destruct m'; [contradiction Hne; reflexivity | cbn; lia] |].
  replace (run (GClose :: Many isspace 0 :: Many is_dash 3 ::
                Many isspace 0 :: [Eos])
               (Da ++ m ++ Db) Db (Some (m' ++ Db)) [])
    with (run (Many isspace 0 :: Many is_dash 3 :: Many isspace 0 :: [Eos])
              (Da ++ m ++ Db) Db None [m']).
  2:{ rewrite run_gclose.
      replace (length (m' ++ Db) - length Db) with (length m')
        by (rewrite length_app; lia).
      rewrite firstn_prefix. reflexivity. }
  apply run_many_zero; [apply SDb; reflexivity|].
  rewrite <- (app_nil_r Db).
  apply run_many_top;
    [apply forallb_repeat; reflexivity | exact I
     | unfold Db; rewrite repeat_length; exact Hb |].
  apply run_many_zero; [exact I|]. reflexivity.
Qed.

Lemma rule_match (a b : nat) (m : str) :
  3 <= a -> 3 <= b -> ~ In DASH m -> dropwhile isspace m <> [] ->
  re_match rule_pattern (repeat DASH a ++ m ++ repeat DASH b) =
  Some [dropwhile isspace m].
Proof.
  intros Ha Hb Hm Hne. unfold re_match.
  rewrite (@rule_run a b m Ha Hb Hm Hne). reflexivity.
Qed.

(** Neither the bold pattern nor the dashed-rule pattern matches a line
    whose first character is not white space and not the marker. *)
Lemma bold_head_none (c : char) (r : str) :
  isspace c = false -> is_star c = false ->
  re_match bold_pattern (c :: r) = None.
Proof.
  intros Hs Hc. unfold re_match, bold_pattern. cbn [run]. rewrite Nat.eqb_refl.
  cbn [takewhile]. rewrite Hs. cbn [length greedy Nat.leb skipn]. rewrite Hc.
  reflexivity.
Qed.

Lemma rule_head_none (c : char) (r : str) :
  isspace c = false -> is_dash c = false ->
  re_match rule_pattern (c :: r) = None.
Proof.
  intros Hs Hc. unfold re_match, rule_pattern. cbn [run]. rewrite Nat.eqb_refl.
  cbn [takewhile]. rewrite Hs. cbn [length greedy Nat.leb skipn takewhile].
  rewrite Hc. reflexivity.
Qed.

Lemma shout_none (s : str) :
  length s < 5 \/ forallb AZ_or_space s = false ->
  re_match shout_pattern s = None.
Proof.
  intros H. destruct (re_match shout_pattern s) as [m|] eqn:E; [|reflexivity].
  apply shout_match_groups in E as Hm. subst m.
  apply shout_match_iff in E as [Hlen Hall].
  destruct H as [H|H]; [lia | congruence].
Qed.

End RuleFacts.

(** * The helpers of the interface *)

Module HelperFacts.
Import Dict Helpers StrFacts DictFacts.

Lemma replace_char_app (old : char) (new a b : str) :
  replace_char old new (a ++ b) =
  replace_char old new a ++ replace_char old new b.
Proof. unfold replace_char. apply flat_map_app. Qed.

Lemma replace_char_gone (old : char) (new s : str) :
  ~ In old new -> ~ In old (replace_char old new s).
Proof.
  intros Hnew Hin. unfold replace_char in Hin.
  apply in_flat_map in Hin as (c & _ & Hc).
  destruct (N.eqb c old) eqn:E; [contradiction|].
  destruct Hc as [<-|[]]. apply N.eqb_neq in E. congruence.
Qed.

Lemma replace_char_keeps_out (old c : char) (new s : str) :
  ~ In c new -> ~ In c s -> ~ In c (replace_char old new s).
Proof.
  intros Hnew Hs Hin. unfold replace_char in Hin.
  apply in_flat_map in Hin as (x & Hx & Hc).
  destruct (N.eqb x old); [contradiction|].
  destruct Hc as [<-|[]]. contradiction.
Qed.

Lemma replace_char_absent (old : char) (new s : str) :
  ~ In old s -> replace_char old new s = s.
Proof.
  intros H. induction s as [|c s IH]; [reflexivity|].
  unfold replace_char in *. cbn [flat_map].
  destruct (N.eqb c old) eqn:E.
  - apply N.eqb_eq in E. subst c. contradiction H. left. reflexivity.
  - cbn [app]. f_equal. apply IH. intros Hin. apply H. right. exact Hin.
Qed.

Lemma escaped_quotes (t : str) :
  quotes_escaped (replace_char QUOTE [BACKSLASH; QUOTE] t).
Proof.
  unfold quotes_escaped, replace_char.
  induction t as [|c t IH]; intros pre post E.
  - destruct pre; discriminate E.
  - cbn [flat_map] in E. destruct (N.eqb c QUOTE) eqn:Ec.
    + destruct pre as [|x [|y pre]]; cbn [app] in E.
      * discriminate E.
      * injection E as <- _. exists []. reflexivity.
      * injection E as <- <- E. destruct (IH _ _ E) as [p ->].
        exists (BACKSLASH :: QUOTE :: p). reflexivity.
    + destruct pre as [|x pre]; cbn [app] in E.
      * injection E as -> _. discriminate Ec.
      * injection E as <- E. destruct (IH _ _ E) as [p ->].
        exists (c :: p). reflexivity.
Qed.

Lemma get_cons (V : Type) (k k' : str) (v : V) (d : dict V) :
  get k ((k', v) :: d) = if str_eqb k' k then Some v else get k d.
Proof. reflexivity. Qed.

Lemma in_cons_eqb (k k' : str) (l : list str) :
  str_eqb k' k = false -> In k (k' :: l) -> In k l.
Proof.
  intros E [H|H]; [|exact H]. apply str_eqb_neq in E. contradiction.
Qed.

End HelperFacts.

(** * The parser: further results *)

Section ParserProperties.
Import Dict Re Parser StrFacts DictFacts ScanFacts SubseqFacts PipelineFacts
       CanonFacts OrderFacts ParseFacts HeaderFacts EmptyFacts PlainFacts
       OriginFacts HeadFacts GroupFacts RuleFacts.
Context {T : CaseTables}.

(** X1. A text none of whose lines is stored, every line being blank or
    a heading, parses to the six common sections, in the order of the
    vocabulary, all empty: the headings found leave no key. *)
Theorem parse_no_stored_line (content : str) :
  (forall raw, In raw (split_nl content) -> is_stored raw = false) ->
  parse_cv_content content = Some empty_sections.
Proof. exact (@parse_unstored T content). Qed.

(** X2. A text without a heading line and with a line that is not blank
    goes whole under [header]: its lines that are not blank, trimmed and
    joined by newlines; the other five common sections follow, empty. *)
Theorem parse_heading_free_text (content : str) :
  (forall raw, In raw (split_nl content) -> heading (strip raw) = None) ->
  nonblank_lines (split_nl content) <> [] ->
  parse_cv_content content =
  Some (header_only (join_nl (nonblank_lines (split_nl content)))).
Proof.
  intros Hh Hne.
  assert (Hall : Forall (fun raw => heading (strip raw) = None) (split_nl content))
    by (apply Forall_forall; exact Hh).
  pose proof (nonblank_lines_ok (split_nl_no_nl content) Hall) as Hok.
  set (ls := nonblank_lines (split_nl content)) in *.
  assert (Hv : body_ok (join_nl ls)) by (exists ls; split; [reflexivity | exact Hok]).
  assert (Hv0 : join_nl ls <> []).
  { destruct ls as [|l ls']; [contradiction|].
    inversion Hok as [|? ? (Hl & _) _]; subst.
    unfold join_nl. destruct ls'; cbn [join]; [exact Hl|].
    destruct l; [contradiction | discriminate]. }
  destruct (finish_header_only Hv Hv0) as [E1 E2].
  unfold parse_cv_content, scan.
  rewrite (scan_plain_lines [] Hall). cbn [bind snd app]. fold ls.
  unfold join_sections. cbn [map fst snd].
  rewrite E1. cbn [bind]. exact E2.
Qed.

(** X3. In the mapping returned for any text, a section whose body is
    blank has the empty body and a key of the common vocabulary: no
    section named by a heading of the text is returned blank. *)
Theorem parse_empty_bodies_common (content : str) :
  exists d, parse_cv_content content = Some d /\ Forall filled_or_common d.
Proof.
  destruct (parse_stages content)
    as (raw & d1 & d2 & _ & _ & Ec & E & _).
  exists d2. split; [exact E|].
  unfold canonicalize in Ec.
  apply (@canonicalize_filled T common_sections (cleanup d1) d2);
    [apply incl_refl | exact Ec | apply cleanup_filled].
Qed.

(** X4. Every key of the mapping returned for a text is a name of the
    common vocabulary or the section name of a heading line of the
    text. *)
Theorem parse_keys_from_headings (content : str) :
  exists d, parse_cv_content content = Some d /\
    forall k, In k (keys d) ->
      In k common_sections \/
      exists raw, In raw (split_nl content) /\ heading (strip raw) = Some k.
Proof.
  destruct (parse_stages content)
    as (raw & d1 & d2 & Es & _ & Ec & E & _ & _ & Ek & _).
  exists d2. split; [exact E|]. intros k Hk.
  unfold canonicalize in Ec.
  destruct (@canonicalize_keys_aux T common_sections [] (cleanup d1) d2
              (keys (cleanup d1)) [] eq_refl (eq_sym (app_nil_r _))
              (subseq_refl []) Ec)
    as (kept' & app' & Ekeys & Hkept & Happ).
  rewrite Ekeys in Hk. apply in_app_or in Hk as [Hk|Hk].
  - apply (@subseq_in str kept' (keys (cleanup d1)) k Hkept) in Hk.
    apply (@subseq_in str _ (keys d1) k (cleanup_keys d1)) in Hk.
    rewrite Ek, (@scan_first_seen T content raw Es) in Hk.
    unfold first_seen in Hk.
    apply in_fold_see in Hk as [[<-|[]]|Hk]; [left; left; reflexivity|].
    right. apply in_headings_of. exact Hk.
  - left. exact (@subseq_in str app' common_sections k Happ Hk).
Qed.

(** X5. Every line of every body of the mapping returned for a text is
    a line of the text, trimmed, that is not empty and not a heading:
    the parser invents no line, and no heading line reaches a body. *)
Theorem parse_lines_from_text (content : str) :
  exists d, parse_cv_content content = Some d /\
            all_made_of (stored_line_of content) d.
Proof.
  destruct (parse_stages content)
    as (raw & d1 & d2 & Es & E1 & Ec & E & _).
  exists d2. split; [exact E|].
  assert (Hraw : Forall (fun e => Forall (stored_line_of content) (snd e)) raw).
  { unfold scan in Es.
    destruct (foldM scan_line (split_nl content) _) as [st|] eqn:Ef;
      cbn [bind] in Es; [|discriminate].
    injection Es as <-.
    apply (@foldM_preserves _ _ scan_line
             (fun st => Forall (fun e => Forall (stored_line_of content) (snd e))
                               (snd st))
             (fun raw => In raw (split_nl content)))
      with (l := split_nl content) (a := (py "header", [(py "header", @nil str)])).
    - intros a b a' Ha Hb Eab. eapply scan_line_origin; eassumption.
    - apply Forall_forall. tauto.
    - constructor; [constructor | constructor].
    - exact Ef. }
  assert (Hj : all_made_of (stored_line_of content) (join_sections raw)).
  { unfold all_made_of, join_sections. apply Forall_map. revert Hraw.
    apply Forall_impl. intros [k ls] Hls. cbn [snd] in *.
    apply made_of_join; [exact Hls|]. revert Hls. apply Forall_impl.
    intros l. apply stored_line_no_nl. }
  eapply canonicalize_made_of; [exact Ec|]. apply cleanup_made_of.
  eapply header_fallback_made_of; eassumption.
Qed.

(** X6. When the text has a line that is stored, the first entry of the
    mapping returned is [header] and its body is not blank. *)
Theorem parse_header_leads (content : str) :
  (exists raw, In raw (split_nl content) /\ is_stored raw = true) ->
  exists h rest,
    parse_cv_content content = Some ((py "header", h) :: rest) /\
    strip h <> [].
Proof.
  intros Hst.
  destruct (parse_stages content)
    as (raw & d1 & d2 & Es & E1 & Ec & E & Hnd & Hh & K1 & Hj & O1 & _).
  unfold scan in Es.
  destruct (foldM scan_line (split_nl content) _) as [st|] eqn:Ef;
    cbn [bind] in Es; [|discriminate].
  injection Es as <-.
  destruct (@scan_head T (fun _ => True) _ _ _ (fun _ _ _ => I) Ef)
    as (ls0 & t0 & Hraw & _).
  { exists [], []. split; [reflexivity | exact I]. }
  pose proof (@scan_stores T (split_nl content) _ st Hst Ef) as Hex.
  assert (Hlok : lines_ok (snd st)).
  { destruct (scan_total content) as (d & Ed & _ & Hlok & _). unfold scan in Ed.
    rewrite Ef in Ed. cbn [bind] in Ed. apply some_eq in Ed. subst d. exact Hlok. }
  (* a section that is not blank after the join *)
  assert (Hsome : exists k b, In k (keys (join_sections (snd st))) /\
                              get k (join_sections (snd st)) = Some b /\
                              strip b <> []).
  { apply Exists_exists in Hex as ([k ls] & Hin & Hne). cbn [snd] in Hne.
    exists k, (join_nl ls).
    assert (Hin' : In (k, join_nl ls) (join_sections (snd st))).
    { unfold join_sections. apply in_map_iff. exists (k, ls).
      split; [reflexivity | exact Hin]. }
    assert (Hg : get k (join_sections (snd st)) = Some (join_nl ls)).
    { apply in_get_nodup; [rewrite keys_join_sections; exact Hnd | exact Hin']. }
    split; [eapply get_some_keys; exact Hg|]. split; [exact Hg|].
    unfold lines_ok in Hlok. rewrite Forall_forall in Hlok.
    pose proof (Hlok _ Hin) as Hl. cbn [snd] in Hl.
    apply nonempty_true. apply body_ok_nonblank.
    - exists ls. split; [reflexivity | exact Hl].
    - apply join_nl_nonnil; assumption. }
  (* the header after the fallback *)
  assert (H1 : exists h, get (py "header") d1 = Some h /\ strip h <> []).
  { rewrite <- (keys_join_sections (snd st)) in Hh.
    unfold header_fallback in E1. apply mem_in_keys in Hh as Hm.
    rewrite Hm in E1. destruct (keys_get _ _ Hh) as (h0 & Eh0).
    rewrite Eh0 in E1. cbn [bind] in E1.
    destruct (nonempty (strip h0)) eqn:En; cbn [negb] in E1.
    - injection E1 as <-. exists h0. split; [exact Eh0|].
      apply nonempty_true. exact En.
    - apply nonempty_false in En.
      eapply take_header_fills; [exact Hj | exact Eh0 | exact En | exact Hsome | exact E1]. }
  destruct H1 as (h & Gh & Hnb).
  assert (Hd1 : exists t1, d1 = (py "header", h) :: t1).
  { rewrite Hraw in K1. destruct d1 as [|[k0 v0] t1]; [discriminate|].
    cbn [keys map fst] in K1. injection K1 as -> _.
    cbn [get] in Gh. rewrite str_eqb_refl in Gh. injection Gh as ->. eauto. }
  destruct Hd1 as (t1 & ->).
  rewrite (@cleanup_head h t1 Hnb) in Ec.
  destruct (@canonicalize_head T common_sections h (cleanup t1) d2 (incl_refl _) Ec)
    as (t2 & ->).
  exists h, t2. split; [exact E | exact Hnb].
Qed.

(** X7. The loop over the lines, on a text whose headings give distinct
    names other than [header]: the lines before the first heading go to
    [header], and each section gets the lines between its heading and
    the next one, those that are not blank, trimmed, in the order of the
    text; the sections come in the order of their headings. *)
Theorem scan_distinct_headings (content : str) (pre : list str)
        (groups : list group) :
  split_nl content = pre ++ flat_map group_lines groups ->
  Forall (fun raw => heading (strip raw) = None) pre ->
  Forall group_ok groups ->
  NoDup (py "header" :: map g_name groups) ->
  scan content =
  Some ((py "header", nonblank_lines pre) :: map group_entry groups).
Proof.
  intros Hs Hpre Hok Hnd. unfold scan.
  destruct (@scan_groups_aux T groups (py "header")
              [(py "header", nonblank_lines pre)] Hok Hnd) as (cur' & E).
  pose proof (scan_plain_lines [] Hpre) as Hp. cbn [app] in Hp.
  rewrite Hs, HeadFacts.foldM_app.
  etransitivity;
    [apply (f_equal (fun o => bind (bind o _) _)); exact Hp|].
  cbn [bind]. etransitivity; [apply (f_equal (fun o => bind o _)); exact E|].
  reflexivity.
Qed.

(** X8. A line whose first character is not white space, an asterisk or
    a dash, and that is shorter than five characters or holds a
    character other than a capital letter A to Z and white space, is
    not a heading. *)
Theorem plain_line_not_heading (c : char) (r : str) :
  isspace c = false -> c <> STAR -> c <> DASH ->
  length (c :: r) < 5 \/ forallb AZ_or_space (c :: r) = false ->
  heading (c :: r) = None.
Proof.
  intros Hs Hstar Hdash Hshout.
  assert (Hc1 : is_star c = false) by (apply N.eqb_neq; exact Hstar).
  assert (Hc2 : is_dash c = false) by (apply N.eqb_neq; exact Hdash).
  unfold heading, detect, section_patterns. cbn [test_patterns].
  rewrite (@bold_head_none c r Hs Hc1), (@shout_none (c :: r) Hshout),
    (@rule_head_none c r Hs Hc2).
  change (py "**") with [STAR; STAR]. cbn [startswith].
  unfold is_star in Hc1. rewrite N.eqb_sym in Hc1. rewrite Hc1. reflexivity.
Qed.

(** X9. A line of three or more dashes, a middle part without a dash
    that is not blank, and three or more dashes is a heading; its
    section name is the middle part, trimmed, in lower case. *)
Theorem dashed_rule_heading (a b : nat) (m : str) :
  3 <= a -> 3 <= b -> ~ In DASH m -> strip m <> [] ->
  heading (repeat DASH a ++ m ++ repeat DASH b) = Some (lower (strip m)).
Proof.
  intros Ha Hb Hm Hne.
  assert (Hd : dropwhile isspace m <> []).
  { intros E. apply Hne. unfold strip, strip_by. rewrite E. reflexivity. }
  pose proof (@rule_match a b m Ha Hb Hm Hd) as Hr.
  destruct a as [|a']; [lia|]. cbn [repeat app] in *.
  unfold heading, detect, section_patterns. cbn [test_patterns].
  rewrite (@bold_head_none DASH _ eq_refl eq_refl).
  rewrite (@shout_none (DASH :: _) (or_intror eq_refl)).
  rewrite Hr. cbn [group1 nth_error]. rewrite strip_dropwhile.
  change (py "**") with [STAR; STAR]. cbn [startswith].
  change (STAR =? DASH)%N with false. cbn [andb].
  destruct (lower (strip m)) as [|x l] eqn:El; [|reflexivity].
  apply lower_nonempty in El. contradiction.
Qed.

End ParserProperties.

(** * The renderer: further results *)

Module PageFacts.
Import Dict Re Parser Render StrFacts DictFacts.

Lemma filter_nonblank_lines (ls : list str) :
  filter nonempty (nonblank_lines ls) = nonblank_lines ls.
Proof.
  unfold nonblank_lines. induction ls as [|l ls IH]; [reflexivity|].
  cbn [filter]. destruct (nonempty (strip l)) eqn:E; [|exact IH].
  cbn [map filter]. rewrite E. f_equal. exact IH.
Qed.

Lemma banner_texts_preamble (name contact_text : str) :
  banner_texts (preamble name contact_text) = [].
Proof. reflexivity. Qed.

Section WithTables.
Context {T : CaseTables}.

Lemma section_layout_header (h : str) : section_layout (py "header", h) = [].
Proof.
  unfold section_layout, drawn_section. cbn [fst snd].
  rewrite str_eqb_refl. reflexivity.
Qed.

Lemma section_layout_empty (d : dict str) :
  Forall (fun e => snd e = []) d -> flat_map section_layout d = [].
Proof.
  induction 1 as [|e d He _ IH]; [reflexivity|].
  cbn [flat_map]. rewrite IH, app_nil_r.
  destruct e as [k v]. cbn [snd] in He. subst v.
  unfold section_layout, drawn_section. cbn [fst snd].
  change (nonempty (strip [])) with false. rewrite andb_false_r. reflexivity.
Qed.

End WithTables.

End PageFacts.

Section RendererProperties.
Import Dict Re Parser Render StrFacts DictFacts EmptyFacts HeadFacts
       LayoutFacts PageFacts.
Context {T : CaseTables}.

(** X10. The calls [create_cv_pdf] makes on the FPDF object, for any
    text: the page set-up with the name and the contact line taken from
    the header, then for each section of the parsed mapping, in order,
    nothing if it is the header or blank and otherwise its banner, the
    items of its single block, a gap of 2 and a gap of 3, then the
    output. *)
Theorem create_cv_pdf_calls (content : str) :
  exists d name contact,
    parse_cv_content content = Some d /\
    header_block d = Some (name, contact) /\
    create_cv_pdf content =
    Some (preamble name (join (py " | ") (filter nonempty contact))
          ++ flat_map section_layout d ++ [Output]).
Proof. exact (@create_cv_pdf_layout T content). Qed.

(** X11. The banners of the document are, in the order of the parsed
    mapping, one for each section that is not the header and whose body
    is not blank; each shows a space and the key in upper case. *)
Theorem create_cv_pdf_banners (content : str) :
  exists d doc,
    parse_cv_content content = Some d /\
    create_cv_pdf content = Some doc /\
    banner_texts doc =
    map (fun e => py " " ++ upper (fst e)) (filter drawn_section d).
Proof.
  destruct (@create_cv_pdf_layout T content) as (d & name & contact & E & _ & Ec).
  exists d. eexists. split; [exact E|]. split; [exact Ec|].
  rewrite !banner_texts_app, banner_texts_preamble, banner_texts_sections.
  cbn [app]. apply app_nil_r.
Qed.

(** X12. For a text none of whose lines is stored the renderer draws an
    empty name, an empty contact line and no section. *)
Theorem create_cv_pdf_blank_page (content : str) :
  (forall raw, In raw (split_nl content) -> is_stored raw = false) ->
  create_cv_pdf content = Some (preamble [] [] ++ [Output]).
Proof.
  intros H.
  destruct (@create_cv_pdf_layout T content) as (d & name & contact & E & Eh & Ec).
  rewrite (@parse_unstored T content H) in E. injection E as <-.
  change (header_block empty_sections) with (Some (@nil char, @nil str)) in Eh.
  injection Eh as <- <-.
  rewrite section_layout_empty in Ec; [exact Ec|].
  unfold empty_sections. apply Forall_forall. intros e He.
  apply in_map_iff in He as (c & <- & _). reflexivity.
Qed.

(** X13. When the first line of the text that is not blank is stored,
    the header of the parsed mapping has that line, trimmed, as its
    first line; [ls] are the other lines of the header, one element for
    each line.  The name drawn at the top of the page is the first
    line without the asterisks at its ends, trimmed again; the contact
    line is the lines [ls] that are not blank, trimmed and joined by
    [" | "]. *)
Theorem create_cv_pdf_name (content : str) (blanks : list str) (raw : str)
        (rest : list str) :
  split_nl content = blanks ++ raw :: rest ->
  Forall (fun b => strip b = []) blanks ->
  is_stored raw = true ->
  exists ls d,
    parse_cv_content content =
      Some ((py "header", join_nl (strip raw :: ls)) :: d) /\
    split_nl (join_nl (strip raw :: ls)) = strip raw :: ls /\
    create_cv_pdf content =
      Some (preamble (strip (strip_chars (py "*") (strip raw)))
                     (join (py " | ") (nonblank_lines ls))
            ++ flat_map section_layout d ++ [Output]).
Proof.
  intros Hs Hb Hr.
  destruct (@parse_first_line T content blanks raw rest Hs Hb Hr)
    as (ls & d & E & Hsplit & Hne).
  exists ls, d. split; [exact E|]. split; [exact Hsplit|].
  destruct (@create_cv_pdf_layout T content) as (d0 & name & contact & E0 & Eh & Ec).
  rewrite E in E0. injection E0 as <-.
  rewrite (@header_block_head _ (strip raw) ls d Hne Hsplit) in Eh.
  injection Eh as <- <-.
  cbn [flat_map] in Ec. rewrite section_layout_header in Ec. cbn [app] in Ec.
  fold (nonblank_lines ls) in Ec. rewrite filter_nonblank_lines in Ec.
  exact Ec.
Qed.

End RendererProperties.

(** * Properties of the helpers of the interface *)

Section HelperProperties.
Import Dict Helpers StrFacts DictFacts HelperFacts.

(** X14. The two language tables have the same keys.  For a language of
    the tables the speech code is the language followed by a dash and a
    region, and the name is not [Unknown]; for any other string the code
    is [en-US] and the name is [Unknown]. *)
Theorem language_tables_agree (lang : str) :
  (In lang (keys language_codes) /\ In lang (keys language_names) /\
   (exists region, get_language_code lang = lang ++ py "-" ++ region) /\
   get_language_name lang <> py "Unknown")
  \/
  (~ In lang (keys language_codes) /\ ~ In lang (keys language_names) /\
   get_language_code lang = py "en-US" /\
   get_language_name lang = py "Unknown").
Proof.
  unfold get_language_code, get_language_name, get_default,
    language_codes, language_names.
  rewrite !get_cons. cbn [keys map fst].
  destruct (str_eqb (py "en") lang) eqn:E1;
    [apply str_eqb_eq in E1; subst lang; left;
     repeat split; [vm_compute; tauto | vm_compute; tauto
                    | eexists; reflexivity | discriminate]|].
  destruct (str_eqb (py "fr") lang) eqn:E2;
    [apply str_eqb_eq in E2; subst lang; left;
     repeat split; [vm_compute; tauto | vm_compute; tauto
                    | eexists; reflexivity | discriminate]|].
  destruct (str_eqb (py "es") lang) eqn:E3;
    [apply str_eqb_eq in E3; subst lang; left;
     repeat split; [vm_compute; tauto | vm_compute; tauto
                    | eexists; reflexivity | discriminate]|].
  destruct (str_eqb (py "ar") lang) eqn:E4;
    [apply str_eqb_eq in E4; subst lang; left;
     repeat split; [vm_compute; tauto | vm_compute; tauto
                    | eexists; reflexivity | discriminate]|].
  destruct (str_eqb (py "de") lang) eqn:E5;
    [apply str_eqb_eq in E5; subst lang; left;
     repeat split; [vm_compute; tauto | vm_compute; tauto
                    | eexists; reflexivity | discriminate]|].
  destruct (str_eqb (py "pt") lang) eqn:E6;
    [apply str_eqb_eq in E6; subst lang; left;
     repeat split; [vm_compute; tauto | vm_compute; tauto
                    | eexists; reflexivity | discriminate]|].
  destruct (str_eqb (py "it") lang) eqn:E7;
    [apply str_eqb_eq in E7; subst lang; left;
     repeat split; [vm_compute; tauto | vm_compute; tauto
                    | eexists; reflexivity | discriminate]|].
  destruct (str_eqb (py "ru") lang) eqn:E8;
    [apply str_eqb_eq in E8; subst lang; left;
     repeat split; [vm_compute; tauto | vm_compute; tauto
                    | eexists; reflexivity | discriminate]|].
  right.
  assert (Hout : ~ In lang [py "en"; py "fr"; py "es"; py "ar"; py "de";
                            py "pt"; py "it"; py "ru"]).
  { intros H.
    apply (in_cons_eqb E1) in H. apply (in_cons_eqb E2) in H.
    apply (in_cons_eqb E3) in H. apply (in_cons_eqb E4) in H.
    apply (in_cons_eqb E5) in H. apply (in_cons_eqb E6) in H.
    apply (in_cons_eqb E7) in H. apply (in_cons_eqb E8) in H. exact H. }
  repeat split; [exact Hout | exact Hout].
Qed.

(** X15. Whatever the choice made with the radio buttons, the stored
    target language is [en] or [fr]; the language named in the
    translation prompt is the name the table gives for it, and the
    speech code is [en-US] for [en] and [fr-FR] for [fr]. *)
Theorem target_language_speech (choice : str) :
  let target := target_language choice in
  target_language_name target = get_language_name target /\
  ((target = py "en" /\ get_language_code target = py "en-US") \/
   (target = py "fr" /\ get_language_code target = py "fr-FR")).
Proof.
  unfold target_language.
  destruct (str_eqb choice (py "English")); cbv zeta;
    (split; [reflexivity|]); [left | right]; split; reflexivity.
Qed.

(** X16. The text put between double quotes in the speech script holds
    no newline, and each of its double quotes comes right after a
    backslash. *)
Theorem clean_text_escapes (translated_cv : str) :
  ~ In NL (clean_text translated_cv) /\
  quotes_escaped (clean_text translated_cv).
Proof.
  unfold clean_text. split; [|apply escaped_quotes].
  apply replace_char_keeps_out.
  - intros [H|[H|[]]]; discriminate H.
  - apply replace_char_gone. intros [H|[]]. discriminate H.
Qed.

(** X17. The cleaning does not escape a backslash: a backslash followed
    by a double quote in the text becomes two backslashes followed by a
    double quote. *)
Theorem clean_text_keeps_backslash (pre post : str) :
  clean_text (pre ++ [BACKSLASH; QUOTE] ++ post) =
  clean_text pre ++ [BACKSLASH; BACKSLASH; QUOTE] ++ clean_text post.
Proof.
  unfold clean_text. rewrite !replace_char_app. reflexivity.
Qed.

End HelperProperties.

(** * Instances of the further properties *)

Section PropertyExamples.
Import Dict Re Parser Render.

(** X1, an instance: two headings and a blank line. *)
Lemma parse_no_stored_line_witness :
  parse_cv_content (join_nl [py "EXPERIENCE"; py "  "; py "**Skills**"]) =
  Some empty_sections.
Proof.
  apply (@parse_no_stored_line ascii_tables).
  intros raw H. vm_compute in H.
  destruct H as [<-|[<-|[<-|[]]]]; reflexivity.
Defined.

(** X2, an instance: three lines, one of them blank. *)
Lemma parse_heading_free_text_witness :
  parse_cv_content (join_nl [py "Jane Doe"; py " "; py " jane@example.org "]) =
  Some (header_only (join_nl [py "Jane Doe"; py "jane@example.org"])).
Proof.
  apply (@parse_heading_free_text ascii_tables
           (join_nl [py "Jane Doe"; py " "; py " jane@example.org "])).
  - intros raw H. vm_compute in H.
    destruct H as [<-|[<-|[<-|[]]]]; reflexivity.
  - vm_compute. discriminate.
Defined.

(** X6, an instance: the only stored line follows a heading, and is
    moved to the header. *)
Lemma parse_header_leads_witness :
  exists h rest,
    parse_cv_content (join_nl [py "EXPERIENCE"; py "Acme"]) =
      Some ((py "header", h) :: rest) /\
    strip h <> [].
Proof.
  apply (@parse_header_leads ascii_tables).
  exists (py "Acme"). split; [right; left; reflexivity | reflexivity].
Defined.

(** X7, an instance: a name, then two sections of one line each. *)
Lemma scan_distinct_headings_witness :
  scan (join_nl [py "Jane"; py "EXPERIENCE"; py " Acme"; py "";
                 py "--- Skills ---"; py "Rocq"]) =
  Some [(py "header", [py "Jane"]); (py "experience", [py "Acme"]);
        (py "skills", [py "Rocq"])].
Proof.
  apply (@scan_distinct_headings ascii_tables
           (join_nl [py "Jane"; py "EXPERIENCE"; py " Acme"; py "";
                     py "--- Skills ---"; py "Rocq"])
           [py "Jane"]
           [{| g_heading := py "EXPERIENCE"; g_name := py "experience";
               g_body := [py " Acme"; py ""] |};
            {| g_heading := py "--- Skills ---"; g_name := py "skills";
               g_body := [py "Rocq"] |}]).
  - reflexivity.
  - repeat constructor.
  - repeat constructor.
  - repeat constructor; vm_compute; intuition discriminate.
Defined.

(** X8, an instance. *)
Lemma plain_line_not_heading_witness : heading (py "Jane Doe") = None.
Proof.
  apply (@plain_line_not_heading ascii_tables 74%N (py "ane Doe")).
  - reflexivity.
  - discriminate.
  - discriminate.
  - right. reflexivity.
Defined.

(** X9, an instance. *)
Lemma dashed_rule_heading_witness :
  heading (py "--- Skills ----") = Some (py "skills").
Proof.
  apply (@dashed_rule_heading ascii_tables 3 4 (py " Skills ")).
  - apply le_n.
  - apply le_S, le_n.
  - vm_compute. intuition discriminate.
  - vm_compute. discriminate.
Defined.

(** X12, an instance: the empty text. *)
Lemma create_cv_pdf_blank_page_witness :
  create_cv_pdf [] = Some (preamble [] [] ++ [Output]).
Proof.
  apply (@create_cv_pdf_blank_page ascii_tables []).
  intros raw H. vm_compute in H. destruct H as [<-|[]]. reflexivity.
Defined.

(** X13, an instance: the name is written between asterisks after a
    blank line. *)
Lemma create_cv_pdf_name_witness :
  exists ls d,
    parse_cv_content (join_nl [py ""; py " *Jane Doe* "; py "jane@example.org"]) =
      Some ((py "header", join_nl (py "*Jane Doe*" :: ls)) :: d) /\
    split_nl (join_nl (py "*Jane Doe*" :: ls)) = py "*Jane Doe*" :: ls /\
    create_cv_pdf (join_nl [py ""; py " *Jane Doe* "; py "jane@example.org"]) =
      Some (preamble (py "Jane Doe") (join (py " | ") (nonblank_lines ls))
            ++ flat_map section_layout d ++ [Output]).
Proof.
  apply (@create_cv_pdf_name ascii_tables
           (join_nl [py ""; py " *Jane Doe* "; py "jane@example.org"])
           [py ""] (py " *Jane Doe* ") [py "jane@example.org"]).
  - reflexivity.
  - repeat constructor.
  - reflexivity.
Defined.

End PropertyExamples.

(** * Renaming onto a key that exists *)

Section RenameProperties.
Import Dict Re Parser StrFacts DictFacts CanonFacts.
Context {T : CaseTables}.

(** X18. One turn of the loop over the common sections, when the first
    key that is a variant of the common name [s] is another key [e] and
    [s] is a key too: the body of [e] replaces the body of [s], whose
    former body is dropped, and the key [e] is removed; the keys left
    keep their order. *)
Theorem rename_overwrites (d : dict str) (s e v : str) :
  find (variant s) (keys d) = Some e -> e <> s ->
  get e d = Some v -> In s (keys d) ->
  exists d',
    ensure_section d s = Some d' /\
    d' = set s v (remove e d) /\
    get s d' = Some v /\
    keys d' = remove_key e (keys d).
Proof.
  intros Hf Hne Hg Hs. exists (set s v (remove e d)).
  split; [|split; [reflexivity | split]].
  - unfold ensure_section. rewrite Hf.
    apply str_eqb_neq in Hne. rewrite Hne. cbn [negb].
    unfold pop. rewrite Hg. reflexivity.
  - apply get_set_same.
  - rewrite keys_set_mem by (apply keys_remove_other; assumption).
    apply keys_remove.
Qed.

End RenameProperties.

Section RenameExamples.
Import Dict Re Parser.

(** X18, an instance, and the parse of a text that leads to it: the
    line [Beta] of the section [Experience] is in no body of the
    result. *)
Lemma rename_overwrites_witness :
  (exists d',
     ensure_section [(py "header", py "Jane"); (py "work experience", py "Acme");
                     (py "experience", py "Beta"); (py "profile", [])]
                    (py "experience") = Some d' /\
     d' = [(py "header", py "Jane"); (py "experience", py "Acme");
           (py "profile", [])]) /\
  parse_cv_content (join_nl [py "Jane"; py "**Work Experience**"; py "Acme";
                             py "**Experience**"; py "Beta"]) =
  Some [(py "header", py "Jane"); (py "experience", py "Acme");
        (py "profile", []); (py "education", []);
        (py "skills", []); (py "languages", [])].
Proof.
  split; [|reflexivity].
  destruct (@rename_overwrites ascii_tables
              [(py "header", py "Jane"); (py "work experience", py "Acme");
               (py "experience", py "Beta"); (py "profile", [])]
              (py "experience") (py "work experience") (py "Acme"))
    as (d' & E & Ed & _).
  - reflexivity.
  - discriminate.
  - reflexivity.
  - right. right. left. reflexivity.
  - exists d'. split; [exact E | exact Ed].
Defined.

End RenameExamples.

(** * The block loop inside the renderer *)

Module BlockLoopFacts.
Import Dict Re Parser Render StrFacts DictFacts RenderFacts DocFacts
       ParseFacts.

Lemma render_item_calls (doc : pdf) (block : str) :
  render_item doc block = Some (doc ++ block_calls block).
Proof.
  unfold block_calls. destruct (nonempty (strip block)) eqn:E.
  - apply render_item_spec. apply nonempty_true. exact E.
  - rewrite app_nil_r. apply render_item_blank. apply nonempty_false. exact E.
Qed.

Lemma render_items_calls (items : list str) (doc : pdf) :
  foldM render_item items doc = Some (doc ++ flat_map block_calls items).
Proof.
  revert doc. induction items as [|item items IH]; intros doc.
  - cbn. rewrite app_nil_r. reflexivity.
  - cbn [foldM]. rewrite render_item_calls. cbn [bind].
    rewrite IH. cbn [flat_map]. rewrite <- app_assoc. reflexivity.
Qed.

Section WithTables.
Context {T : CaseTables}.

Lemma render_section_calls (doc : pdf) (entry : str * str) :
  render_section doc entry = Some (doc ++ section_calls entry).
Proof.
  destruct entry as [k v].
  unfold render_section, section_calls, drawn_section, banner. cbn [fst snd].
  destruct (str_eqb k (py "header")); cbn [negb orb andb].
  - rewrite app_nil_r. reflexivity.
  - destruct (nonempty (strip v)); cbn [negb].
    + rewrite render_items_calls. cbn [bind].
      rewrite <- !app_assoc. reflexivity.
    + rewrite app_nil_r. reflexivity.
Qed.

Lemma render_sections_calls (d : dict str) (doc : pdf) :
  foldM render_section d doc = Some (doc ++ flat_map section_calls d).
Proof.
  revert doc. induction d as [|e d IH]; intros doc.
  - cbn. rewrite app_nil_r. reflexivity.
  - cbn [foldM]. rewrite render_section_calls. cbn [bind].
    rewrite IH. cbn [flat_map]. rewrite <- app_assoc. reflexivity.
Qed.

End WithTables.

End BlockLoopFacts.

Section BlockClaims.
Import Dict Re Parser Render StrFacts DictFacts RenderFacts DocFacts
       ParseFacts BlockLoopFacts.
Context {T : CaseTables}.

(** C8. The calls [create_cv_pdf] makes for a text are the page set-up
    with the name and the contact line, then what each section of the
    parsed mapping adds, then the output.  A section that is not the
    header and not blank adds its banner, then what each block of its
    body adds, in order, then a gap: the section loop runs the block
    loop on every block.  A block that is not blank is drawn as its
    items followed by a gap, a blank one adds nothing.  If the first
    line of a block, trimmed, starts with a bullet marker, the items are
    the body items of all its lines and none is a title; otherwise the
    first item is the title made of the first line and the others are
    the body items of the remaining lines.  A body item is a bullet line
    when the line starts with a bullet marker and a plain line
    otherwise. *)
Theorem render_item_blocks (content : str) :
  exists d name contact,
    parse_cv_content content = Some d /\
    header_block d = Some (name, contact) /\
    create_cv_pdf content =
      Some (preamble name (join (py " | ") (filter nonempty contact))
            ++ flat_map section_calls d ++ [Output]) /\
    (forall doc entry,
       render_section doc entry = Some (doc ++ section_calls entry)) /\
    (forall doc block,
       render_item doc block = Some (doc ++ block_calls block)) /\
    (forall block first rest,
       split_nl block = first :: rest ->
       (is_bullet (strip first) = true ->
        block_items block = body_items (first :: rest)) /\
       (is_bullet (strip first) = false ->
        block_items block = TitleLine (strip first) :: body_items rest)) /\
    (forall lines, Forall (fun i => is_title i = false) (body_items lines)) /\
    (forall raw c rest,
       truncated (strip raw) = c :: rest ->
       body_item raw = if is_bullet (c :: rest)
                       then [BulletLine c (strip rest)]
                       else [PlainLine (c :: rest)]).
Proof.
  destruct (parse_stages content)
    as (raw0 & d1 & d2 & _ & _ & _ & E & _).
  destruct (header_block_total d2) as ([name contact] & En).
  exists d2, name, contact. split; [exact E|]. split; [exact En|].
  split; [|split; [|split; [|split; [|split]]]].
  - unfold create_cv_pdf. rewrite E. cbn [bind]. rewrite En. cbn [bind fst snd].
    rewrite render_sections_calls. cbn [bind].
    unfold preamble. rewrite <- !app_assoc. reflexivity.
  - apply render_section_calls.
  - apply render_item_calls.
  - intros block first rest Hs. unfold block_items. rewrite Hs.
    split; intros ->; reflexivity.
  - apply body_items_no_title.
  - intros raw c rest E'. unfold body_item. rewrite E'. reflexivity.
Qed.

End BlockClaims.

Section BlockExamples.
Import Dict Re Parser Render.

(** C8, an instance: a section whose block is a title line followed by
    two bullet lines, and a block that starts with a bullet line. *)
Lemma render_item_blocks_witness :
  create_cv_pdf (join_nl [py "Jane"; py "EXPERIENCE";
                          py "Software Engineer, Acme Corp";
                          py "- built things"; py "- led people"]) =
  Some (preamble (py "Jane") []
        ++ banner (py "experience")
        ++ flat_map draw [TitleLine (py "Software Engineer, Acme Corp");
                          BulletLine DASH (py "built things");
                          BulletLine DASH (py "led people")]
        ++ [Ln 2; Ln 3; Output]) /\
  render_item [] (join_nl [py "- built things"; py "led people"]) =
  Some (flat_map draw [BulletLine DASH (py "built things");
                       PlainLine (py "led people")] ++ [Ln 2]).
Proof.
  destruct (@render_item_blocks ascii_tables
              (join_nl [py "Jane"; py "EXPERIENCE";
                        py "Software Engineer, Acme Corp";
                        py "- built things"; py "- led people"]))
    as (d & name & contact & E & Eh & Ec & _ & Hitem & _).
  split.
  - rewrite Ec. vm_compute in E. injection E as <-.
    vm_compute in Eh. injection Eh as <- <-. reflexivity.
  - rewrite Hitem. reflexivity.
Defined.

End BlockExamples.

(** * The header fallback inside the parser *)

Section FallbackClaims.
Import Dict Re Parser StrFacts DictFacts ScanFacts SubseqFacts PipelineFacts
       CanonFacts ParseFacts HeaderFacts EmptyFacts HeadFacts.
Context {T : CaseTables}.

(** C4. After the scan the header section exists; [h] is its body.
    If [h] is not blank the fallback step changes nothing: the parser
    returns what the clean-up and the loop over the common sections
    make of the scanned sections, with [h] under [header].  If [h] is
    blank, the first section with a non-blank body gives its first five
    lines to the header and keeps the rest, and no other section
    changes; the parser returns what the clean-up and the loop over the
    common sections make of that mapping, and its header is those five
    lines.  If every section is blank nothing changes, and the parser
    returns the six empty common sections. *)
Theorem header_fallback_spec (content : str) :
  exists raw h,
    scan content = Some raw /\
    get (py "header") (join_sections raw) = Some h /\
    (strip h <> [] ->
     header_fallback (join_sections raw) = Some (join_sections raw) /\
     parse_cv_content content = canonicalize (cleanup (join_sections raw)) /\
     exists t, parse_cv_content content = Some ((py "header", h) :: t)) /\
    (strip h = [] ->
     forall pre k v post,
       join_sections raw = pre ++ (k, v) :: post ->
       Forall (fun e => strip (snd e) = []) pre ->
       strip v <> [] ->
       exists d',
         header_fallback (join_sections raw) = Some d' /\
         keys d' = keys (join_sections raw) /\
         get (py "header") d' = Some (join_nl (firstn 5 (split_nl v))) /\
         get k d' = Some (join_nl (skipn 5 (split_nl v))) /\
         (forall k', k' <> py "header" -> k' <> k ->
                     get k' d' = get k' (join_sections raw)) /\
         parse_cv_content content = canonicalize (cleanup d') /\
         exists t,
           parse_cv_content content =
           Some ((py "header", join_nl (firstn 5 (split_nl v))) :: t)) /\
    (strip h = [] ->
     Forall (fun e => strip (snd e) = []) (join_sections raw) ->
     header_fallback (join_sections raw) = Some (join_sections raw) /\
     parse_cv_content content = Some empty_sections).
Proof.
  destruct (parse_stages content)
    as (raw & d1 & d2 & Es & _ & _ & _ & Hnd & Hh & _ & Hj & _).
  assert (Hhead : exists ls t, raw = (py "header", ls) :: t).
  { pose proof Es as Es'. unfold scan in Es'.
    destruct (foldM scan_line (split_nl content) _) as [st|] eqn:Ef;
      cbn [bind] in Es'; [|discriminate].
    apply some_eq in Es'. subst raw.
    destruct (@scan_head T (fun _ => True) _ _ _ (fun _ _ _ => I) Ef)
      as (ls & t & H & _).
    { exists [], []. split; [reflexivity | exact I]. }
    exists ls, t. exact H. }
  destruct Hhead as (ls0 & t0 & Hraw).
  rewrite <- (keys_join_sections raw) in Hnd, Hh.
  assert (Hparse : forall d',
             header_fallback (join_sections raw) = Some d' ->
             parse_cv_content content = canonicalize (cleanup d')).
  { intros d' Hd'. unfold parse_cv_content. rewrite Es. cbn [bind].
    rewrite Hd'. reflexivity. }
  assert (Hd0 : join_sections raw =
                (py "header", join_nl ls0) :: join_sections t0)
    by (rewrite Hraw; reflexivity).
  assert (Hhd : forall (hb : str) (t : dict str),
             strip hb <> [] ->
             exists t', canonicalize (cleanup ((py "header", hb) :: t)) =
                        Some ((py "header", hb) :: t')).
  { intros hb t Hne. rewrite (@cleanup_head hb t Hne).
    destruct (canonicalize_total ((py "header", hb) :: cleanup t))
      as (d'' & Ecan & _).
    rewrite Ecan. pose proof Ecan as Ecan'. unfold canonicalize in Ecan'.
    destruct (@canonicalize_head T common_sections hb (cleanup t) d''
                (incl_refl _) Ecan') as (t' & ->).
    exists t'. reflexivity. }
  set (d := join_sections raw) in *.
  set (h := join_nl ls0) in *.
  assert (Eh : get (py "header") d = Some h)
    by (rewrite Hd0; apply get_cons_eq).
  assert (Hmem : mem (py "header") d = true) by (apply mem_in_keys; exact Hh).
  exists raw, h. fold d. split; [exact Es|]. split; [exact Eh|].
  split; [|split].
  - intros Hne.
    assert (F : header_fallback d = Some d).
    { unfold header_fallback. rewrite Hmem, Eh. cbn [bind].
      apply nonempty_true in Hne. rewrite Hne. reflexivity. }
    split; [exact F|]. split; [exact (Hparse _ F)|].
    rewrite (Hparse _ F), Hd0. apply Hhd. exact Hne.
  - intros Hb pre k v post Hd Hpre Hv.
    assert (Hkv : In (k, v) d) by (rewrite Hd; apply in_or_app; right; left; reflexivity).
    assert (Gk : get k d = Some v) by (apply in_get_nodup; assumption).
    assert (Hkh : py "header" <> k).
    { intros <-. rewrite Eh in Gk. injection Gk as ->. contradiction. }
    assert (Hkeys : keys d = keys pre ++ k :: keys post)
      by (rewrite Hd; unfold keys; rewrite map_app; reflexivity).
    exists (set k (join_nl (skipn 5 (split_nl v)))
                (set (py "header") (join_nl (firstn 5 (split_nl v))) d)).
    assert (F : header_fallback d =
                Some (set k (join_nl (skipn 5 (split_nl v)))
                        (set (py "header") (join_nl (firstn 5 (split_nl v))) d))).
    { unfold header_fallback. rewrite Hmem, Eh. cbn [bind].
      pose proof Hb as Hb'. apply nonempty_false in Hb'. rewrite Hb'. cbn [negb].
      rewrite Hkeys, take_header_skip.
      2:{ apply blank_entries_skip; [exact Hnd | | exact Hpre].
          intros e He. rewrite Hd. apply in_or_app. left. exact He. }
      cbn [take_header]. rewrite Gk. cbn [bind].
      pose proof Hv as Hv'. apply nonempty_true in Hv'. rewrite Hv'.
      rewrite get_set_other by exact Hkh. rewrite Gk. reflexivity. }
    assert (Hk1 : forall b : str, keys (set (py "header") b d) = keys d)
      by (intros b; apply keys_set_mem; exact Hh).
    split; [exact F|]. split; [|split; [|split; [|split; [|split]]]].
    + rewrite keys_set_mem; [apply Hk1|].
      rewrite Hk1. eapply get_some_keys. exact Gk.
    + rewrite get_set_other by congruence. apply get_set_same.
    + apply get_set_same.
    + intros k' H1 H2. rewrite !get_set_other by congruence. reflexivity.
    + exact (Hparse _ F).
    + rewrite (Hparse _ F), Hd0.
      rewrite set_cons_eq, (set_cons_ne _ _ _ Hkh).
      apply Hhd. apply first_lines_nonblank; [|exact Hv].
      eapply bodies_ok_get; [exact Hj | exact Gk].
  - intros Hb Hall.
    assert (F : header_fallback d = Some d).
    { unfold header_fallback. rewrite Hmem, Eh. cbn [bind].
      pose proof Hb as Hb'. apply nonempty_false in Hb'. rewrite Hb'. cbn [negb].
      rewrite <- (app_nil_r (keys d)). rewrite take_header_skip; [reflexivity|].
      apply blank_entries_skip; [exact Hnd | apply incl_refl | exact Hall]. }
    split; [exact F|].
    rewrite (Hparse _ F), (cleanup_blank Hall). apply canonicalize_empty.
Qed.

End FallbackClaims.

Section FallbackExamples.
Import Dict Re Parser.

(** C4, an instance: the first five lines of the first section go to
    the header, the sixth stays, and the parser returns the five lines
    under [header]. *)
Lemma header_fallback_spec_witness :
  exists d',
    header_fallback
      (join_sections [(py "header", []);
                      (py "experience",
                       [py "a"; py "b"; py "c"; py "d"; py "e"; py "f"])])
    = Some d' /\
    get (py "header") d' = Some (join_nl [py "a"; py "b"; py "c"; py "d"; py "e"]) /\
    get (py "experience") d' = Some (py "f") /\
    exists t,
      parse_cv_content cv_no_header =
      Some ((py "header", join_nl [py "a"; py "b"; py "c"; py "d"; py "e"]) :: t).
Proof.
  destruct (@header_fallback_spec ascii_tables cv_no_header)
    as (raw & h & Es & Eh & _ & H & _).
  vm_compute in Es. injection Es as <-.
  vm_compute in Eh. injection Eh as <-.
  destruct (H eq_refl [(py "header", [])] (py "experience")
              (join_nl [py "a"; py "b"; py "c"; py "d"; py "e"; py "f"]) [])
    as (d' & E & _ & G1 & G2 & _ & _ & Ht).
  - reflexivity.
  - constructor; [reflexivity | constructor].
  - vm_compute. discriminate.
  - exists d'. split; [exact E|]. split; [exact G1|]. split; [exact G2 | exact Ht].
Defined.

End FallbackExamples.

(** * The order of the keys of the result *)

Module KeyOrderFacts.
Import Dict Re Parser StrFacts DictFacts ScanFacts SubseqFacts PipelineFacts
       CanonFacts HeadFacts.

Lemma existsb_in (k : str) (l : list str) :
  existsb (str_eqb k) l = true <-> In k l.
Proof.
  rewrite existsb_exists. split.
  - intros (x & Hx & E). apply str_eqb_eq in E. subst x. exact Hx.
  - intros H. exists k. split; [exact H | apply str_eqb_refl].
Qed.

Lemma existsb_not_in (k : str) (l : list str) :
  existsb (str_eqb k) l = false <-> ~ In k l.
Proof.
  rewrite <- existsb_in. destruct (existsb (str_eqb k) l); split; congruence.
Qed.

Lemma bool_eq_iff (a b : bool) : (a = true <-> b = true) -> a = b.
Proof.
  intros [H1 H2]. destruct a, b; try reflexivity.
  - symmetry. apply H1. reflexivity.
  - apply H2. reflexivity.
Qed.

Lemma in_remove_key (l : list str) (e k : str) :
  NoDup l -> (In k (remove_key e l) <-> In k l /\ k <> e).
Proof.
  induction l as [|x l IH]; intros Hnd; cbn [remove_key].
  - cbn. tauto.
  - inversion Hnd as [|? ? Hx Hl]; subst.
    destruct (str_eqb x e) eqn:E.
    + apply str_eqb_eq in E. subst x. cbn [In]. split.
      * intros H. split; [right; exact H|]. intros ->. contradiction.
      * intros [[H|H] Hne]; [congruence | exact H].
    + apply str_eqb_neq in E. cbn [In]. rewrite (IH Hl). split.
      * intros [H|[H Hne]]; [split; [left; exact H | congruence] | tauto].
      * intros [[H|H] Hne]; [left; exact H | right; tauto].
Qed.

Lemma filter_remove_key (f : str -> bool) (l : list str) (e : str) :
  NoDup l ->
  remove_key e (filter f l) =
  filter (fun k => f k && negb (str_eqb k e)) l.
Proof.
  induction l as [|x l IH]; intros Hnd; [reflexivity|].
  inversion Hnd as [|? ? Hx Hl]; subst. cbn [filter].
  destruct (f x); cbn [andb].
  - cbn [remove_key]. destruct (str_eqb x e) eqn:E; cbn [negb].
    + apply str_eqb_eq in E. subst x. apply filter_ext_in.
      intros k Hk. destruct (str_eqb k e) eqn:Ek.
      * apply str_eqb_eq in Ek. subst k. contradiction.
      * rewrite andb_true_r. reflexivity.
    + f_equal. apply IH. exact Hl.
  - apply IH. exact Hl.
Qed.

Lemma filter_all (l : list str) :
  filter (fun k => existsb (str_eqb k) l) l = l.
Proof.
  assert (H : forall l0, incl l l0 ->
                         filter (fun k => existsb (str_eqb k) l0) l = l).
  { induction l as [|x l IH]; intros l0 Hincl; [reflexivity|]. cbn [filter].
    assert (E : existsb (str_eqb x) l0 = true)
      by (apply existsb_in; apply Hincl; left; reflexivity).
    rewrite E. f_equal. apply IH. intros y Hy. apply Hincl. right. exact Hy. }
  apply H. apply incl_refl.
Qed.

(** The keys of a cleaned mapping. *)
Lemma keys_cleanup (d : dict str) :
  NoDup (keys d) -> keys (cleanup d) = filter (nonblank_in d) (keys d).
Proof.
  unfold cleanup.
  assert (H : forall d0 : dict str,
             NoDup (keys d) -> (forall e, In e d -> get (fst e) d0 = Some (snd e)) ->
             keys (filter (fun e => nonempty (strip (snd e))) d) =
             filter (nonblank_in d0) (keys d)).
  { induction d as [|[k v] d IH]; intros d0 Hnd Hget; [reflexivity|].
    inversion Hnd as [|? ? Hk Hd]; subst.
    pose proof (Hget (k, v) (or_introl eq_refl)) as G. cbn [fst snd] in G.
    assert (Ek : nonblank_in d0 k = nonempty (strip v))
      by (unfold nonblank_in; rewrite G; reflexivity).
    assert (IH' := IH d0 Hd (fun e He => Hget e (or_intror He))).
    unfold keys in *. cbn [filter map fst snd]. rewrite Ek.
    destruct (nonempty (strip v)); cbn [map fst]; rewrite IH'; reflexivity. }
  intros Hnd. apply H; [exact Hnd|].
  intros [k v] He. cbn [fst snd]. apply in_get_nodup; assumption.
Qed.

Lemma mem_cleanup (d : dict str) (k : str) :
  NoDup (keys d) -> mem k (cleanup d) = nonblank_in d k.
Proof.
  intros Hnd. rewrite <- existsb_keys_mem, (@keys_cleanup d Hnd).
  apply bool_eq_iff. rewrite existsb_in, filter_In. split.
  - tauto.
  - intros H. split; [|exact H]. unfold nonblank_in in H.
    destruct (get k d) as [b|] eqn:E; [|discriminate].
    eapply get_some_keys. exact E.
Qed.

Lemma ordered_cases (found done l : list str) (k : str) :
  ordered found done l -> In k l ->
  In k found \/ (In k done /\ ~ In k found).
Proof.
  intros [Ha _] Hk. rewrite Ha in Hk. apply in_app_or in Hk as [H|H].
  - left. apply filter_In in H. tauto.
  - right. apply filter_In in H as [H1 H2]. split; [exact H1|].
    apply negb_true_iff in H2. apply existsb_not_in. exact H2.
Qed.

(** Removing a key that is not a common name. *)
Lemma ordered_remove (found done l : list str) (e : str) :
  NoDup found -> NoDup l -> In e l -> ~ In e common_sections ->
  incl done common_sections ->
  ordered found done l -> ordered found done (remove_key e l).
Proof.
  intros Hf Hl He Hc Hdone Ho.
  destruct (@ordered_cases found done l e Ho He) as [Hin | [Hin _]];
    [|contradiction Hc; apply Hdone; exact Hin].
  destruct Ho as [Ha Hkeep]. split.
  - transitivity
      (remove_key e
         (filter (fun k => existsb (str_eqb k) l) found
          ++ filter (fun c => negb (existsb (str_eqb c) found)) done)).
    { f_equal. exact Ha. }
    rewrite remove_key_app
      by (apply filter_In; split; [exact Hin | apply existsb_in; exact He]).
    f_equal. rewrite (@filter_remove_key (fun k => existsb (str_eqb k) l) found e Hf).
    apply filter_ext_in. intros k _. apply bool_eq_iff.
    rewrite andb_true_iff, negb_true_iff, !existsb_in, str_eqb_neq.
    rewrite (@in_remove_key l e k Hl). tauto.
  - intros c H1 H2. apply (@in_remove_key l e c Hl). split; [apply Hkeep; assumption|].
    intros ->. contradiction.
Qed.

(** Adding the common name of the turn when it is missing. *)
Lemma ordered_append (found done l : list str) (s : str) :
  In s common_sections -> ~ In s done ->
  ordered found done l ->
  ordered found (done ++ [s])
          (l ++ if existsb (str_eqb s) l then [] else [s]).
Proof.
  intros Hs Hnew Ho. pose proof Ho as [Ha Hkeep].
  unfold ordered. rewrite filter_app. cbn [filter].
  destruct (existsb (str_eqb s) l) eqn:E.
  - rewrite app_nil_r. apply existsb_in in E.
    destruct (@ordered_cases found done l s Ho E) as [Hin | [Hin _]]; [|contradiction].
    apply existsb_in in Hin. rewrite Hin. cbn [negb]. rewrite app_nil_r.
    split; [exact Ha | exact Hkeep].
  - apply existsb_not_in in E.
    assert (Hout : ~ In s found) by (intros H; apply E; apply Hkeep; assumption).
    pose proof Hout as Hout'. apply existsb_not_in in Hout'. rewrite Hout'.
    cbn [negb]. split.
    + rewrite app_assoc. f_equal. rewrite Ha at 1. f_equal.
      apply filter_ext_in. intros k Hk. rewrite existsb_app. cbn [existsb].
      assert (Hks : str_eqb k s = false)
        by (apply str_eqb_neq; intros ->; contradiction).
      rewrite Hks, !orb_false_r. reflexivity.
    + intros c H1 H2. apply in_or_app. left. apply Hkeep; assumption.
Qed.

Section WithTables.
Context {T : CaseTables}.

(** One turn of the loop, on the keys: the first variant found, when it
    is another key, is removed; then the section is added at the end
    unless it is a key. *)
Lemma ensure_section_keys_eq (d d' : dict str) (s : str) :
  ensure_section d s = Some d' ->
  exists l,
    (l = keys d \/
     exists e, e <> s /\ variant s e = true /\ In e (keys d) /\
               l = remove_key e (keys d)) /\
    keys d' = l ++ if existsb (str_eqb s) l then [] else [s].
Proof.
  unfold ensure_section. intros E.
  destruct (find (variant s) (keys d)) as [e|] eqn:Ef.
  - apply find_some in Ef as [He Hv].
    destruct (str_eqb e s) eqn:Ees; cbn [negb] in E.
    + apply some_eq in E. subst d'. apply str_eqb_eq in Ees. subst e.
      exists (keys d). split; [left; reflexivity|].
      apply existsb_in in He. rewrite He, app_nil_r. reflexivity.
    + destruct (pop e d) as [[v d0]|] eqn:Ep; cbn [bind fst snd] in E;
        [|discriminate].
      apply pop_inv in Ep as [_ ->]. apply some_eq in E. subst d'.
      exists (remove_key e (keys d)). split.
      * right. exists e. apply str_eqb_neq in Ees. repeat split; assumption.
      * rewrite keys_set, <- existsb_keys_mem, keys_remove.
        destruct (existsb (str_eqb s) (remove_key e (keys d)));
          [rewrite app_nil_r|]; reflexivity.
  - exists (keys d). split; [left; reflexivity|].
    rewrite existsb_keys_mem.
    destruct (mem s d) eqn:Em; cbn [negb] in E; apply some_eq in E; subst d'.
    + rewrite app_nil_r. reflexivity.
    + apply keys_set_new. apply mem_false_keys. exact Em.
Qed.

Lemma ensure_section_key_turn (d d' : dict str) (s : str) :
  ensure_section d s = Some d' -> keys d' = key_turn (keys d) s.
Proof.
  unfold ensure_section, key_turn. intros E.
  destruct (find (variant s) (keys d)) as [e|] eqn:Ef.
  - apply find_some in Ef as [He Hv].
    destruct (str_eqb e s) eqn:Ees; cbn [negb] in E.
    + apply some_eq in E. subst d'. apply str_eqb_eq in Ees. subst e.
      apply existsb_in in He. rewrite He, app_nil_r. reflexivity.
    + destruct (pop e d) as [[v d0]|] eqn:Ep; cbn [bind fst snd] in E;
        [|discriminate].
      apply pop_inv in Ep as [_ ->]. apply some_eq in E. subst d'.
      rewrite keys_set, <- existsb_keys_mem, keys_remove.
      destruct (existsb (str_eqb s) (remove_key e (keys d)));
        [rewrite app_nil_r|]; reflexivity.
  - rewrite existsb_keys_mem.
    destruct (mem s d) eqn:Em; cbn [negb] in E; apply some_eq in E; subst d'.
    + rewrite app_nil_r. reflexivity.
    + apply keys_set_new. apply mem_false_keys. exact Em.
Qed.

Lemma canonicalize_key_turns (todo : list str) (d d' : dict str) :
  foldM ensure_section todo d = Some d' ->
  keys d' = fold_left key_turn todo (keys d).
Proof.
  revert d. induction todo as [|s todo IH]; intros d E.
  - cbn in E. apply some_eq in E. subst d'. reflexivity.
  - cbn [foldM] in E.
    destruct (ensure_section d s) as [d1|] eqn:E1; cbn [bind] in E; [|discriminate].
    cbn [fold_left]. rewrite <- (@ensure_section_key_turn d d1 s E1).
    apply IH. exact E.
Qed.

Lemma canonicalize_ordered (found todo done : list str) (d d' : dict str) :
  NoDup found -> NoDup (keys d) -> done ++ todo = common_sections ->
  ordered found done (keys d) ->
  foldM ensure_section todo d = Some d' ->
  ordered found common_sections (keys d').
Proof.
  intros Hf. revert done d.
  induction todo as [|s todo IH]; intros done d Hnd Hsplit Ho E.
  - cbn in E. apply some_eq in E. subst d'.
    rewrite app_nil_r in Hsplit. subst done. exact Ho.
  - cbn [foldM] in E.
    destruct (ensure_section d s) as [d1|] eqn:E1; cbn [bind] in E; [|discriminate].
    pose proof common_nodup as Hcn. rewrite <- Hsplit in Hcn.
    assert (Hs : In s common_sections)
      by (rewrite <- Hsplit; apply in_or_app; right; left; reflexivity).
    assert (Hnew : ~ In s done).
    { apply NoDup_remove_2 in Hcn. intros H. apply Hcn.
      apply in_or_app. left. exact H. }
    assert (Hdone : incl done common_sections)
      by (intros c Hc; rewrite <- Hsplit; apply in_or_app; left; exact Hc).
    apply (IH (done ++ [s]) d1).
    + eapply ensure_section_nodup; [exact Hnd | exact E1].
    + rewrite <- app_assoc. exact Hsplit.
    + destruct (@ensure_section_keys_eq d d1 s E1) as (l & Hl & Hk). rewrite Hk.
      apply ordered_append; [exact Hs | exact Hnew|].
      destruct Hl as [-> | (e & Hne & Hv & He & ->)]; [exact Ho|].
      apply ordered_remove; try assumption.
      intros Hc. rewrite (@variant_common T s e Hs Hc) in Hv; [discriminate|].
      congruence.
    + exact E.
Qed.

End WithTables.

End KeyOrderFacts.

Section KeyOrderClaims.
Import Dict Re Parser StrFacts DictFacts ScanFacts SubseqFacts PipelineFacts
       CanonFacts ParseFacts KeyOrderFacts.
Context {T : CaseTables}.

(** C3, as the code has it.  The keys of the result are distinct.  The
    found sections are the sections of the scan whose body is not blank
    after the header fallback, in the order the sections were first
    encountered.  The keys of the result are the found keys that are
    still keys (they keep their spelling), in that order, followed by
    the common names that are not found keys (created by the loop over
    the common sections, by renaming or as empty entries), in the order
    of the common sections.  Which found keys are still keys is given
    by the turns of the loop made on the found keys: a turn removes the
    first key that is a variant of its section and another key, and adds
    the section at the end unless it is a key. *)
Theorem parse_key_order (content : str) :
  exists raw d1 d,
    scan content = Some raw /\
    header_fallback (join_sections raw) = Some d1 /\
    parse_cv_content content = Some d /\
    NoDup (keys d) /\
    keys d1 = first_seen content /\
    keys d =
      filter (fun k => mem k d)
             (filter (nonblank_in d1) (first_seen content))
      ++ filter (fun c => negb (nonblank_in d1 c)) common_sections /\
    keys d =
      fold_left key_turn common_sections
                (filter (nonblank_in d1) (first_seen content)).
Proof.
  destruct (parse_stages content)
    as (raw & d1 & d2 & Es & Eh & Ec & E & Hnd & _ & K1 & _).
  assert (Hnd1 : NoDup (keys d1)) by (rewrite K1; exact Hnd).
  assert (Hndc : NoDup (keys (cleanup d1)))
    by (eapply subseq_nodup; [apply cleanup_keys | exact Hnd1]).
  assert (Hseen : keys d1 = first_seen content)
    by (rewrite K1; apply (@scan_first_seen T content raw Es)).
  exists raw, d1, d2. split; [exact Es|]. split; [exact Eh|].
  split; [exact E|]. split; [|split; [exact Hseen|split]].
  - apply (@canonicalize_nodup T common_sections (cleanup d1) d2); assumption.
  - unfold canonicalize in Ec.
    destruct (@canonicalize_ordered T (keys (cleanup d1)) common_sections []
                (cleanup d1) d2 Hndc Hndc eq_refl) as [Ha _]; [|exact Ec|].
    { split; [|intros c _ H; exact H].
      cbn [filter]. rewrite app_nil_r. symmetry. apply filter_all. }
    rewrite Ha at 1. rewrite <- Hseen, <- (@keys_cleanup d1 Hnd1). f_equal.
    + apply filter_ext. intros k. apply existsb_keys_mem.
    + apply filter_ext. intros c. f_equal.
      rewrite existsb_keys_mem. apply mem_cleanup. exact Hnd1.
  - unfold canonicalize in Ec.
    rewrite (@canonicalize_key_turns T common_sections (cleanup d1) d2 Ec).
    rewrite (@keys_cleanup d1 Hnd1), Hseen. reflexivity.
Qed.

End KeyOrderClaims.
